(** * Co-simulation driver of sinergym: codec and episode state machine

    A shallow embedding of [sinergym/simulators/eplus.py]: the message
    codec ([_assembleMsg], [_disassembleMsg]) over Python strings, ints and
    binary64 floats, and the episode operations ([reset], [step],
    [_end_episode]) as a state-and-exception monad over the driver object,
    the peer and an I/O trace. *)

From Stdlib Require Import ZArith QArith Qabs Qpower String Ascii List Bool Lia Lqa.
From Stdlib Require Import Floats.SpecFloat.
Import ListNotations.
Local Open Scope Z_scope.

(** ** Python strings (code points below 256, as ISO-8859-1 decodes them) *)

Definition str := list ascii.

Definition lit (s : string) : str := list_ascii_of_string s.

Definition code (c : ascii) : Z := Z.of_nat (nat_of_ascii c).

Definition chr_eqb (a b : ascii) : bool := Ascii.eqb a b.

Definition SP : ascii := " "%char.

(** The white space that [int] and [float] skip at both ends of a string,
    in the Latin-1 range: tab to carriage return, the space, and the two
    spaces above 127 (NEL and the no-break space).  The separators 28 to
    31, which [str.isspace] also counts, are not skipped. *)
Definition is_space (c : ascii) : bool :=
  let n := code c in
  ((9 <=? n) && (n <=? 13)) || (n =? 32) || (n =? 133) || (n =? 160).

Definition is_digit (c : ascii) : bool :=
  let n := code c in (48 <=? n) && (n <=? 57).

Definition digit_val (c : ascii) : Z := code c - 48.

Definition digit_chr (d : Z) : ascii := ascii_of_nat (Z.to_nat (48 + d)).

(** [s.split(' ')]: cut at every single space, empty fields kept. *)
Fixpoint split_sp (s : str) : list str :=
  match s with
  | [] => [[]]
  | c :: r =>
      if chr_eqb c SP then [] :: split_sp r
      else match split_sp r with
           | t :: ts => (c :: t) :: ts
           | [] => [[c]]
           end
  end.

Fixpoint lstrip (s : str) : str :=
  match s with
  | c :: r => if is_space c then lstrip r else s
  | [] => []
  end.

(** [s.strip()] *)
Definition strip (s : str) : str := rev (lstrip (rev (lstrip s))).

(** Underscores of a numeric literal: each one must stand between two
    digits; they are removed before the number is read. *)
Fixpoint drop_underscores (prev : option ascii) (s : str) : option str :=
  match s with
  | [] => Some []
  | c :: r =>
      if chr_eqb c "_"%char then
        match prev, r with
        | Some p, n :: _ =>
            if is_digit p && is_digit n then drop_underscores (Some c) r
            else None
        | _, _ => None
        end
      else option_map (cons c) (drop_underscores (Some c) r)
  end.

Definition split_sign (s : str) : bool * str :=
  match s with
  | c :: r =>
      if chr_eqb c "-"%char then (true, r)
      else if chr_eqb c "+"%char then (false, r)
      else (false, s)
  | [] => (false, [])
  end.

Definition digits_val (s : str) : Z :=
  fold_left (fun a c => 10 * a + digit_val c) s 0.

Definition all_digits (s : str) : bool := forallb is_digit s.

Definition signed (neg : bool) (z : Z) : Z := if neg then - z else z.

(** [int(s)] on a string, base 10; [None] is Python's ValueError.  Digit
    strings of any length are read: the limit of 4300 digits that later
    CPython versions put on this conversion is left out, and what is
    stated of [int] is stated of strings within that limit. *)
Definition py_int (s : str) : option Z :=
  match drop_underscores None (strip s) with
  | None => None
  | Some t =>
      let (neg, ds) := split_sign t in
      match ds with
      | [] => None
      | _ => if all_digits ds then Some (signed neg (digits_val ds)) else None
      end
  end.

(** ** Decimal output *)

(** The last [w] decimal digits of [n], most significant first. *)
Fixpoint digits_fixed (w : nat) (n : Z) : str :=
  match w with
  | O => []
  | S w' => digits_fixed w' (n / 10) ++ [digit_chr (n mod 10)]
  end.

Fixpoint ndigits_aux (fuel : nat) (n : Z) : Z :=
  match fuel with
  | O => 0
  | S f => if n <? 10 then 1 else 1 + ndigits_aux f (n / 10)
  end.

(** Number of decimal digits of [n] (1 for [n <= 9]). *)
Definition ndigits (n : Z) : Z := ndigits_aux (S (Z.to_nat (Z.log2 n))) n.

Definition dec_digits (n : Z) : str := digits_fixed (Z.to_nat (ndigits n)) n.

(** ['%d' % z] for an int. *)
Definition fmt_d_int (z : Z) : str :=
  (if z <? 0 then ["-"%char] else []) ++ dec_digits (Z.abs z).

(** ** Python numbers *)

(** A Python float is an IEEE-754 binary64 value: [spec_float] with
    precision 53 and [emax] 1024. *)
Definition float := spec_float.

Definition is_binary64 (x : float) : bool := valid_binary 53 1024 x.

Definition is_finite (x : float) : bool :=
  match x with
  | S754_zero _ | S754_finite _ _ _ => true
  | _ => false
  end.

(** The exact value of a finite float, as a rational. *)
Definition F2Q (x : float) : Q :=
  match x with
  | S754_finite s m e => (inject_Z (signed s (Zpos m)) * 2 ^ e)%Q
  | _ => 0%Q
  end.

(** Comparison of two floats; [None] when one of them is a NaN. *)
Definition float_cmp (x y : float) : option comparison :=
  match x, y with
  | S754_nan, _ | _, S754_nan => None
  | S754_infinity s1, S754_infinity s2 =>
      Some (if s1 then if s2 then Eq else Lt else if s2 then Gt else Eq)
  | S754_infinity s, _ => Some (if s then Lt else Gt)
  | _, S754_infinity s => Some (if s then Gt else Lt)
  | _, _ => Some (F2Q x ?= F2Q y)%Q
  end.

(** [x >= y] *)
Definition float_ge (x y : float) : bool :=
  match float_cmp x y with
  | Some Gt | Some Eq => true
  | _ => false
  end.

(** [x <= y] *)
Definition float_le (x y : float) : bool := float_ge y x.

(** [x < y] *)
Definition float_lt (x y : float) : bool :=
  match float_cmp x y with
  | Some Lt => true
  | _ => false
  end.

(** Nearest integer to [n / d] for [0 < d], ties to the even one. *)
Definition rne (n d : Z) : Z :=
  let q := n / d in
  match 2 * (n mod d) ?= d with
  | Lt => q
  | Gt => q + 1
  | Eq => if Z.even q then q else q + 1
  end.

(** [floor (log10 (n / d))] for positive [n] and [d]. *)
Definition ilog10 (n d : Z) : Z :=
  if d <=? n then ndigits (n / d) - 1 else - ndigits ((d - 1) / n).

(** [floor (log2 (n / d))] for positive [n] and [d]. *)
Definition ilog2 (n d : Z) : Z :=
  let l := Z.log2 n - Z.log2 d in
  if (if 0 <=? l then d * 2 ^ l <=? n else d <=? n * 2 ^ (- l))
  then l else l - 1.

(** [n / d * b ^ p] rounded to the nearest integer, for any sign of [p]. *)
Definition rne_scaled (b : Z) (n d p : Z) : Z :=
  if 0 <=? p then rne (n * b ^ p) d else rne n (d * b ^ (- p)).

(** The numerator and denominator of [m * 2 ^ e]. *)
Definition frac_of (m e : Z) : Z * Z :=
  if 0 <=? e then (m * 2 ^ e, 1) else (m, 2 ^ (- e)).

(** Correctly rounded conversion of [m * 2 ^ e] to 16 significant decimal
    digits: the digits [D] (as a number in [[10^15, 10^16)]) and the decimal
    exponent [k] of the first one. *)
Definition dec16 (m e : Z) : Z * Z :=
  let (n, d) := frac_of m e in
  let k := ilog10 n d in
  let D := rne_scaled 10 n d (15 - k) in
  if D =? 10 ^ 16 then (10 ^ 15, k + 1) else (D, k).

(** The binary64 value nearest to [n / d] (positive [n] and [d]), ties to
    even, overflowing to infinity and underflowing to subnormals or zero. *)
Definition nearest_binary64 (neg : bool) (n d : Z) : float :=
  let e := Z.max (ilog2 n d - 52) (-1074) in
  let m := rne_scaled 2 n d (- e) in
  let '(m, e) := if m =? 2 ^ 53 then (2 ^ 52, e + 1) else (m, e) in
  if m =? 0 then S754_zero neg
  else if 971 <? e then S754_infinity neg
  else S754_finite neg (Z.to_pos m) e.

(** The float of the decimal [D * 10 ^ q], [0 <= D]. *)
Definition dec_to_float (neg : bool) (D q : Z) : float :=
  if D =? 0 then S754_zero neg
  else if 0 <=? q then nearest_binary64 neg (D * 10 ^ q) 1
  else nearest_binary64 neg D (10 ^ (- q)).

Definition sign_str (neg : bool) : str := if neg then ["-"%char] else [].

Definition rjust (w : nat) (s : str) : str := repeat SP (w - List.length s) ++ s.

Definition exp_digits (n : Z) : str :=
  if n <? 10 then "0"%char :: dec_digits n else dec_digits n.

(** ['%.15e' % x] before padding. *)
Definition fmt_e15_body (x : float) : str :=
  match x with
  | S754_nan => lit "nan"
  | S754_infinity s => sign_str s ++ lit "inf"
  | S754_zero s => sign_str s ++ lit "0.000000000000000e+00"
  | S754_finite s m e =>
      let (D, k) := dec16 (Zpos m) e in
      sign_str s ++ digits_fixed 1 (D / 10 ^ 15) ++ ["."%char]
        ++ digits_fixed 15 D ++ ["e"%char]
        ++ [if k <? 0 then "-"%char else "+"%char] ++ exp_digits (Z.abs k)
  end.

(** ['%20.15e' % x] *)
Definition fmt_e15 (x : float) : str := rjust 20 (fmt_e15_body x).

Fixpoint span_digits (s : str) : str * str :=
  match s with
  | c :: r =>
      if is_digit c then let (a, b) := span_digits r in (c :: a, b)
      else ([], s)
  | [] => ([], [])
  end.

Definition lower (c : ascii) : ascii :=
  let n := code c in
  if (65 <=? n) && (n <=? 90) then ascii_of_nat (Z.to_nat (n + 32)) else c.

Fixpoint str_eqb (a b : str) : bool :=
  match a, b with
  | [], [] => true
  | x :: a', y :: b' => chr_eqb x y && str_eqb a' b'
  | _, _ => false
  end.

(** The exponent part of a float literal: empty, or [e], a sign and
    digits. *)
Definition parse_exponent (s : str) : option Z :=
  match s with
  | [] => Some 0
  | c :: r =>
      if chr_eqb (lower c) "e"%char then
        let (neg, ds) := split_sign r in
        match ds with
        | [] => None
        | _ => if all_digits ds then Some (signed neg (digits_val ds)) else None
        end
      else None
  end.

(** An unsigned decimal literal [digits [. digits] [exponent]] read as
    [D * 10 ^ q]. *)
Definition parse_decimal (s : str) : option (Z * Z) :=
  let (ip, r1) := span_digits s in
  let (fp, r2) :=
    match r1 with
    | c :: r => if chr_eqb c "."%char then span_digits r else ([], r1)
    | [] => ([], r1)
    end in
  match ip ++ fp with
  | [] => None
  | ds =>
      match parse_exponent r2 with
      | Some x => Some (digits_val ds, x - Z.of_nat (List.length fp))
      | None => None
      end
  end.

(** [float(s)] on a string; [None] is Python's ValueError. *)
Definition py_float (s : str) : option float :=
  match drop_underscores None (strip s) with
  | None => None
  | Some t =>
      let (neg, r) := split_sign t in
      let lr := map lower r in
      if str_eqb lr (lit "inf") || str_eqb lr (lit "infinity")
      then Some (S754_infinity neg)
      else if str_eqb lr (lit "nan") then Some S754_nan
      else match parse_decimal r with
           | Some (D, q) => Some (dec_to_float neg D q)
           | None => None
           end
  end.

(** ** Exceptions and results *)

Inductive exn : Type :=
| IndexError
| ValueError
| OverflowError
| AttributeError
| UnboundLocalError
| OSError (errno : Z).

Inductive result (A : Type) : Type :=
| Ok (a : A)
| Raise (e : exn).

Arguments Ok {A} a.
Arguments Raise {A} e.

Definition rbind {A B} (c : result A) (k : A -> result B) : result B :=
  match c with
  | Ok a => k a
  | Raise e => Raise e
  end.

Notation "x <~ c ;; k" := (rbind c (fun x => k))
  (at level 61, c at next level, right associativity).

Definition is_ok {A} (r : result A) : bool :=
  match r with Ok _ => true | Raise _ => false end.

(** [l[i]] for a non-negative index. *)
Definition getitem {A} (l : list A) (i : nat) : result A :=
  match nth_error l i with
  | Some x => Ok x
  | None => Raise IndexError
  end.

Definition int_ (s : str) : result Z :=
  match py_int s with
  | Some z => Ok z
  | None => Raise ValueError
  end.

Definition float_ (s : str) : result float :=
  match py_float s with
  | Some x => Ok x
  | None => Raise ValueError
  end.

(** [range(a, b)] *)
Definition range (a b : nat) : list nat := seq a (b - a).

(** [for x in l: body], threading the variables the body assigns. *)
Fixpoint for_each {A S} (l : list A) (body : A -> S -> result S) (s : S)
  : result S :=
  match l with
  | [] => Ok s
  | x :: r => s' <~ body x s ;; for_each r body s'
  end.

(** A number given to ['%d']: an int or a float. *)
Inductive pynum : Type :=
| PyInt (z : Z)
| PyFloat (x : float).

(** ['%d' % v].  An int is printed whatever its size: the limit of 4300
    digits that later CPython versions put on the conversion is left
    out. *)
Definition fmt_d (v : pynum) : result str :=
  match v with
  | PyInt z => Ok (fmt_d_int z)
  | PyFloat S754_nan => Raise ValueError
  | PyFloat (S754_infinity _) => Raise OverflowError
  | PyFloat (S754_zero _) => Ok (fmt_d_int 0)
  | PyFloat (S754_finite s m e) =>
      let (n, d) := frac_of (Zpos m) e in Ok (fmt_d_int (signed s (n / d)))
  end.

(** ** The message codec *)

Record msg : Type := Msg {
  m_version : Z;
  m_flag : Z;
  m_nDb : Z;
  m_nIn : Z;
  m_nBl : Z;
  m_curSimTim : float;
  m_Dblist : list float
}.

Definition NL : ascii := ascii_of_nat 10.

Definition _assembleMsg (version flag nDb nIn nBl : pynum)
    (curSimTim : float) (Dblist : list float) : result str :=
  let ret := [] in
  v <~ fmt_d version ;;
  let ret := ret ++ v in
  let ret := ret ++ [SP] in
  f <~ fmt_d flag ;;
  let ret := ret ++ f in
  let ret := ret ++ [SP] in
  d <~ fmt_d nDb ;;
  let ret := ret ++ d in
  let ret := ret ++ [SP] in
  i <~ fmt_d nIn ;;
  let ret := ret ++ i in
  let ret := ret ++ [SP] in
  b <~ fmt_d nBl ;;
  let ret := ret ++ b in
  let ret := ret ++ [SP] in
  let ret := ret ++ fmt_e15 curSimTim in
  let ret := ret ++ [SP] in
  ret <~ for_each (range 0 (List.length Dblist))
           (fun i ret =>
              x <~ getitem Dblist i ;;
              let ret := ret ++ fmt_e15 x in
              Ok (ret ++ [SP]))
           ret ;;
  let ret := ret ++ [NL] in
  Ok ret.

Definition _disassembleMsg (rcv : str) : result msg :=
  let rcv := split_sp rcv in
  t <~ getitem rcv 0 ;; version <~ int_ t ;;
  t <~ getitem rcv 1 ;; flag <~ int_ t ;;
  t <~ getitem rcv 2 ;; nDb <~ int_ t ;;
  t <~ getitem rcv 3 ;; nIn <~ int_ t ;;
  t <~ getitem rcv 4 ;; nBl <~ int_ t ;;
  t <~ getitem rcv 5 ;; curSimTim <~ float_ t ;;
  Dblist <~ for_each (range 6 (List.length rcv - 1))
              (fun i Dblist =>
                 t <~ getitem rcv i ;;
                 x <~ float_ t ;;
                 Ok (Dblist ++ [x]))
              [] ;;
  Ok (Msg version flag nDb nIn nBl curSimTim Dblist).

(** ** The driver object, the peer and the I/O trace *)

Definition conn := nat.
Definition pid := nat.

Definition SIGTERM : Z := 15.

(** The float [1.0]. *)
Definition float_one : float := S754_finite false 4503599627370496 (-52).

Inductive setup_step : Type :=
| SetEpisodeWorkingDir
| SaveBuildingModel
| ApplyWeatherVariability
| CopyVariables
| CreateSocketCfg.

(** What the driver does to the outside, in order. *)
Inductive event : Type :=
| EvSetup (s : setup_step)
| EvSpawn (p : pid)
| EvPoll (p : pid)
| EvThread (p : pid) (err : bool)
| EvAccept (c : conn)
| EvSend (c : conn) (data : str)
| EvRecv (c : conn) (data : str)
| EvClose (c : conn)
| EvSleep (secs : Z)
| EvKillpg (p : pid) (sig : Z).

(** The attributes of an [EnergyPlus] object that the episode operations
    read or write; [None] is an attribute not yet set (or set to [None]):
    using it raises AttributeError. *)
Record EnergyPlus : Type := mkEnergyPlus {
  _episode_existed : bool;
  _epi_num : Z;
  _act_repeat : Z;
  _last_action : list float;
  _eplus_msg_header : option (Z * Z);
  _curSimTim : option float;
  _conn : option conn;
  _eplus_process : option pid;
  _eplus_one_epi_len : float
}.

(** The outside world: what the peer will send (an empty inbox is a closed
    peer: [recv] returns the empty string), and which calls to the
    operating system fail, by their rank. *)
Record World : Type := mkWorld {
  inbox : list str;
  faults : nat -> option exn;
  ticks : nat
}.

Record Sys : Type := mkSys {
  self : EnergyPlus;
  world : World;
  trace : list event
}.

(** State and exceptions: an exception leaves the state as it was when it
    was raised. *)
Definition M (A : Type) : Type := Sys -> result A * Sys.

Definition ret {A} (a : A) : M A := fun s => (Ok a, s).

Definition raise {A} (e : exn) : M A := fun s => (Raise e, s).

Definition bind {A B} (c : M A) (k : A -> M B) : M B :=
  fun s =>
    match c s with
    | (Ok a, s') => k a s'
    | (Raise e, s') => (Raise e, s')
    end.

Notation "x <- c ;; k" := (bind c (fun x => k))
  (at level 61, c at next level, right associativity).
Notation "c ;;; k" := (bind c (fun _ => k))
  (at level 61, right associativity).

Definition lift {A} (r : result A) : M A := fun s => (r, s).

(** [self.f] *)
Definition get {A} (f : EnergyPlus -> A) : M A := fun s => (Ok (f (self s)), s).

(** [self.f] for an attribute that may be unset. *)
Definition attr {A} (f : EnergyPlus -> option A) : M A :=
  fun s =>
    match f (self s) with
    | Some a => (Ok a, s)
    | None => (Raise AttributeError, s)
    end.

Definition modify (f : EnergyPlus -> EnergyPlus) : M unit :=
  fun s => (Ok tt, mkSys (f (self s)) (world s) (trace s)).

Definition set_episode_existed (b : bool) (o : EnergyPlus) : EnergyPlus :=
  mkEnergyPlus b (_epi_num o) (_act_repeat o) (_last_action o)
    (_eplus_msg_header o) (_curSimTim o) (_conn o) (_eplus_process o)
    (_eplus_one_epi_len o).

Definition set_epi_num (n : Z) (o : EnergyPlus) : EnergyPlus :=
  mkEnergyPlus (_episode_existed o) n (_act_repeat o) (_last_action o)
    (_eplus_msg_header o) (_curSimTim o) (_conn o) (_eplus_process o)
    (_eplus_one_epi_len o).

Definition set_last_action (a : list float) (o : EnergyPlus) : EnergyPlus :=
  mkEnergyPlus (_episode_existed o) (_epi_num o) (_act_repeat o) a
    (_eplus_msg_header o) (_curSimTim o) (_conn o) (_eplus_process o)
    (_eplus_one_epi_len o).

Definition set_eplus_msg_header (h : Z * Z) (o : EnergyPlus) : EnergyPlus :=
  mkEnergyPlus (_episode_existed o) (_epi_num o) (_act_repeat o)
    (_last_action o) (Some h) (_curSimTim o) (_conn o) (_eplus_process o)
    (_eplus_one_epi_len o).

Definition set_curSimTim (t : float) (o : EnergyPlus) : EnergyPlus :=
  mkEnergyPlus (_episode_existed o) (_epi_num o) (_act_repeat o)
    (_last_action o) (_eplus_msg_header o) (Some t) (_conn o)
    (_eplus_process o) (_eplus_one_epi_len o).

Definition set_conn (c : option conn) (o : EnergyPlus) : EnergyPlus :=
  mkEnergyPlus (_episode_existed o) (_epi_num o) (_act_repeat o)
    (_last_action o) (_eplus_msg_header o) (_curSimTim o) c
    (_eplus_process o) (_eplus_one_epi_len o).

Definition set_eplus_process (p : pid) (o : EnergyPlus) : EnergyPlus :=
  mkEnergyPlus (_episode_existed o) (_epi_num o) (_act_repeat o)
    (_last_action o) (_eplus_msg_header o) (_curSimTim o) (_conn o) (Some p)
    (_eplus_one_epi_len o).

(** One call to the outside: it fails when the world says so, and
    otherwise acts on the world and is recorded. *)
Definition syscall {A} (run : World -> A * World) (ev : A -> event) : M A :=
  fun s =>
    let w := world s in
    let w1 := mkWorld (inbox w) (faults w) (S (ticks w)) in
    match faults w (ticks w) with
    | Some e => (Raise e, mkSys (self s) w1 (trace s))
    | None =>
        let (a, w2) := run w1 in
        (Ok a, mkSys (self s) w2 (trace s ++ [ev a]))
    end.

Definition effect (ev : event) : M unit :=
  syscall (fun w => (tt, w)) (fun _ => ev).

(** [c.send(data)] *)
Definition send (c : conn) (data : str) : M unit := effect (EvSend c data).

(** [c.recv(2048).decode('ISO-8859-1')] *)
Definition recv (c : conn) : M str :=
  syscall
    (fun w =>
       match inbox w with
       | [] => ([], w)
       | m :: r => (m, mkWorld r (faults w) (ticks w))
       end)
    (EvRecv c).

(** [c.close()] *)
Definition close (c : conn) : M unit := effect (EvClose c).

(** [time.sleep(secs)] *)
Definition sleep (secs : Z) : M unit := effect (EvSleep secs).

(** [os.killpg(p, sig)] *)
Definition killpg (p : pid) (sig : Z) : M unit := effect (EvKillpg p sig).

Definition setup (st : setup_step) : M unit := effect (EvSetup st).

(** [subprocess.Popen(...)] through [_create_eplus]. *)
Definition _create_eplus : M pid := syscall (fun w => (ticks w, w)) EvSpawn.

(** [self._socket.accept()] *)
Definition accept : M conn := syscall (fun w => (ticks w, w)) EvAccept.

(** [len(l)] *)
Definition len {A} (l : list A) : Z := Z.of_nat (List.length l).

(** [while cond: body], for a loop that ends within [fuel] rounds. *)
Fixpoint while_ {S} (fuel : nat) (cond : S -> M bool) (body : S -> M S)
    (s : S) : M S :=
  match fuel with
  | O => ret s
  | Datatypes.S f =>
      b <- cond s ;;
      if b then (s' <- body s ;; while_ f cond body s') else ret s
  end.

(** The local variables of [step] that its loop assigns; [Dblist] is
    unbound until the first round. *)
Record locals : Type := mkLocals {
  act_repeat_i : Z;
  is_terminal : bool;
  curSimTim : float;
  Dblist : option (list float)
}.

Section Driver.

(** [get_current_time_info(self._config.building, t)], from
    [sinergym.utils.common]. *)
Variable TimeInfo : Type.
Variable get_current_time_info : float -> TimeInfo.

Definition _end_episode : M unit :=
  header <- attr _eplus_msg_header ;;
  let flag := PyFloat float_one in
  action <- get _last_action ;;
  let action_size := len action in
  cur <- attr _curSimTim ;;
  tosend <- lift (_assembleMsg (PyInt (fst header)) flag (PyInt action_size)
                    (PyInt 0) (PyInt 0) cur action) ;;
  c <- attr _conn ;;
  send c tosend ;;;
  c <- attr _conn ;;
  rcv <- recv c ;;
  c <- attr _conn ;;
  send c tosend ;;;
  c <- attr _conn ;;
  close c ;;;
  modify (set_conn None) ;;;
  sleep 1 ;;;
  p <- attr _eplus_process ;;
  killpg p SIGTERM ;;;
  modify (set_episode_existed false).

Definition reset : M (TimeInfo * list float * bool) :=
  existed <- get _episode_existed ;;
  (if existed
   then _end_episode ;;;
        n <- get _epi_num ;;
        modify (set_epi_num (n + 1))
   else ret tt) ;;;
  setup SetEpisodeWorkingDir ;;;
  setup SaveBuildingModel ;;;
  setup ApplyWeatherVariability ;;;
  setup CopyVariables ;;;
  setup CreateSocketCfg ;;;
  eplus_process <- _create_eplus ;;
  effect (EvPoll eplus_process) ;;;
  modify (set_eplus_process eplus_process) ;;;
  effect (EvThread eplus_process false) ;;;
  effect (EvThread eplus_process true) ;;;
  conn <- accept ;;
  rcv_1st <- recv conn ;;
  m <- lift (_disassembleMsg rcv_1st) ;;
  let time_info := get_current_time_info (m_curSimTim m) in
  modify (set_eplus_msg_header (m_version m, m_flag m)) ;;;
  modify (set_curSimTim (m_curSimTim m)) ;;;
  epi_len <- get _eplus_one_epi_len ;;
  let is_terminal := float_ge (m_curSimTim m) epi_len in
  modify (set_conn (Some conn)) ;;;
  modify (set_episode_existed true) ;;;
  (if is_terminal then _end_episode else ret tt) ;;;
  ret (time_info, m_Dblist m, is_terminal).

Definition step_cond (l : locals) : M bool :=
  r <- get _act_repeat ;;
  ret ((act_repeat_i l <? r) && negb (is_terminal l)).

Definition step_body (action : list float) (l : locals) : M locals :=
  header <- attr _eplus_msg_header ;;
  let runFlag := PyInt 0 in
  tosend <- lift (_assembleMsg (PyInt (fst header)) runFlag
                    (PyInt (len action)) (PyInt 0) (PyInt 0)
                    (curSimTim l) action) ;;
  c <- attr _conn ;;
  send c tosend ;;;
  c <- attr _conn ;;
  rcv <- recv c ;;
  m <- lift (_disassembleMsg rcv) ;;
  epi_len <- get _eplus_one_epi_len ;;
  let reached := float_ge (m_curSimTim m) epi_len in
  (if reached then modify (set_last_action action) else ret tt) ;;;
  ret (mkLocals (act_repeat_i l + 1)
         (if reached then true else is_terminal l)
         (m_curSimTim m) (Some (m_Dblist m))).

Definition step (action : list float)
  : M (option (TimeInfo * list float * bool)) :=
  cur <- attr _curSimTim ;;
  epi_len <- get _eplus_one_epi_len ;;
  if float_ge cur epi_len then ret None
  else
    r <- get _act_repeat ;;
    l <- while_ (Z.to_nat r) step_cond (step_body action)
           (mkLocals 0 false cur None) ;;
    let time_info := get_current_time_info (curSimTim l) in
    obs <- match Dblist l with
           | Some d => ret d
           | None => raise UnboundLocalError
           end ;;
    modify (set_curSimTim (curSimTim l)) ;;;
    modify (set_last_action action) ;;;
    ret (Some (time_info, obs, is_terminal l)).

End Driver.

Arguments reset {TimeInfo} get_current_time_info.
Arguments step {TimeInfo} get_current_time_info action.

(** ** Vocabulary of the statements *)

(** The object that [__init__] leaves, for a given repeat count and
    episode length. *)
Definition initial (act_repeat : Z) (epi_len : float) : EnergyPlus :=
  mkEnergyPlus false 0 act_repeat
    [S754_finite false 5910974510923776 (-48);
     S754_finite false 7036874417766400 (-48)]
    None None None None epi_len.

(** What a complete teardown does, in order. *)
Definition teardown_events (c : conn) (p : pid) (tosend rcv : str)
  : list event :=
  [EvSend c tosend; EvRecv c rcv; EvSend c tosend; EvClose c; EvSleep 1;
   EvKillpg p SIGTERM].

(** None of the next [n] calls to the outside fails. *)
Definition no_faults (w : World) (n : nat) : Prop :=
  forall i, (i < n)%nat -> faults w (ticks w + i) = None.

(** What the next [recv] returns. *)
Definition next_recv (w : World) : str :=
  match inbox w with
  | [] => []
  | m :: _ => m
  end.

(** The world after [n] successful calls, one of them a [recv]. *)
Definition after_calls (n : nat) (w : World) : World :=
  mkWorld (tl (inbox w)) (faults w) (n + ticks w).

(** The value fields of an outgoing message. *)
Definition encode_values (l : list float) : str :=
  concat (map (fun x => fmt_e15 x ++ [SP]) l).

(** The line that [_assembleMsg] builds from already formatted header
    fields. *)
Definition message_line (v f d i b : str) (t : float) (l : list float) : str :=
  v ++ [SP] ++ f ++ [SP] ++ d ++ [SP] ++ i ++ [SP] ++ b ++ [SP]
    ++ fmt_e15 t ++ [SP] ++ encode_values l ++ [NL].

(** The terminate message of an object whose header holds version [v] and
    whose time cursor is [cur]. *)
Definition terminate_line (o : EnergyPlus) (v : Z) (cur : float) : str :=
  message_line (fmt_d_int v) (fmt_d_int 1) (fmt_d_int (len (_last_action o)))
    (fmt_d_int 0) (fmt_d_int 0) cur (_last_action o).

(** The message of one round of [step]. *)
Definition step_line (v : Z) (cur : float) (action : list float) : str :=
  message_line (fmt_d_int v) (fmt_d_int 0) (fmt_d_int (len action))
    (fmt_d_int 0) (fmt_d_int 0) cur action.

(** The float that a Python literal denotes. *)
Definition lit_float (s : string) : float :=
  match py_float (lit s) with
  | Some x => x
  | None => S754_nan
  end.


(** A peer that answers every message and an operating system that never
    fails. *)
Definition friendly (msgs : list string) (start : nat) : World :=
  mkWorld (map lit msgs) (fun _ => None) start.

(** The same peer, when the call of rank [k] fails with [e]. *)
Definition faulty (msgs : list string) (start k : nat) (e : exn) : World :=
  mkWorld (map lit msgs) (fun i => if Nat.eqb i k then Some e else None) start.

(** An episode under way: version 2, cursor at 900 s of 1800 s, connection
    10, process 6. *)
Definition active_object : EnergyPlus :=
  mkEnergyPlus true 0 1 [lit_float "21.0"; lit_float "25.0"] (Some (2, 0))
    (Some (lit_float "900.0")) (Some 10%nat) (Some 6%nat) (lit_float "1800.0").

Definition active_sys : Sys :=
  mkSys active_object (friendly ["2 0 1 0 0 1800.0 20.5 "%string] 11) [].

(** The same episode when the first [send] of teardown fails (broken
    pipe). *)
Definition broken_pipe_sys : Sys :=
  mkSys active_object
    (faulty ["2 0 1 0 0 1800.0 20.5 "%string] 11 11 (OSError 32)) [].

(** One exchange round of [step]: what was sent, what came back and how
    it decoded. *)
Record round : Type := mkRound {
  r_sent : str;
  r_rcv : str;
  r_msg : msg
}.

Definition round_events (c : conn) (r : round) : list event :=
  [EvSend c (r_sent r); EvRecv c (r_rcv r)].

(** The rounds [rs], started at cursor [cur], are those of one [step]: each
    sends the action with flag 0 and the cursor of the moment, the cursor
    moves to the elapsed time of the answer, and only the last answer may
    have reached the episode length. *)
Fixpoint rounds_from (v : Z) (action : list float) (epi_len cur : float)
    (rs : list round) : Prop :=
  match rs with
  | [] => True
  | r :: rest =>
      _assembleMsg (PyInt v) (PyInt 0) (PyInt (len action)) (PyInt 0)
        (PyInt 0) cur action = Ok (r_sent r) /\
      _disassembleMsg (r_rcv r) = Ok (r_msg r) /\
      (rest <> [] -> float_ge (m_curSimTim (r_msg r)) epi_len = false) /\
      rounds_from v action epi_len (m_curSimTim (r_msg r)) rest
  end.

(** A driver just built, facing a peer whose handshake is at time 0. *)
Definition fresh_sys : Sys :=
  mkSys (initial 2 (lit_float "1800.0"))
    (friendly ["2 0 2 0 0 0.0 20.0 21.0 "%string;
               "2 0 2 0 0 900.0 20.5 21.5 "%string;
               "2 0 2 0 0 1800.0 21.0 22.0 "%string] 0) [].

(** The episode that [reset] starts from [fresh_sys]. *)
Definition after_reset : Sys := snd (reset (fun t => t) fresh_sys).

(** A sequence of [step] calls, one per action, with the time cursor read
    after each call. *)
Fixpoint run_steps {TimeInfo : Type} (time_info : float -> TimeInfo)
    (acts : list (list float)) : M (list float) :=
  match acts with
  | [] => ret []
  | a :: rest =>
      step time_info a ;;;
      c <- attr _curSimTim ;;
      cs <- run_steps time_info rest ;;
      ret (c :: cs)
  end.

(** The elapsed times carried by the peer messages read in a trace. *)
Definition recv_times (tr : list event) : list float :=
  flat_map
    (fun ev =>
       match ev with
       | EvRecv _ d =>
           match _disassembleMsg d with
           | Ok m => [m_curSimTim m]
           | Raise _ => []
           end
       | _ => []
       end)
    tr.

(** [t <= l0 <= l1 <= ...] *)
Fixpoint nondecreasing (t : float) (l : list float) : Prop :=
  match l with
  | [] => True
  | x :: r => float_le t x = true /\ nondecreasing x r
  end.

(** [c] comes right after [p] in [l]. *)
Definition follows (p c : float) (l : list float) : Prop :=
  exists l1 l2, l = l1 ++ p :: c :: l2.

(** A float as a point of the extended rational line. *)
Inductive ext : Type :=
| ENan
| ENegInf
| EFin (q : Q)
| EPosInf.

Definition to_ext (x : float) : ext :=
  match x with
  | S754_nan => ENan
  | S754_infinity true => ENegInf
  | S754_infinity false => EPosInf
  | _ => EFin (F2Q x)
  end.

Definition ext_le (a b : ext) : Prop :=
  match a, b with
  | ENan, _ | _, ENan => False
  | ENegInf, _ => True
  | _, EPosInf => True
  | EFin p, EFin q => (p <= q)%Q
  | _, _ => False
  end.

Definition round_time (r : round) : float := m_curSimTim (r_msg r).

(** What a cursor value [c] at or past the episode length [L] must be,
    relative to the times [seq] seen so far: the starting cursor [t0], or a
    time that came right after one below the episode length. *)
Definition overshoot_ok (L t0 : float) (seq : list float) (c : float) : Prop :=
  float_ge c L = true ->
  c = t0 \/ exists p, float_lt p L = true /\ follows p c seq.

(** The action used in the examples. *)
Definition example_action : list float := [lit_float "21.0"; lit_float "25.0"].

(** The episode of [fresh_sys] after one call of [step]: both rounds of the
    call have run and the second answer has reached the episode length. *)
Definition after_step : Sys :=
  snd (step (fun t => t) example_action after_reset).

(** [float(t)] for each token of [l], in order. *)
Fixpoint parse_floats (l : list str) : result (list float) :=
  match l with
  | [] => Ok []
  | t :: r => x <~ float_ t ;; xs <~ parse_floats r ;; Ok (x :: xs)
  end.

(** What decoding does with a list of six tokens or more: five ints, a
    float, and the floats of every further token but the last. *)
Definition decode_tokens (toks : list str) : result msg :=
  match toks with
  | t0 :: t1 :: t2 :: t3 :: t4 :: t5 :: rest =>
      version <~ int_ t0 ;;
      flag <~ int_ t1 ;;
      nDb <~ int_ t2 ;;
      nIn <~ int_ t3 ;;
      nBl <~ int_ t4 ;;
      cur <~ float_ t5 ;;
      xs <~ parse_floats (removelast rest) ;;
      Ok (Msg version flag nDb nIn nBl cur xs)
  | _ => Raise IndexError
  end.

Definition is_some {A} (o : option A) : bool :=
  match o with Some _ => true | None => false end.

(** The lines that decode, as the code has it: at least six tokens, the
    first five read by [int], the sixth by [float], and every token after
    them except the last read by [float]. *)
Definition decodable (toks : list str) : bool :=
  (6 <=? List.length toks)%nat
  && forallb (fun t => is_some (py_int t)) (firstn 5 toks)
  && is_some (py_float (nth 5 toks []))
  && forallb (fun t => is_some (py_float t)) (removelast (skipn 6 toks)).

(** The lines that decode, as claim C2 states it: at least six tokens, six
    numeric header tokens, and every token after them read by [float]. *)
Definition decodable_as_stated (toks : list str) : bool :=
  (6 <=? List.length toks)%nat
  && forallb (fun t => is_some (py_float t)) (firstn 6 toks)
  && forallb (fun t => is_some (py_float t)) (skipn 6 toks).

(** The characters of a printed number. *)
Definition is_numchar (c : ascii) : bool :=
  is_digit c || chr_eqb c "-"%char || chr_eqb c "+"%char
  || chr_eqb c "."%char || chr_eqb c "e"%char.

Definition numeric_text (s : str) : bool := forallb is_numchar s.

(** [b ^ p] as a rational, for any sign of [p]. *)
Definition bpow (b p : Z) : Q := (inject_Z b ^ p)%Q.

(** [n / d] as a rational. *)
Definition frac (n d : Z) : Q := (inject_Z n / inject_Z d)%Q.

(** The largest magnitude whose sixteen printed digits are certain to be
    read back as a finite float: [(2 ^ 53 - 6) * 2 ^ 971]. *)
Definition max_printed : Q := inject_Z (2 ^ 53 - 6) * bpow 2 971.

(** The floats that ['%20.15e'] prints as a number that [float] reads back
    as a finite float: finite binary64 values of magnitude at most
    [max_printed]. *)
Definition printable (x : float) : bool :=
  is_binary64 x && is_finite x && Qle_bool (Qabs (F2Q x)) max_printed.

(** [y] is finite and within relative error [eps] of [x]. *)
Definition within (eps : Q) (x y : float) : Prop :=
  is_finite y = true /\ (Qabs (F2Q y - F2Q x) <= eps * Qabs (F2Q x))%Q.

(** The integer that ['%d'] prints for a number: the number itself, or a
    finite float truncated towards zero. *)
Definition int_of_num (v : pynum) : option Z :=
  match v with
  | PyInt z => Some z
  | PyFloat (S754_zero _) => Some 0
  | PyFloat (S754_finite s m e) =>
      let (n, d) := frac_of (Zpos m) e in Some (signed s (n / d))
  | PyFloat _ => None
  end.

(** The float of [0.1 + 0.2]. *)
Definition sum_tenths : float := S754_finite false 5404319552844596 (-54).

(** The largest finite float. *)
Definition max_float : float := S754_finite false 9007199254740991 971.

(** Encoding a message, then decoding the line. *)
Definition round_trip (version flag nDb nIn nBl : pynum) (t : float)
    (values : list float) : result msg :=
  line <~ _assembleMsg version flag nDb nIn nBl t values ;;
  _disassembleMsg line.

(** ** The rest of the episode operations *)

(** [end_env]: teardown, then the listening socket is closed.  [sock]
    stands for [self._socket], which [__init__] opens and nothing
    reassigns. *)
Definition end_env (sock : conn) : M unit :=
  _end_episode ;;;
  close sock.

(** Talk on a connection: a [send] or a [recv]. *)
Definition is_exchange (ev : event) : bool :=
  match ev with
  | EvSend _ _ | EvRecv _ _ => true
  | _ => false
  end.

(** What [reset] does for a new episode, up to the first message read:
    the working directory and its files, the process [p], the check that
    it runs, the two threads that log its output, the connection [c] and
    the handshake [hs]. *)
Definition reset_events (p : pid) (c : conn) (hs : str) : list event :=
  [EvSetup SetEpisodeWorkingDir; EvSetup SaveBuildingModel;
   EvSetup ApplyWeatherVariability; EvSetup CopyVariables;
   EvSetup CreateSocketCfg; EvSpawn p; EvPoll p; EvThread p false;
   EvThread p true; EvAccept c; EvRecv c hs].

(** The episode of [active_sys], facing a peer that answers the terminate
    message and then starts a new episode at time 0. *)
Definition restart_sys : Sys :=
  mkSys active_object
    (friendly ["2 1 0 0 0 900.0 "%string;
               "2 0 2 0 0 0.0 20.0 21.0 "%string] 11) [].

(** The same episode, facing a peer whose answer does not decode. *)
Definition garbled_sys : Sys :=
  mkSys active_object (friendly ["2 0 1 0 0 oops 20.5 "%string] 11) [].

(** An episode under way on a driver built with a repeat count of 0. *)
Definition no_repeat_sys : Sys :=
  mkSys
    (mkEnergyPlus true 0 0 [lit_float "21.0"; lit_float "25.0"] (Some (2, 0))
       (Some (lit_float "900.0")) (Some 10%nat) (Some 6%nat)
       (lit_float "1800.0"))
    (friendly ["2 0 1 0 0 1800.0 20.5 "%string] 11) [].

(** A driver just built for an episode of length 0: the handshake is
    already at the end of the episode. *)
Definition short_sys : Sys :=
  mkSys (initial 1 (lit_float "0.0"))
    (friendly ["2 0 2 0 0 0.0 20.0 21.0 "%string;
               "2 1 0 0 0 0.0 "%string] 0) [].

(** ** Paths and log headers *)

(** [s.split(sep)] for a separator of one character. *)
Fixpoint split_on (sep : ascii) (s : str) : list str :=
  match s with
  | [] => [[]]
  | c :: r =>
      if chr_eqb c sep then [] :: split_on sep r
      else match split_on sep r with
           | t :: ts => (c :: t) :: ts
           | [] => [[c]]
           end
  end.

(** [l[-1]] *)
Definition getitem_last {A} (l : list A) : result A :=
  match rev l with
  | x :: _ => Ok x
  | [] => Raise IndexError
  end.

Definition _get_file_name (file_path : str) : result str :=
  let path_list := split_on "/"%char file_path in
  getitem_last path_list.

(** The header line that [LoggerWrapper.__init__] and [EplusEnv.__init__]
    build from their list of column names: every name followed by a comma,
    and the last character dropped ([[:-1]]). *)
Definition monitor_header (monitor_header_list : list str) : str :=
  let monitor_header :=
    fold_left (fun h element_header => h ++ (element_header ++ [","%char]))
      monitor_header_list [] in
  removelast monitor_header.

(** The column names of [LoggerWrapper], for the observation and action
    variables of the environment. *)
Definition logger_header_list (observation action : list str) : list str :=
  [lit "timestep,month,day,hour"] ++ observation ++ action
    ++ [lit "time (seconds)"; lit "reward"; lit "power_penalty";
        lit "comfort_penalty"; lit "done"].

(** The column names of [EplusEnv]. *)
Definition env_header_list (observation action : list str) : list str :=
  [lit "timestep"] ++ observation ++ action
    ++ [lit "time (seconds)"; lit "reward"; lit "done"].

(** The character [c] does not occur in [s]. *)
Definition free_of (c : ascii) (s : str) : bool :=
  forallb (fun x => negb (chr_eqb x c)) s.

(** [sep.join(l)] *)
Fixpoint join (sep : ascii) (l : list str) : str :=
  match l with
  | [] => []
  | [x] => x
  | x :: r => x ++ sep :: join sep r
  end.

(** ** The observation wrappers *)

Module MultiObs.

(** [deque.append] on a deque bounded by [maxlen]: the entry is added on
    the right and, if the deque is then too long, its leftmost entry is
    dropped. *)
Definition deque_append {A} (maxlen : nat) (d : list A) (x : A) : list A :=
  let d := d ++ [x] in
  if (maxlen <? List.length d)%nat then tl d else d.

(** The attributes of a [MultiObsWrapper] that its methods use. *)
Record t : Type := mk {
  n : nat;
  ind_flat : bool;
  history : list (list float)
}.

(** [__init__]: an empty history bounded by [n]. *)
Definition init (n : nat) (flatten : bool) : t := mk n flatten [].

(** What [_get_obs] returns: a flat vector or the rows, one per
    observation. *)
Inductive stacked : Type :=
| Flat (v : list float)
| Rows (rows : list (list float)).

Definition _get_obs (w : t) : stacked :=
  if ind_flat w then Flat (concat (history w)) else Rows (history w).

(** [reset], given the observation [obs] that the wrapped environment
    returns. *)
Definition reset (obs : list float) (w : t) : stacked * t :=
  let h := fold_left (fun h _ => deque_append (n w) h obs)
             (range 0 (n w)) (history w) in
  let w := mk (n w) (ind_flat w) h in
  (_get_obs w, w).

(** [step], given what the wrapped environment returns: the observation
    and the rest (reward, done, info). *)
Definition step {R} (ret : list float * R) (w : t) : (stacked * R) * t :=
  let (observation, rest) := ret in
  let w := mk (n w) (ind_flat w)
             (deque_append (n w) (history w) observation) in
  ((_get_obs w, rest), w).

(** The calls made on a wrapper, each with the observation that the
    wrapped environment returned. *)
Inductive call : Type :=
| Reset (obs : list float)
| Step (obs : list float).

Definition run_call (w : t) (c : call) : t :=
  match c with
  | Reset obs => snd (reset obs w)
  | Step obs => snd (step (obs, tt) w)
  end.

(** The observations that a call feeds to the history. *)
Definition feed (n : nat) (c : call) : list (list float) :=
  match c with
  | Reset obs => repeat obs n
  | Step obs => [obs]
  end.

End MultiObs.

(** The last [n] entries of a list. *)
Definition lastn {A} (n : nat) (l : list A) : list A :=
  skipn (List.length l - n) l.

Module Normalize.

Definition fsub (x y : float) : float := SFsub 53 1024 x y.

Definition fdiv (x y : float) : float := SFdiv 53 1024 x y.

Definition float_zero : float := S754_zero false.

(** [x == y] *)
Definition float_eqb (x y : float) : bool :=
  match float_cmp x y with
  | Some Eq => true
  | _ => false
  end.

(** [x > y] *)
Definition float_gt (x y : float) : bool := float_lt y x.

(** [min(a, b)] and [max(a, b)]: the first argument unless the second is
    strictly smaller (greater). *)
Definition py_min (a b : float) : float := if float_lt b a then b else a.

Definition py_max (a b : float) : float := if float_gt b a then b else a.

Definition isnan (x : float) : bool :=
  match x with
  | S754_nan => true
  | _ => false
  end.

(** The body of the loop of [observation] for one entry [x] and its range
    [(lo, hi)]. *)
Definition normalize (r : float * float) (x : float) : float :=
  let (lo, hi) := r in
  let x :=
    if float_eqb (fsub hi lo) float_zero
    then py_max lo (py_min x hi)
    else fdiv (fsub x lo) (fsub hi lo) in
  if isnan x then float_zero
  else if float_gt x float_one then float_one
  else if float_lt x float_zero then float_zero
  else x.

(** A run of the loop: it ends, or a variable has no range (KeyError), or
    there are more variables than entries (IndexError). *)
Inductive outcome (A : Type) : Type :=
| Done (a : A)
| KeyError (variable : str)
| OutOfRange (i : nat).

Arguments Done {A} a.
Arguments KeyError {A} variable.
Arguments OutOfRange {A} i.

(** [obs[i] = v] *)
Fixpoint setitem (obs : list float) (i : nat) (v : float) : list float :=
  match obs, i with
  | [], _ => []
  | _ :: r, O => v :: r
  | x :: r, S j => x :: setitem r j v
  end.

(** [for i, variable in enumerate(variables): ...], from index [i] on. *)
Fixpoint loop (ranges : str -> option (float * float))
    (variables : list str) (i : nat) (obs : list float)
  : outcome (list float) :=
  match variables with
  | [] => Done obs
  | variable :: rest =>
      match ranges variable with
      | None => KeyError variable
      | Some r =>
          match nth_error obs i with
          | None => OutOfRange i
          | Some x => loop ranges rest (S i) (setitem obs i (normalize r x))
          end
      end
  end.

(** [observation]: the saved copy of the observation ([unwrapped_observation])
    and the normalized array. *)
Definition observation (ranges : str -> option (float * float))
    (variables : list str) (obs : list float)
  : list float * outcome (list float) :=
  let unwrapped_observation := obs in
  (unwrapped_observation, loop ranges variables 0 obs).

(** [0 <= x <= 1] *)
Definition in_unit (x : float) : bool :=
  float_le float_zero x && float_le x float_one.

End Normalize.

(** Ranges for two variables, in the manner of [RANGES_5ZONE]. *)
Definition example_ranges (variable : str) : option (float * float) :=
  if str_eqb variable (lit "Zone Air Temperature (SPACE1-1)")
  then Some (lit_float "10.0", lit_float "30.0")
  else if str_eqb variable (lit "Zone Air Relative Humidity (SPACE1-1)")
  then Some (lit_float "0.0", lit_float "100.0")
  else None.

Definition example_variables : list str :=
  [lit "Zone Air Temperature (SPACE1-1)";
   lit "Zone Air Relative Humidity (SPACE1-1)"].

(** An observation: the two variables, then day, month and hour. *)
Definition example_observation : list float :=
  [lit_float "20.0"; lit_float "120.0"; lit_float "14.0"; lit_float "7.0";
   lit_float "9.0"].

(** ** The observation vector of [EplusEnv] *)

Module PyDict.

(** A [dict] with string keys: the items in insertion order. *)
Definition dict (V : Type) : Type := list (str * V).

(** [d[k] = v]: the value of an existing key is replaced in place, a new
    key goes to the end. *)
Fixpoint setitem {V} (d : dict V) (k : str) (v : V) : dict V :=
  match d with
  | [] => [(k, v)]
  | (k', v') :: r =>
      if str_eqb k' k then (k', v) :: r else (k', v') :: setitem r k v
  end.

(** [dict(pairs)] *)
Definition of_pairs {V} (pairs : list (str * V)) : dict V :=
  fold_left (fun d kv => setitem d (fst kv) (snd kv)) pairs [].

(** [list(d.values())] *)
Definition values {V} (d : dict V) : list V := map snd d.

End PyDict.

(** The array that [EplusEnv.step] and [EplusEnv.reset] return as the
    observation, from the variable names, the values that the simulator
    gave and the day, month and hour of [get_current_time_info]. *)
Definition env_observation (variables : list str) (obs : list float)
    (day month hour : float) : list float :=
  let obs_dict := PyDict.of_pairs (combine variables obs) in
  let obs_dict := PyDict.setitem obs_dict (lit "day") day in
  let obs_dict := PyDict.setitem obs_dict (lit "month") month in
  let obs_dict := PyDict.setitem obs_dict (lit "hour") hour in
  PyDict.values obs_dict.

(** [l[:-3]] *)
Definition drop_last3 {A} (l : list A) : list A :=
  firstn (List.length l - 3) l.

(** [ESRCH]: no such process. *)
Definition ESRCH : Z := 3.



(** The episode of [active_sys] when its process has died and been reaped:
    the [killpg] of teardown, the call of rank 16, finds no process. *)
Definition dead_process_sys : Sys :=
  mkSys active_object
    (faulty ["2 0 1 0 0 1800.0 20.5 "%string] 11 16 (OSError ESRCH)) [].

(** The numbers that reach ['%d'] in this program: floats, and ints of
    at most 4300 decimal digits, which every CPython version converts to a
    string (later versions refuse longer ones). *)
Definition plain_num (v : pynum) : bool :=
  match v with
  | PyInt z => ndigits (Z.abs z) <=? 4300
  | PyFloat _ => true
  end.

(** The error of ['%d' % v] for a float that has no integer part. *)
Definition fmt_d_error (v : pynum) : option exn :=
  match v with
  | PyFloat S754_nan => Some ValueError
  | PyFloat (S754_infinity _) => Some OverflowError
  | _ => None
  end.

(** The error of the first field of [l] that has one. *)
Fixpoint first_error (l : list pynum) : option exn :=
  match l with
  | [] => None
  | v :: r =>
      match fmt_d_error v with
      | Some e => Some e
      | None => first_error r
      end
  end.

(** * Properties *)

(** ** The monad *)

Lemma bind_ok {A B} (c : M A) (k : A -> M B) s b s' :
  bind c k s = (Ok b, s') ->
  exists a s1, c s = (Ok a, s1) /\ k a s1 = (Ok b, s').
Proof.
  unfold bind. destruct (c s) as [[a | e] s1]; intros H.
  - exists a, s1. split; [reflexivity | exact H].
  - discriminate H.
Qed.

Lemma bind_run {A B} (c : M A) (k : A -> M B) s a s1 :
  c s = (Ok a, s1) -> bind c k s = k a s1.
Proof. unfold bind. intros ->. reflexivity. Qed.

Lemma bind_raise {A B} (c : M A) (k : A -> M B) s e s1 :
  c s = (Raise e, s1) -> bind c k s = (Raise e, s1).
Proof. unfold bind. intros ->. reflexivity. Qed.

Lemma attr_ok {A} (f : EnergyPlus -> option A) s a s' :
  attr f s = (Ok a, s') -> f (self s) = Some a /\ s' = s.
Proof.
  unfold attr. destruct (f (self s)); intros H; inversion H; subst; auto.
Qed.

Lemma attr_run {A} (f : EnergyPlus -> option A) s a :
  f (self s) = Some a -> attr f s = (Ok a, s).
Proof. unfold attr. intros ->. reflexivity. Qed.

Lemma syscall_ok {A} (run : World -> A * World) (ev : A -> event) s a s' :
  syscall run ev s = (Ok a, s') ->
  faults (world s) (ticks (world s)) = None /\
  let r := run (mkWorld (inbox (world s)) (faults (world s))
                  (S (ticks (world s)))) in
  a = fst r /\ s' = mkSys (self s) (snd r) (trace s ++ [ev a]).
Proof.
  unfold syscall. destruct (faults (world s) (ticks (world s))).
  - discriminate.
  - destruct (run _) as [a' w2]. simpl. intros H. inversion H; subst. auto.
Qed.

Lemma effect_ok ev s u s' :
  effect ev s = (Ok u, s') ->
  faults (world s) (ticks (world s)) = None /\
  s' = mkSys (self s)
         (mkWorld (inbox (world s)) (faults (world s)) (S (ticks (world s))))
         (trace s ++ [ev]).
Proof.
  unfold effect. intros H. apply syscall_ok in H. simpl in H. tauto.
Qed.

Lemma effect_run ev s :
  faults (world s) (ticks (world s)) = None ->
  effect ev s =
  (Ok tt, mkSys (self s)
            (mkWorld (inbox (world s)) (faults (world s)) (S (ticks (world s))))
            (trace s ++ [ev])).
Proof. unfold effect, syscall. intros ->. reflexivity. Qed.

Lemma effect_fault ev s e :
  faults (world s) (ticks (world s)) = Some e ->
  effect ev s =
  (Raise e, mkSys (self s)
              (mkWorld (inbox (world s)) (faults (world s))
                 (S (ticks (world s))))
              (trace s)).
Proof. unfold effect, syscall. intros ->. reflexivity. Qed.

Lemma recv_run c s :
  faults (world s) (ticks (world s)) = None ->
  recv c s =
  (Ok (next_recv (world s)),
   mkSys (self s)
     (mkWorld (tl (inbox (world s))) (faults (world s)) (S (ticks (world s))))
     (trace s ++ [EvRecv c (next_recv (world s))])).
Proof.
  unfold recv, syscall, next_recv. intros ->. simpl.
  destruct (inbox (world s)); reflexivity.
Qed.

Lemma recv_fault c s e :
  faults (world s) (ticks (world s)) = Some e ->
  recv c s =
  (Raise e, mkSys (self s)
              (mkWorld (inbox (world s)) (faults (world s))
                 (S (ticks (world s))))
              (trace s)).
Proof. unfold recv, syscall. intros ->. reflexivity. Qed.

Lemma recv_ok c s d s' :
  recv c s = (Ok d, s') ->
  faults (world s) (ticks (world s)) = None /\
  d = next_recv (world s) /\
  s' = mkSys (self s)
         (mkWorld (tl (inbox (world s))) (faults (world s))
            (S (ticks (world s))))
         (trace s ++ [EvRecv c (next_recv (world s))]).
Proof.
  intros H. destruct (faults (world s) (ticks (world s))) eqn:F.
  - rewrite (recv_fault _ _ _ F) in H. discriminate.
  - rewrite (recv_run _ _ F) in H. inversion H; subst. auto.
Qed.

Lemma no_faults_S w n :
  no_faults w (S n) ->
  faults w (ticks w) = None /\
  forall i, no_faults (mkWorld i (faults w) (S (ticks w))) n.
Proof.
  intros H. split.
  - rewrite <- (Nat.add_0_r (ticks w)). apply H. lia.
  - intros i j Hj. simpl. rewrite <- Nat.add_succ_r. apply H. lia.
Qed.

Lemma bind_inv {A B} (c : M A) (k : A -> M B) s r s' :
  bind c k s = (r, s') ->
  (exists a s1, c s = (Ok a, s1) /\ k a s1 = (r, s')) \/
  (exists e, c s = (Raise e, s') /\ r = Raise e).
Proof.
  unfold bind. destruct (c s) as [[a | e] s1]; intros H.
  - left. eauto.
  - right. inversion H; subst. eauto.
Qed.

Lemma attr_inv {A} (f : EnergyPlus -> option A) s r s' :
  attr f s = (r, s') ->
  s' = s /\
  ((exists a, f (self s) = Some a /\ r = Ok a) \/
   (f (self s) = None /\ r = Raise AttributeError)).
Proof.
  unfold attr. destruct (f (self s)); intros H; inversion H; subst; eauto.
Qed.

Lemma effect_inv ev s r s' :
  effect ev s = (r, s') ->
  (faults (world s) (ticks (world s)) = None /\ r = Ok tt /\
   s' = mkSys (self s)
          (mkWorld (inbox (world s)) (faults (world s)) (S (ticks (world s))))
          (trace s ++ [ev])) \/
  (exists e, faults (world s) (ticks (world s)) = Some e /\ r = Raise e /\
   s' = mkSys (self s)
          (mkWorld (inbox (world s)) (faults (world s)) (S (ticks (world s))))
          (trace s)).
Proof.
  destruct (faults (world s) (ticks (world s))) eqn:F; intros H.
  - rewrite (effect_fault _ _ _ F) in H. inversion H; subst. right. eauto.
  - rewrite (effect_run _ _ F) in H. inversion H; subst. left. auto.
Qed.

Lemma recv_inv c s r s' :
  recv c s = (r, s') ->
  (faults (world s) (ticks (world s)) = None /\
   r = Ok (next_recv (world s)) /\
   s' = mkSys (self s)
          (mkWorld (tl (inbox (world s))) (faults (world s))
             (S (ticks (world s))))
          (trace s ++ [EvRecv c (next_recv (world s))])) \/
  (exists e, faults (world s) (ticks (world s)) = Some e /\ r = Raise e /\
   s' = mkSys (self s)
          (mkWorld (inbox (world s)) (faults (world s)) (S (ticks (world s))))
          (trace s)).
Proof.
  destruct (faults (world s) (ticks (world s))) eqn:F; intros H.
  - rewrite (recv_fault _ _ _ F) in H. inversion H; subst. right. eauto.
  - rewrite (recv_run _ _ F) in H. inversion H; subst. left. auto.
Qed.

(** ** Encoding *)

Lemma rbind_ok {A B} (c : result A) (k : A -> result B) b :
  rbind c k = Ok b -> exists a, c = Ok a /\ k a = Ok b.
Proof. destruct c; simpl; intros H; [eauto | discriminate]. Qed.

Lemma getitem_app {A} (l1 l2 : list A) x :
  getitem (l1 ++ x :: l2) (List.length l1) = Ok x.
Proof.
  unfold getitem. rewrite nth_error_app2 by lia.
  rewrite Nat.sub_diag. reflexivity.
Qed.

Lemma encode_loop (l1 l2 : list float) (ret : str) :
  for_each (seq (List.length l1) (List.length l2))
    (fun i ret =>
       x <~ getitem (l1 ++ l2) i ;;
       let ret := ret ++ fmt_e15 x in Ok (ret ++ [SP]))
    ret
  = Ok (ret ++ encode_values l2).
Proof.
  revert l1 ret. induction l2 as [| x l2 IH]; intros l1 ret.
  - simpl. rewrite app_nil_r. reflexivity.
  - cbn [List.length seq for_each]. rewrite getitem_app.
    cbn [rbind].
    replace (l1 ++ x :: l2) with ((l1 ++ [x]) ++ l2)
      by (rewrite <- app_assoc; reflexivity).
    replace (S (List.length l1)) with (List.length (l1 ++ [x]))
      by (rewrite length_app; simpl; lia).
    rewrite IH. unfold encode_values. simpl.
    repeat rewrite <- app_assoc. reflexivity.
Qed.

(** [_assembleMsg] formats the five header numbers, and fails only when
    one of them cannot be formatted. *)
Lemma assemble_eq version flag nDb nIn nBl t l :
  _assembleMsg version flag nDb nIn nBl t l =
  (v <~ fmt_d version ;; f <~ fmt_d flag ;; d <~ fmt_d nDb ;;
   i <~ fmt_d nIn ;; b <~ fmt_d nBl ;;
   Ok (message_line v f d i b t l)).
Proof.
  unfold _assembleMsg, range.
  destruct (fmt_d version) as [v |]; [| reflexivity].
  destruct (fmt_d flag) as [f |]; [| reflexivity].
  destruct (fmt_d nDb) as [d |]; [| reflexivity].
  destruct (fmt_d nIn) as [i |]; [| reflexivity].
  destruct (fmt_d nBl) as [b |]; [| reflexivity].
  cbn [rbind]. rewrite Nat.sub_0_r.
  rewrite (encode_loop [] l). cbn [rbind].
  unfold message_line. repeat rewrite <- app_assoc. reflexivity.
Qed.

Lemma fmt_d_one : fmt_d (PyFloat float_one) = fmt_d (PyInt 1).
Proof. reflexivity. Qed.

(** The terminate message of teardown always exists, and its flag field
    reads [1]. *)
Lemma terminate_message v t l :
  _assembleMsg (PyInt v) (PyFloat float_one) (PyInt (len l)) (PyInt 0)
    (PyInt 0) t l
  = Ok (message_line (fmt_d_int v) (fmt_d_int 1) (fmt_d_int (len l))
          (fmt_d_int 0) (fmt_d_int 0) t l).
Proof. rewrite assemble_eq, fmt_d_one. reflexivity. Qed.

Lemma step_message v t l :
  _assembleMsg (PyInt v) (PyInt 0) (PyInt (len l)) (PyInt 0) (PyInt 0) t l
  = Ok (message_line (fmt_d_int v) (fmt_d_int 0) (fmt_d_int (len l))
          (fmt_d_int 0) (fmt_d_int 0) t l).
Proof. rewrite assemble_eq. reflexivity. Qed.

(** ** Teardown *)

Local Opaque _assembleMsg.

Ltac sys_simpl := cbn [self world trace inbox faults ticks
  _episode_existed _epi_num _act_repeat _last_action _eplus_msg_header
  _curSimTim _conn _eplus_process _eplus_one_epi_len
  set_episode_existed set_epi_num set_last_action set_eplus_msg_header
  set_curSimTim set_conn set_eplus_process fst snd].

Ltac run_attr :=
  erewrite bind_run by (apply attr_run; sys_simpl; eassumption).

Ltac run_effect :=
  erewrite bind_run by (apply effect_run; sys_simpl; assumption).

Ltac sys_simpl_in H := cbn [self world trace inbox faults ticks
  _episode_existed _epi_num _act_repeat _last_action _eplus_msg_header
  _curSimTim _conn _eplus_process _eplus_one_epi_len
  set_episode_existed set_epi_num set_last_action set_eplus_msg_header
  set_curSimTim set_conn set_eplus_process fst snd] in H.

(** The complete run of teardown, when every attribute it reads is set and
    nothing fails. *)
Lemma end_episode_run s h cur c p :
  _eplus_msg_header (self s) = Some h ->
  _curSimTim (self s) = Some cur ->
  _conn (self s) = Some c ->
  _eplus_process (self s) = Some p ->
  no_faults (world s) 6 ->
  _end_episode s =
  (Ok tt,
   mkSys (set_episode_existed false (set_conn None (self s)))
     (after_calls 6 (world s))
     (trace s ++ teardown_events c p (terminate_line (self s) (fst h) cur)
                   (next_recv (world s)))).
Proof.
  intros Hh Hcur Hc Hp NF.
  unfold _end_episode, send, close, sleep, killpg.
  run_attr. unfold get at 1. unfold bind at 1. sys_simpl.
  run_attr. unfold lift at 1. unfold bind at 1. rewrite terminate_message.
  pose proof (no_faults_S _ _ NF) as [F0 NF1].
  run_attr. run_effect.
  specialize (NF1 (inbox (world s))).
  pose proof (no_faults_S _ _ NF1) as [F1 NF2]. sys_simpl_in F1.
  run_attr. erewrite bind_run by (apply recv_run; sys_simpl; assumption).
  sys_simpl.
  specialize (NF2 (tl (inbox (world s)))).
  pose proof (no_faults_S _ _ NF2) as [F2 NF3]. sys_simpl_in F2.
  run_attr. run_effect. sys_simpl.
  specialize (NF3 (tl (inbox (world s)))).
  pose proof (no_faults_S _ _ NF3) as [F3 NF4]. sys_simpl_in F3.
  run_attr. run_effect. sys_simpl.
  unfold modify at 1. unfold bind at 1. sys_simpl.
  specialize (NF4 (tl (inbox (world s)))).
  pose proof (no_faults_S _ _ NF4) as [F4 NF5]. sys_simpl_in F4.
  run_effect. sys_simpl.
  specialize (NF5 (tl (inbox (world s)))).
  pose proof (no_faults_S _ _ NF5) as [F5 _]. sys_simpl_in F5.
  run_attr. run_effect. sys_simpl.
  unfold modify. unfold after_calls, teardown_events, terminate_line. sys_simpl.
  repeat rewrite <- app_assoc. reflexivity.
Qed.

Ltac inv_attr H1 :=
  let E := fresh "E" in
  apply attr_inv in H1;
  destruct H1 as [-> [(? & H1 & E) | [H1 E]]];
  inversion E; subst; clear E; sys_simpl_in H1.

Ltac inv_effect H1 :=
  let E := fresh "E" in
  apply effect_inv in H1;
  destruct H1 as [(H1 & E & ->) | (? & H1 & E & ->)];
  inversion E; subst; clear E; sys_simpl_in H1.

Ltac inv_recv H1 :=
  let E := fresh "E" in
  apply recv_inv in H1;
  destruct H1 as [(H1 & E & ->) | (? & H1 & E & ->)];
  inversion E; subst; clear E; sys_simpl_in H1.

Ltac inv_prim H1 :=
  lazymatch type of H1 with
  | attr _ _ = _ => inv_attr H1
  | effect _ _ = _ => inv_effect H1
  | send _ _ _ = _ => unfold send in H1; inv_effect H1
  | close _ _ = _ => unfold close in H1; inv_effect H1
  | sleep _ _ = _ => unfold sleep in H1; inv_effect H1
  | killpg _ _ _ = _ => unfold killpg in H1; inv_effect H1
  | setup _ _ = _ => unfold setup in H1; inv_effect H1
  | recv _ _ = _ => inv_recv H1
  | get _ _ = _ => unfold get in H1; inversion H1; subst; clear H1
  | modify _ _ = _ => unfold modify in H1; inversion H1; subst; clear H1
  | ret _ _ = _ => unfold ret in H1; inversion H1; subst; clear H1
  | lift _ _ = _ =>
      unfold lift in H1; try rewrite terminate_message in H1;
      try rewrite step_message in H1; inversion H1; subst; clear H1
  end.

Ltac raised :=
  right; eexists; split; [reflexivity |];
  sys_simpl; split; [reflexivity |];
  repeat rewrite <- app_assoc;
  first
    [ exists []; split; [symmetry; apply app_nil_r | simpl; lia]
    | eexists; split; [reflexivity | simpl; lia] ].

Ltac inv_step H :=
  let B := fresh "B" in
  apply bind_inv in H;
  destruct H as [(? & ? & B & H) | (? & B & ->)];
  inv_prim B; try sys_simpl_in H; try solve [raised].

Lemma end_episode_outcome s r s' :
  _end_episode s = (r, s') ->
  (r = Ok tt /\ exists h cur c p,
     _eplus_msg_header (self s) = Some h /\
     _curSimTim (self s) = Some cur /\
     _conn (self s) = Some c /\
     _eplus_process (self s) = Some p /\
     no_faults (world s) 6 /\
     s' = mkSys (set_episode_existed false (set_conn None (self s)))
            (after_calls 6 (world s))
            (trace s ++ teardown_events c p (terminate_line (self s) (fst h) cur)
                          (next_recv (world s)))) \/
  (exists e, r = Raise e /\
     _episode_existed (self s') = _episode_existed (self s) /\
     exists tr, trace s' = trace s ++ tr /\ (List.length tr < 6)%nat).
Proof.
  intros H. pose proof H as H0. unfold _end_episode in H.
  do 16 inv_step H.
  unfold modify in H. inversion H; subst; clear H.
  assert (NF : no_faults (world x3) 6).
  { intros i Hi.
    do 6 (destruct i as [| i];
          [rewrite Nat.add_comm; simpl; assumption |]).
    lia. }
  left. split; [reflexivity |].
  rewrite (end_episode_run _ _ _ _ _ B B0 B1 B10 NF) in H0.
  exists x0, x2, x1, x7. inversion H0; subst. auto 10.
Qed.

Lemma end_episode_no_conn s :
  _conn (self s) = None -> _end_episode s = (Raise AttributeError, s).
Proof.
  intros Hc. unfold _end_episode, bind, attr, get, lift. sys_simpl.
  destruct (_eplus_msg_header (self s)); [| reflexivity].
  destruct (_curSimTim (self s)); [| reflexivity].
  rewrite terminate_message. rewrite Hc. reflexivity.
Qed.

(** ** Claims about teardown *)

(** C6. Teardown, when the attributes it reads are set and no call fails,
    does exactly this, in order: it sends the message with flag 1, the last
    applied action and the time cursor; reads one reply; sends the same
    message again; closes the connection; sleeps one second; and signals
    SIGTERM to the process group. *)
Theorem teardown_sequence s h cur c p :
  _eplus_msg_header (self s) = Some h ->
  _curSimTim (self s) = Some cur ->
  _conn (self s) = Some c ->
  _eplus_process (self s) = Some p ->
  no_faults (world s) 6 ->
  exists tosend s',
    _assembleMsg (PyInt (fst h)) (PyInt 1)
      (PyInt (len (_last_action (self s)))) (PyInt 0) (PyInt 0) cur
      (_last_action (self s)) = Ok tosend /\
    _end_episode s = (Ok tt, s') /\
    trace s' =
    trace s ++
    [EvSend c tosend; EvRecv c (next_recv (world s)); EvSend c tosend;
     EvClose c; EvSleep 1; EvKillpg p SIGTERM].
Proof.
  intros Hh Hcur Hc Hp NF.
  exists (terminate_line (self s) (fst h) cur). eexists.
  split; [| split].
  - rewrite assemble_eq. reflexivity.
  - apply (end_episode_run s h cur c p); assumption.
  - reflexivity.
Qed.

Lemma teardown_sequence_witness :
  exists tosend s',
    _assembleMsg (PyInt 2) (PyInt 1) (PyInt 2) (PyInt 0) (PyInt 0)
      (lit_float "900.0") [lit_float "21.0"; lit_float "25.0"] = Ok tosend /\
    _end_episode active_sys = (Ok tt, s') /\
    trace s' =
    [EvSend 10%nat tosend; EvRecv 10%nat (lit "2 0 1 0 0 1800.0 20.5 ");
     EvSend 10%nat tosend; EvClose 10%nat; EvSleep 1; EvKillpg 6%nat SIGTERM].
Proof.
  apply (teardown_sequence active_sys (2, 0) (lit_float "900.0") 10%nat 6%nat);
    try reflexivity.
  intros i Hi. reflexivity.
Defined.

Ltac raised_with_conn :=
  right; do 2 eexists; split; [reflexivity |];
  sys_simpl; repeat rewrite <- app_assoc;
  first
    [ split; [rewrite app_nil_r; reflexivity |]
    | split; [reflexivity |] ];
  cbn [List.length app Nat.leb]; repeat split; try reflexivity; lia.

Ltac inv_step_conn H :=
  let B := fresh "B" in
  apply bind_inv in H;
  destruct H as [(? & ? & B & H) | (? & B & ->)];
  inv_prim B; try sys_simpl_in H; try solve [raised_with_conn].

(** A teardown that raises: what it has done by then, and what it has
    changed.  The connection attribute is the only one it may have
    changed, and it has changed it once the connection has been closed,
    which is after the fourth action. *)
Lemma end_episode_failure s r s' :
  _end_episode s = (r, s') ->
  r = Ok tt \/
  exists e tr,
    r = Raise e /\
    trace s' = trace s ++ tr /\
    (List.length tr < 6)%nat /\
    self s' = (if (4 <=? List.length tr)%nat
               then set_conn None (self s) else self s).
Proof.
  intros H. unfold _end_episode in H.
  do 16 inv_step_conn H.
  left. unfold modify in H. inversion H; reflexivity.
Qed.

(** C7, as the code has it. Teardown has no error handling.  It clears the
    episode flag only when every one of its steps succeeds; the failure of
    any step is raised to the caller and leaves the flag as it was.  The
    connection attribute is set to [None] as soon as the connection has
    been closed, so a failure of the sleep or of the kill that follow
    leaves the flag set and no connection; an earlier failure leaves the
    connection attribute as it was. *)
Theorem teardown_propagates s :
  (fst (_end_episode s) = Ok tt /\
   no_faults (world s) 6 /\
   _episode_existed (self (snd (_end_episode s))) = false /\
   _conn (self (snd (_end_episode s))) = None) \/
  (exists e tr,
     fst (_end_episode s) = Raise e /\
     trace (snd (_end_episode s)) = trace s ++ tr /\
     (List.length tr < 6)%nat /\
     _episode_existed (self (snd (_end_episode s)))
     = _episode_existed (self s) /\
     _conn (self (snd (_end_episode s)))
     = (if (4 <=? List.length tr)%nat then None else _conn (self s))).
Proof.
  destruct (_end_episode s) as [r s'] eqn:E. cbn [fst snd].
  pose proof (end_episode_outcome _ _ _ E) as Hout.
  apply end_episode_failure in E.
  destruct E as [-> | (e & tr & -> & Htr & Hlen & Hself)].
  - destruct Hout as [[_ (h & cur & c & p & _ & _ & _ & _ & NF & ->)]
                     | (e & [=] & _)].
    left. sys_simpl. auto.
  - right. exists e, tr. split; [reflexivity |]. split; [exact Htr |].
    split; [exact Hlen |]. rewrite Hself.
    destruct (4 <=? List.length tr)%nat; split; reflexivity.
Qed.

(** C7, as stated, fails: with a broken pipe on the first send, teardown
    raises and the episode flag stays set, with the connection still in
    place; and when the kill fails, teardown raises with the flag still
    set and the connection gone. *)
Lemma teardown_raises :
  (fst (_end_episode broken_pipe_sys) = Raise (OSError 32) /\
   _episode_existed (self (snd (_end_episode broken_pipe_sys))) = true /\
   _conn (self (snd (_end_episode broken_pipe_sys))) = Some 10%nat) /\
  (fst (_end_episode dead_process_sys) = Raise (OSError ESRCH) /\
   _episode_existed (self (snd (_end_episode dead_process_sys))) = true /\
   _conn (self (snd (_end_episode dead_process_sys))) = None).
Proof. repeat split; reflexivity. Qed.




(** ** Claims about [reset] and [step] *)

Lemma fresh_inv (ev : nat -> event) s r s' :
  syscall (fun w => (ticks w, w)) ev s = (r, s') ->
  (faults (world s) (ticks (world s)) = None /\
   r = Ok (S (ticks (world s))) /\
   s' = mkSys (self s)
          (mkWorld (inbox (world s)) (faults (world s)) (S (ticks (world s))))
          (trace s ++ [ev (S (ticks (world s)))])) \/
  (exists e, faults (world s) (ticks (world s)) = Some e /\ r = Raise e /\
   s' = mkSys (self s)
          (mkWorld (inbox (world s)) (faults (world s)) (S (ticks (world s))))
          (trace s)).
Proof.
  unfold syscall. destruct (faults (world s) (ticks (world s))); simpl;
    intros H; inversion H; subst; [right | left]; eauto.
Qed.

Ltac inv_fresh H1 :=
  let E := fresh "E" in
  apply fresh_inv in H1;
  destruct H1 as [(H1 & E & ->) | (? & H1 & E & ->)];
  inversion E; subst; clear E; sys_simpl_in H1.

Ltac ok_step H :=
  let B := fresh "B" in
  apply bind_ok in H;
  destruct H as (? & ? & B & H);
  lazymatch type of B with
  | _create_eplus _ = _ => unfold _create_eplus in B; inv_fresh B
  | accept _ = _ => unfold accept in B; inv_fresh B
  | _ => inv_prim B
  end;
  try sys_simpl_in H.

Section DriverProperties.

Context {TimeInfo : Type} (time_info : float -> TimeInfo).

(** C4. Once the time cursor has reached the episode length, [step]
    returns [None], raises nothing, and leaves the object, the peer and the
    trace untouched: nothing is sent. *)
Theorem step_after_end action s cur :
  _curSimTim (self s) = Some cur ->
  float_ge cur (_eplus_one_epi_len (self s)) = true ->
  step time_info action s = (Ok None, s).
Proof.
  intros Hcur Hge. unfold step.
  erewrite bind_run by (apply attr_run; eassumption).
  unfold get at 1. unfold bind at 1. rewrite Hge. reflexivity.
Qed.



End DriverProperties.



(** ** The loop of [step] *)

Lemma set_last_action_twice a o :
  set_last_action a (set_last_action a o) = set_last_action a o.
Proof. reflexivity. Qed.

Lemma last_cons {A} (x d : A) (l : list A) : last (x :: l) d = last l x.
Proof.
  revert x d. induction l as [| y l IH]; intros x d; [reflexivity |].
  change (last (x :: y :: l) d) with (last (y :: l) d).
  rewrite IH. symmetry. apply IH.
Qed.

Lemma len_cons {A} (x : A) (l : list A) : len (x :: l) = 1 + len l.
Proof. unfold len. cbn [List.length]. lia. Qed.

Section StepProperties.

Context {TimeInfo : Type} (time_info : float -> TimeInfo).

Lemma step_body_ok action l s l' s' :
  step_body action l s = (Ok l', s') ->
  exists v f c r,
    _eplus_msg_header (self s) = Some (v, f) /\
    _conn (self s) = Some c /\
    _assembleMsg (PyInt v) (PyInt 0) (PyInt (len action)) (PyInt 0)
      (PyInt 0) (curSimTim l) action = Ok (r_sent r) /\
    _disassembleMsg (r_rcv r) = Ok (r_msg r) /\
    trace s' = trace s ++ round_events c r /\
    (self s' = self s \/ self s' = set_last_action action (self s)) /\
    l' = mkLocals (act_repeat_i l + 1)
           (if float_ge (m_curSimTim (r_msg r)) (_eplus_one_epi_len (self s))
            then true else is_terminal l)
           (m_curSimTim (r_msg r)) (Some (m_Dblist (r_msg r))).
Proof.
  intros H. unfold step_body in H.
  do 8 ok_step H.
  rewrite B0 in B2. inversion B2; subst; clear B2.
  apply bind_ok in H. destruct H as ([] & s2 & Hif & H).
  unfold ret in H. inversion H; subst; clear H.
  destruct x0 as [v f].
  cbn [fst] in Hif.
  set (hs := next_recv _) in *.
  exists v, f, x3, (mkRound (step_line v (curSimTim l) action) hs x).
  unfold step_line. cbn [r_sent r_rcv r_msg].
  split; [assumption |]. split; [assumption |].
  split; [apply step_message |]. split; [eassumption |].
  destruct (float_ge (m_curSimTim x) (_eplus_one_epi_len (self x1)));
    [unfold modify in Hif | unfold ret in Hif];
    inversion Hif; subst; clear Hif; sys_simpl;
    (split; [rewrite <- app_assoc; reflexivity |]); auto.
Qed.

Lemma step_cond_run l s :
  step_cond l s =
  (Ok ((act_repeat_i l <? _act_repeat (self s)) && negb (is_terminal l)), s).
Proof. reflexivity. Qed.

(** The loop of [step], run from local variables [l]: it performs rounds
    [rs], each of them started with the counter below the repeat count and
    the terminal flag unset, and stops on the loop condition, not on its
    fuel. *)
Lemma step_loop_ok action fuel :
  forall l s l' s',
    while_ fuel step_cond (step_body action) l s = (Ok l', s') ->
    exists rs,
      act_repeat_i l' = act_repeat_i l + len rs /\
      (_act_repeat (self s) - act_repeat_i l <= Z.of_nat fuel ->
       is_terminal l' = true \/ _act_repeat (self s) <= act_repeat_i l') /\
      match rs with
      | [] => l' = l /\ s' = s
      | r :: rest =>
          is_terminal l = false /\
          act_repeat_i l + len rs <= _act_repeat (self s) /\
          exists v f c,
            _eplus_msg_header (self s) = Some (v, f) /\
            _conn (self s) = Some c /\
            rounds_from v action (_eplus_one_epi_len (self s)) (curSimTim l)
              rs /\
            trace s' = trace s ++ flat_map (round_events c) rs /\
            (self s' = self s \/ self s' = set_last_action action (self s)) /\
            curSimTim l' = m_curSimTim (r_msg (last rest r)) /\
            Dblist l' = Some (m_Dblist (r_msg (last rest r))) /\
            is_terminal l' =
            float_ge (m_curSimTim (r_msg (last rest r)))
              (_eplus_one_epi_len (self s))
      end.
Proof.
  induction fuel as [| fuel IH]; intros l s l' s' H.
  - cbn [while_] in H. unfold ret in H. inversion H; subst; clear H.
    exists []. unfold len. simpl. split; [lia |]. split; [| auto].
    intros Hf. right. lia.
  - cbn [while_] in H.
    unfold bind at 1 in H. rewrite step_cond_run in H.
    destruct (act_repeat_i l <? _act_repeat (self s)) eqn:Hi;
      [destruct (is_terminal l) eqn:Ht |]; cbn [andb negb] in H.
    + unfold ret in H. inversion H; subst; clear H.
      exists []. unfold len. simpl. split; [lia |]. split; [| auto].
      intros _. left. assumption.
    + apply bind_ok in H. destruct H as (l1 & s1 & Hb & H).
      apply step_body_ok in Hb.
      destruct Hb as (v & f & c & r & Hh & Hc & Hsent & Hrcv & Htr & Hself & ->).
      apply IH in H. destruct H as (rs & Hcount & Hexit & Hrs).
      assert (Hattr :
        _eplus_msg_header (self s1) = _eplus_msg_header (self s) /\
        _conn (self s1) = _conn (self s) /\
        _eplus_one_epi_len (self s1) = _eplus_one_epi_len (self s) /\
        _act_repeat (self s1) = _act_repeat (self s))
        by (destruct Hself as [-> | ->]; auto).
      destruct Hattr as (E1 & E2 & E3 & E4).
      rewrite E1, E2, E3, E4 in *.
      cbn [act_repeat_i is_terminal curSimTim Dblist] in *.
      apply Z.ltb_lt in Hi.
      exists (r :: rs). rewrite len_cons.
      split; [lia |]. split; [intros Hf; apply Hexit; lia |].
      split; [reflexivity |].
      destruct rs as [| r0 rest].
      * destruct Hrs as [-> ->]. unfold len in *. cbn [List.length] in *.
        split; [lia |].
        exists v, f, c. cbn [rounds_from flat_map last curSimTim Dblist
                             is_terminal].
        rewrite app_nil_r.
        repeat split; try assumption; try discriminate.
        -- intros []. reflexivity.
        -- rewrite Ht. destruct (float_ge _ _); reflexivity.
      * destruct Hrs as (Hterm & Hbound & v' & f' & c' & Hh' & Hc' & Hrounds
                         & Htr' & Hself' & Hcur & Hdb & Hfin).
        rewrite Hh in Hh'. inversion Hh'; subst v' f'; clear Hh'.
        rewrite Hc in Hc'. inversion Hc'; subst c'; clear Hc'.
        rewrite len_cons in *.
        split; [lia |].
        exists v, f, c. rewrite last_cons.
        split; [assumption |]. split; [assumption |].
        split.
        { change (rounds_from v action (_eplus_one_epi_len (self s))
                    (curSimTim l) (r :: r0 :: rest))
            with (_assembleMsg (PyInt v) (PyInt 0) (PyInt (len action))
                    (PyInt 0) (PyInt 0) (curSimTim l) action = Ok (r_sent r) /\
                  _disassembleMsg (r_rcv r) = Ok (r_msg r) /\
                  (r0 :: rest <> [] ->
                   float_ge (m_curSimTim (r_msg r))
                     (_eplus_one_epi_len (self s)) = false) /\
                  rounds_from v action (_eplus_one_epi_len (self s))
                    (m_curSimTim (r_msg r)) (r0 :: rest)).
          split; [assumption |]. split; [assumption |].
          split; [| assumption].
          intros _. rewrite Ht in Hterm.
          destruct (float_ge _ _); [discriminate | reflexivity]. }
        split.
        { rewrite Htr', Htr. rewrite <- app_assoc. reflexivity. }
        split.
        { destruct Hself as [Es | Es], Hself' as [Es' | Es'];
            rewrite Es', Es; auto. }
        auto.
    + unfold ret in H. inversion H; subst; clear H.
      exists []. unfold len. simpl. split; [lia |]. split; [| auto].
      intros _. right. apply Z.ltb_ge in Hi. lia.
Qed.

(** A call of [step] on an episode under way that returns. *)
Lemma step_active_ok action s cur res s' :
  _curSimTim (self s) = Some cur ->
  float_ge cur (_eplus_one_epi_len (self s)) = false ->
  step time_info action s = (Ok res, s') ->
  exists v f c r rest,
    _eplus_msg_header (self s) = Some (v, f) /\
    _conn (self s) = Some c /\
    1 <= len (r :: rest) <= _act_repeat (self s) /\
    rounds_from v action (_eplus_one_epi_len (self s)) cur (r :: rest) /\
    trace s' = trace s ++ flat_map (round_events c) (r :: rest) /\
    (float_ge (m_curSimTim (r_msg (last rest r)))
       (_eplus_one_epi_len (self s)) = true \/
     len (r :: rest) = _act_repeat (self s)) /\
    res = Some (time_info (m_curSimTim (r_msg (last rest r))),
                m_Dblist (r_msg (last rest r)),
                float_ge (m_curSimTim (r_msg (last rest r)))
                  (_eplus_one_epi_len (self s))) /\
    self s' = set_last_action action
                (set_curSimTim (m_curSimTim (r_msg (last rest r))) (self s)).
Proof.
  intros Hcur Hlt H. unfold step in H.
  ok_step H. rewrite Hcur in B. inversion B; subst; clear B.
  ok_step H. rewrite Hlt in H.
  ok_step H.
  apply bind_ok in H. destruct H as (l' & s1 & Hloop & H).
  apply step_loop_ok in Hloop.
  destruct Hloop as (rs & Hcount & Hexit & Hrs).
  cbn [act_repeat_i is_terminal curSimTim Dblist] in *.
  destruct rs as [| r rest].
  - destruct Hrs as [-> ->]. cbn [Dblist] in H.
    unfold bind at 1 in H. unfold raise in H. discriminate H.
  - destruct Hrs as (_ & Hbound & v & f & c & Hh & Hc & Hrounds & Htr
                     & Hself & Hc' & Hdb & Hfin).
    rewrite Hdb in H.
    do 3 ok_step H. unfold ret in H. inversion H; subst; clear H.
    exists v, f, c, r, rest. sys_simpl.
    rewrite Hc', Hfin.
    repeat (split; try assumption).
    + rewrite len_cons. unfold len. lia.
    + destruct Hexit as [Ht | Hr]; [lia | |].
      * left. rewrite <- Hfin. assumption.
      * right. lia.
    + destruct Hself as [-> | ->]; reflexivity.
Qed.

(** C5. A call of [step] on an episode under way that returns has performed
    between 1 and [_act_repeat] exchange rounds; each round sent the action
    with flag 0 and the cursor of the moment and moved the cursor to the
    elapsed time of the answer; only the last answer may have reached the
    episode length, and the rounds stopped short of [_act_repeat] only
    because it did; the call returns the time information and the values
    of the last answer with the terminal flag, and leaves the cursor at the
    last elapsed time. *)
Theorem step_exchange_rounds action s cur res s' :
  _curSimTim (self s) = Some cur ->
  float_ge cur (_eplus_one_epi_len (self s)) = false ->
  step time_info action s = (Ok res, s') ->
  exists v f c r rest,
    _eplus_msg_header (self s) = Some (v, f) /\
    _conn (self s) = Some c /\
    1 <= len (r :: rest) <= _act_repeat (self s) /\
    rounds_from v action (_eplus_one_epi_len (self s)) cur (r :: rest) /\
    trace s' = trace s ++ flat_map (round_events c) (r :: rest) /\
    (float_ge (m_curSimTim (r_msg (last rest r)))
       (_eplus_one_epi_len (self s)) = true \/
     len (r :: rest) = _act_repeat (self s)) /\
    res = Some (time_info (m_curSimTim (r_msg (last rest r))),
                m_Dblist (r_msg (last rest r)),
                float_ge (m_curSimTim (r_msg (last rest r)))
                  (_eplus_one_epi_len (self s))) /\
    _curSimTim (self s') = Some (m_curSimTim (r_msg (last rest r))) /\
    _last_action (self s') = action.
Proof.
  intros Hcur Hlt H.
  destruct (step_active_ok action s cur res s' Hcur Hlt H)
    as (v & f & c & r & rest & Hh & Hc & Hn & Hr & Htr & Hstop & Hres & Hs).
  exists v, f, c, r, rest. rewrite Hs. sys_simpl. auto 12.
Qed.

End StepProperties.

Lemma step_exchange_rounds_witness :
  exists v f c r rest,
    _eplus_msg_header (self after_reset) = Some (v, f) /\
    _conn (self after_reset) = Some c /\
    1 <= len (r :: rest) <= _act_repeat (self after_reset) /\
    rounds_from v [lit_float "21.0"; lit_float "25.0"]
      (_eplus_one_epi_len (self after_reset)) (lit_float "0.0") (r :: rest) /\
    trace (snd (step (fun t => t) [lit_float "21.0"; lit_float "25.0"]
                  after_reset))
    = trace after_reset ++ flat_map (round_events c) (r :: rest) /\
    (float_ge (m_curSimTim (r_msg (last rest r)))
       (_eplus_one_epi_len (self after_reset)) = true \/
     len (r :: rest) = _act_repeat (self after_reset)) /\
    Some (lit_float "1800.0", [lit_float "21.0"; lit_float "22.0"], true)
    = Some (m_curSimTim (r_msg (last rest r)),
            m_Dblist (r_msg (last rest r)),
            float_ge (m_curSimTim (r_msg (last rest r)))
              (_eplus_one_epi_len (self after_reset))) /\
    _curSimTim (self (snd (step (fun t => t)
                             [lit_float "21.0"; lit_float "25.0"]
                             after_reset)))
    = Some (m_curSimTim (r_msg (last rest r))) /\
    _last_action (self (snd (step (fun t => t)
                               [lit_float "21.0"; lit_float "25.0"]
                               after_reset)))
    = [lit_float "21.0"; lit_float "25.0"].
Proof.
  apply (step_exchange_rounds (fun t => t)
           [lit_float "21.0"; lit_float "25.0"] after_reset
           (lit_float "0.0")).
  - reflexivity.
  - reflexivity.
  - vm_compute. reflexivity.
Defined.

(** ** Order of floats *)

Lemma Qcompare_ge_iff (x y : Q) :
  match (x ?= y)%Q with Lt => false | _ => true end = true <->
  (y <= x)%Q.
Proof.
  destruct (x ?= y)%Q eqn:E.
  - apply Qeq_alt in E. split; [intros _; rewrite E; apply Qle_refl | auto].
  - apply Qlt_alt in E. split; [discriminate |].
    intros H. exfalso. apply (Qlt_irrefl x).
    apply Qlt_le_trans with y; assumption.
  - apply Qgt_alt in E. split; [intros _; apply Qlt_le_weak; exact E | auto].
Qed.

Lemma float_le_ext x y : float_le x y = true <-> ext_le (to_ext x) (to_ext y).
Proof.
  unfold float_le, float_ge, float_cmp.
  destruct x as [sx | [|] | | sx mx ex], y as [sy | [|] | | sy my ey];
    cbn [to_ext ext_le]; try (split; [discriminate | tauto]);
    try (split; [intros _; exact I | reflexivity]);
    match goal with
    | |- context [(?a ?= ?b)%Q] =>
        pose proof (Qcompare_ge_iff a b) as Hq;
        destruct (a ?= b)%Q; exact Hq
    end.
Qed.

Lemma ext_le_trans a b c : ext_le a b -> ext_le b c -> ext_le a c.
Proof.
  destruct a, b, c; cbn [ext_le]; try tauto. apply Qle_trans.
Qed.

Lemma float_le_trans x y z :
  float_le x y = true -> float_le y z = true -> float_le x z = true.
Proof.
  rewrite !float_le_ext. apply ext_le_trans.
Qed.

Lemma float_le_refl_of_ge x y : float_ge x y = true -> float_le x x = true.
Proof.
  change (float_ge x y) with (float_le y x). rewrite !float_le_ext.
  destruct (to_ext x), (to_ext y); cbn [ext_le]; try tauto;
    intros _; apply Qle_refl.
Qed.

(** [p] is below [l] as soon as it is not at or above it and both are
    comparable to something. *)
Lemma float_lt_of_not_ge p c l :
  float_ge p l = false -> float_le p c = true -> float_ge c l = true ->
  float_lt p l = true.
Proof.
  unfold float_le, float_ge, float_lt.
  destruct (float_cmp p l) as [[| |] |] eqn:E; try discriminate; auto.
  intros _.
  unfold float_cmp in *.
  destruct p as [sp | [|] | | sp mp ep]; try discriminate;
    destruct l as [sl | [|] | | sl ml el]; try discriminate;
    destruct c as [sc | [|] | | sc mc ec]; discriminate.
Qed.

(** ** Sequences of [step] calls *)

Lemma recv_times_app a b : recv_times (a ++ b) = recv_times a ++ recv_times b.
Proof. unfold recv_times. apply flat_map_app. Qed.

Lemma recv_times_rounds v action L c rs :
  forall cur,
    rounds_from v action L cur rs ->
    recv_times (flat_map (round_events c) rs) = map round_time rs.
Proof.
  induction rs as [| r rest IH]; intros cur H; [reflexivity |].
  cbn [rounds_from] in H. destruct H as (_ & Hrcv & _ & Hrest).
  cbn [flat_map map]. rewrite recv_times_app.
  rewrite (IH _ Hrest).
  unfold round_events, recv_times at 1. cbn [flat_map]. rewrite Hrcv.
  reflexivity.
Qed.

Lemma nondecreasing_app t l1 l2 :
  nondecreasing t (l1 ++ l2) <->
  nondecreasing t l1 /\ nondecreasing (last l1 t) l2.
Proof.
  revert t. induction l1 as [| x l1 IH]; intros t.
  - cbn. tauto.
  - rewrite last_cons. cbn [app nondecreasing]. rewrite IH. tauto.
Qed.

Lemma nondecreasing_adjacent t l l1 l2 p c :
  nondecreasing t l -> t :: l = l1 ++ p :: c :: l2 -> float_le p c = true.
Proof.
  revert t l. induction l1 as [| y l1 IH]; intros t l H E.
  - cbn in E. inversion E; subst. cbn in H. tauto.
  - cbn in E. inversion E; subst. destruct l1 as [| z l1].
    + cbn in H. destruct H as [_ H]. apply (IH p (c :: l2)); [exact H | reflexivity].
    + cbn in H. destruct H as [_ H].
      apply (IH z (l1 ++ p :: c :: l2)); [exact H | reflexivity].
Qed.

Lemma nondecreasing_last l :
  forall x t, nondecreasing t (x :: l) -> float_le t (last l x) = true.
Proof.
  induction l as [| y l IH]; intros x t H.
  - cbn in H. tauto.
  - rewrite last_cons. destruct H as [Hx H].
    apply float_le_trans with x; [assumption |]. apply IH. exact H.
Qed.

Lemma last_map {A B} (f : A -> B) (l : list A) (d : A) :
  last (map f l) (f d) = f (last l d).
Proof.
  induction l as [| x l IH]; [reflexivity |].
  destruct l as [| y l]; [reflexivity |]. exact IH.
Qed.

(** In the times of one batch, the last one comes right after a time that
    had not reached the episode length. *)
Lemma rounds_last_follows v action L :
  forall rest r cur,
    rounds_from v action L cur (r :: rest) ->
    float_ge cur L = false ->
    exists l1 p,
      cur :: map round_time (r :: rest)
      = l1 ++ [p; round_time (last rest r)] /\
      float_ge p L = false.
Proof.
  induction rest as [| r2 rest IH]; intros r cur H Hcur.
  - exists [], cur. split; [reflexivity | assumption].
  - cbn [rounds_from] in H. destruct H as (_ & _ & Hnl & Hrest).
    assert (Hr : float_ge (m_curSimTim (r_msg r)) L = false)
      by (apply Hnl; discriminate).
    destruct (IH r2 _ Hrest Hr) as (l1 & p & E & Hp).
    exists (cur :: l1), p. split; [| assumption].
    rewrite last_cons. cbn [map] in *. unfold round_time at 1.
    cbn [app]. f_equal. exact E.
Qed.

Section StepSequences.

Context {TimeInfo : Type} (time_info : float -> TimeInfo).

Lemma step_at_end action s cur :
  _curSimTim (self s) = Some cur ->
  float_ge cur (_eplus_one_epi_len (self s)) = true ->
  step time_info action s = (Ok None, s).
Proof.
  intros Hcur Hge. unfold step, bind, attr, get. rewrite Hcur, Hge.
  reflexivity.
Qed.

Lemma run_steps_ok acts :
  forall s t0 cs s',
    _curSimTim (self s) = Some t0 ->
    run_steps time_info acts s = (Ok cs, s') ->
    exists tr,
      trace s' = trace s ++ tr /\
      (nondecreasing t0 (recv_times tr) ->
       nondecreasing t0 cs /\
       Forall (overshoot_ok (_eplus_one_epi_len (self s)) t0
                 (t0 :: recv_times tr)) cs).
Proof.
  induction acts as [| a acts IH]; intros s t0 cs s' Hcur H.
  - cbn [run_steps] in H. unfold ret in H. inversion H; subst.
    exists []. split; [symmetry; apply app_nil_r |].
    intros _. split; [exact I | constructor].
  - cbn [run_steps] in H.
    apply bind_ok in H. destruct H as (res & s1 & Hstep & H).
    apply bind_ok in H. destruct H as (t1 & s1' & Hcur1 & H).
    apply attr_ok in Hcur1. destruct Hcur1 as [Hcur1 ->].
    apply bind_ok in H. destruct H as (cs' & s2 & Hrest & H).
    unfold ret in H. inversion H; subst; clear H.
    destruct (float_ge t0 (_eplus_one_epi_len (self s))) eqn:Hge.
    + (* the episode is over: the call does nothing *)
      rewrite (step_at_end a s t0 Hcur Hge) in Hstep.
      inversion Hstep; subst; clear Hstep.
      rewrite Hcur in Hcur1. inversion Hcur1; subst t1; clear Hcur1.
      destruct (IH _ _ _ _ Hcur Hrest) as (tr & Htr & Hprop).
      exists tr. split; [assumption |].
      intros Hnd. destruct (Hprop Hnd) as [Hmono Hall].
      split.
      * cbn [nondecreasing]. split; [| assumption].
        apply (float_le_refl_of_ge _ _ Hge).
      * constructor; [| assumption]. intros _. left. reflexivity.
    + (* the episode is under way *)
      destruct (step_active_ok time_info a s t0 res s1 Hcur Hge Hstep)
        as (v & f & c & r & rest & Hh & Hc & Hn & Hrounds & Htr1 & Hstop
            & Hres & Hself).
      rewrite Hself in Hcur1. sys_simpl_in Hcur1.
      inversion Hcur1; subst t1; clear Hcur1.
      assert (Hcur1 : _curSimTim (self s1)
                      = Some (m_curSimTim (r_msg (last rest r))))
        by (rewrite Hself; reflexivity).
      assert (HL : _eplus_one_epi_len (self s1) = _eplus_one_epi_len (self s))
        by (rewrite Hself; reflexivity).
      destruct (IH _ _ _ _ Hcur1 Hrest) as (tr' & Htr' & Hprop).
      rewrite HL in Hprop.
      exists (flat_map (round_events c) (r :: rest) ++ tr').
      split; [rewrite Htr', Htr1, app_assoc; reflexivity |].
      rewrite recv_times_app, (recv_times_rounds _ _ _ _ _ _ Hrounds).
      intros Hnd. apply nondecreasing_app in Hnd. destruct Hnd as [Hnd1 Hnd2].
      set (t1 := m_curSimTim (r_msg (last rest r))) in *.
      assert (Hlast : last (map round_time (r :: rest)) t0 = t1).
      { cbn [map]. rewrite last_cons.
        change (round_time r) with (round_time r).
        rewrite (last_map round_time rest r). reflexivity. }
      rewrite Hlast in Hnd2.
      destruct (Hprop Hnd2) as [Hmono Hall].
      destruct (rounds_last_follows _ _ _ _ _ _ Hrounds Hge)
        as (l1 & p & Eseq & Hp).
      change (round_time (last rest r)) with t1 in Eseq.
      assert (Hpt1 : float_le p t1 = true).
      { apply (nondecreasing_adjacent t0 (map round_time (r :: rest)) l1 [] p t1);
          assumption. }
      assert (Ht0t1 : float_le t0 t1 = true).
      { cbn [map] in Hnd1. apply nondecreasing_last in Hnd1.
        rewrite (last_map round_time rest r) in Hnd1. exact Hnd1. }
      assert (Ht1 : overshoot_ok (_eplus_one_epi_len (self s)) t0
                      (t0 :: map round_time (r :: rest) ++ recv_times tr') t1).
      { intros Hge1. right. exists p. split.
        - apply (float_lt_of_not_ge p t1); assumption.
        - exists l1, (recv_times tr').
          change (t0 :: map round_time (r :: rest) ++ recv_times tr')
            with ((t0 :: map round_time (r :: rest)) ++ recv_times tr').
          rewrite Eseq, <- app_assoc. reflexivity. }
      split.
      * cbn [nondecreasing]. split; assumption.
      * constructor; [exact Ht1 |].
        eapply Forall_impl; [| exact Hall].
        intros c0 Hc0 Hge0. destruct (Hc0 Hge0) as [-> | (q & Hq & l2 & l3 & E)].
        -- exact (Ht1 Hge0).
        -- right. exists q. split; [assumption |].
           exists (l1 ++ [p] ++ l2), l3.
           change (t0 :: map round_time (r :: rest) ++ recv_times tr')
             with ((t0 :: map round_time (r :: rest)) ++ recv_times tr').
           rewrite Eseq.
           replace ((l1 ++ [p; t1]) ++ recv_times tr')
             with ((l1 ++ [p]) ++ t1 :: recv_times tr')
             by (rewrite <- !app_assoc; reflexivity).
           rewrite E. rewrite <- !app_assoc. reflexivity.
Qed.

(** C9. Over any sequence of [step] calls that return, when the elapsed
    times of the peer's answers never decrease from the starting cursor on,
    the cursor read after each call never decreases either; and a cursor
    at or past the episode length is either the starting cursor itself or
    the elapsed time of an answer that came right after a time still below
    the episode length: it passes the episode length by less than the
    advance of that single round. *)
Theorem cursor_monotone_bounded acts s t0 cs s' tr :
  _curSimTim (self s) = Some t0 ->
  run_steps time_info acts s = (Ok cs, s') ->
  trace s' = trace s ++ tr ->
  nondecreasing t0 (recv_times tr) ->
  nondecreasing t0 cs /\
  Forall (overshoot_ok (_eplus_one_epi_len (self s)) t0 (t0 :: recv_times tr))
    cs.
Proof.
  intros Hcur Hrun Htr Hnd.
  destruct (run_steps_ok acts s t0 cs s' Hcur Hrun) as (tr0 & Htr0 & Hprop).
  rewrite Htr0 in Htr. apply app_inv_head in Htr. subst tr0.
  apply Hprop. exact Hnd.
Qed.

End StepSequences.

Lemma cursor_monotone_bounded_witness :
  nondecreasing (lit_float "0.0") [lit_float "1800.0"; lit_float "1800.0"] /\
  Forall
    (overshoot_ok (_eplus_one_epi_len (self after_reset)) (lit_float "0.0")
       (lit_float "0.0"
        :: recv_times (skipn (List.length (trace after_reset))
                         (trace after_step))))
    [lit_float "1800.0"; lit_float "1800.0"].
Proof.
  apply (cursor_monotone_bounded (fun t => t) [example_action; example_action]
           after_reset (lit_float "0.0")
           [lit_float "1800.0"; lit_float "1800.0"] after_step).
  - reflexivity.
  - vm_compute. reflexivity.
  - vm_compute. reflexivity.
  - vm_compute. repeat split; reflexivity.
Defined.

(** For finite values, a time below the episode length is below it as a
    rational: a cursor [c] that follows [p] exceeds the episode length by
    less than [c - p]. *)
Lemma overshoot_below_drift p c L :
  is_finite p = true -> is_finite L = true -> float_lt p L = true ->
  (F2Q c - F2Q L < F2Q c - F2Q p)%Q.
Proof.
  intros Hp HL Hlt.
  assert (H : (F2Q p < F2Q L)%Q).
  { unfold float_lt, float_cmp in Hlt.
    destruct p as [sp | sp | | sp mp ep]; try discriminate Hp;
      destruct L as [sl | sl | | sl ml el]; try discriminate HL;
      match type of Hlt with
      | context [(?a ?= ?b)%Q] =>
          destruct (a ?= b)%Q eqn:E; try discriminate Hlt;
          apply Qlt_alt; exact E
      end. }
  lra.
Qed.

Lemma step_after_end_witness :
  step (fun t => t) example_action after_step = (Ok None, after_step).
Proof.
  apply (step_after_end (fun t => t) example_action after_step
           (lit_float "1800.0")); reflexivity.
Defined.

(** ** Decoding *)

Lemma floats_loop (l1 l2 l3 : list str) (acc : list float) :
  for_each (seq (List.length l1) (List.length l2))
    (fun i Dblist =>
       t <~ getitem (l1 ++ l2 ++ l3) i ;;
       x <~ float_ t ;;
       Ok (Dblist ++ [x]))
    acc
  = (xs <~ parse_floats l2 ;; Ok (acc ++ xs)).
Proof.
  revert l1 acc. induction l2 as [| t l2 IH]; intros l1 acc.
  - simpl. rewrite app_nil_r. reflexivity.
  - cbn [List.length seq for_each parse_floats app].
    rewrite getitem_app. cbn [rbind].
    destruct (float_ t) as [x | e]; [| reflexivity]. cbn [rbind].
    replace (l1 ++ t :: l2 ++ l3) with ((l1 ++ [t]) ++ l2 ++ l3)
      by (rewrite <- app_assoc; reflexivity).
    replace (S (List.length l1)) with (List.length (l1 ++ [t]))
      by (rewrite length_app; simpl; lia).
    rewrite IH.
    destruct (parse_floats l2) as [xs | e]; [| reflexivity].
    cbn [rbind]. rewrite <- app_assoc. reflexivity.
Qed.

Lemma split_sp_nonempty s : split_sp s <> [].
Proof.
  destruct s as [| c r]; [discriminate |]. cbn [split_sp].
  destruct (chr_eqb c SP); [discriminate |].
  destruct (split_sp r); discriminate.
Qed.

Lemma length_removelast {A} (l : list A) :
  List.length (removelast l) = (List.length l - 1)%nat.
Proof.
  induction l as [| x l IH]; [reflexivity |].
  destruct l as [| y l]; [reflexivity |].
  change (removelast (x :: y :: l)) with (x :: removelast (y :: l)).
  cbn [List.length] in *. rewrite IH. lia.
Qed.

(** With six tokens or more, decoding is [decode_tokens] of the tokens. *)
Lemma disassemble_tokens rcv :
  (6 <= List.length (split_sp rcv))%nat ->
  _disassembleMsg rcv = decode_tokens (split_sp rcv).
Proof.
  unfold _disassembleMsg. generalize (split_sp rcv) as toks. intros toks Hlen.
  destruct toks as [| t0 [| t1 [| t2 [| t3 [| t4 [| t5 rest]]]]]];
    cbn [List.length] in Hlen; try lia.
  unfold decode_tokens, range. cbn [getitem nth_error rbind].
  destruct (int_ t0) as [v |]; [| reflexivity].
  destruct (int_ t1) as [f |]; [| reflexivity].
  destruct (int_ t2) as [d |]; [| reflexivity].
  destruct (int_ t3) as [i |]; [| reflexivity].
  destruct (int_ t4) as [b |]; [| reflexivity].
  destruct (float_ t5) as [t |]; [| reflexivity]. cbn [rbind].
  assert (Hs : forall pre l3,
    rest = pre ++ l3 ->
    for_each (seq 6 (List.length pre))
      (fun i Dblist =>
         t6 <~ getitem (t0 :: t1 :: t2 :: t3 :: t4 :: t5 :: rest) i ;;
         x <~ float_ t6 ;; Ok (Dblist ++ [x])) []
    = (xs <~ parse_floats pre ;; Ok ([] ++ xs))).
  { intros pre l3 ->.
    apply (floats_loop [t0; t1; t2; t3; t4; t5] pre l3 []). }
  replace (List.length (t0 :: t1 :: t2 :: t3 :: t4 :: t5 :: rest) - 1 - 6)%nat
    with (List.length (removelast rest))
    by (rewrite length_removelast; cbn [List.length]; lia).
  destruct rest as [| r0 rest'].
  - reflexivity.
  - rewrite (Hs (removelast (r0 :: rest')) [last rest' r0]).
    + destruct (parse_floats (removelast (r0 :: rest'))); reflexivity.
    + rewrite <- last_cons with (d := r0).
      apply app_removelast_last. discriminate.
Qed.

Lemma parse_floats_ok l :
  is_ok (parse_floats l) = forallb (fun t => is_some (py_float t)) l.
Proof.
  induction l as [| t l IH]; [reflexivity |].
  cbn [parse_floats forallb]. unfold float_.
  destruct (py_float t); cbn [rbind is_some andb]; [| reflexivity].
  rewrite <- IH. destruct (parse_floats l); reflexivity.
Qed.

Lemma parse_floats_raise l e : parse_floats l = Raise e -> e = ValueError.
Proof.
  induction l as [| t l IH]; [discriminate |].
  cbn [parse_floats]. unfold float_.
  destruct (py_float t); cbn [rbind]; [| intros [= <-]; reflexivity].
  destruct (parse_floats l); cbn [rbind]; [discriminate |].
  intros [= <-]. apply IH. reflexivity.
Qed.

Lemma parse_floats_values l :
  forall xs, parse_floats l = Ok xs ->
    List.length xs = List.length l /\
    forall i, (i < List.length l)%nat ->
      py_float (nth i l []) = Some (nth i xs S754_nan).
Proof.
  induction l as [| t l IH]; intros xs H.
  - inversion H; subst. split; [reflexivity |]. cbn. lia.
  - cbn [parse_floats] in H. unfold float_ in H.
    destruct (py_float t) as [x |] eqn:Et; [| discriminate H].
    cbn [rbind] in H.
    destruct (parse_floats l) as [ys |]; [| discriminate H].
    inversion H; subst; clear H.
    destruct (IH ys eq_refl) as [Hl Hv].
    split; [cbn [List.length]; lia |].
    intros [| i] Hi; [exact Et |].
    cbn [nth]. apply Hv. cbn [List.length] in Hi. lia.
Qed.

Lemma decode_tokens_raise toks e :
  decode_tokens toks = Raise e -> e = IndexError \/ e = ValueError.
Proof.
  unfold decode_tokens, int_, float_.
  destruct toks as [| t0 [| t1 [| t2 [| t3 [| t4 [| t5 rest]]]]]];
    try (intros [= <-]; auto).
  destruct (py_int t0); cbn [rbind]; [| intros [= <-]; auto].
  destruct (py_int t1); cbn [rbind]; [| intros [= <-]; auto].
  destruct (py_int t2); cbn [rbind]; [| intros [= <-]; auto].
  destruct (py_int t3); cbn [rbind]; [| intros [= <-]; auto].
  destruct (py_int t4); cbn [rbind]; [| intros [= <-]; auto].
  destruct (py_float t5); cbn [rbind]; [| intros [= <-]; auto].
  destruct (parse_floats (removelast rest)) eqn:E; cbn [rbind];
    [discriminate |].
  intros [= <-]. right. exact (parse_floats_raise _ _ E).
Qed.

Lemma decode_tokens_ok toks :
  (6 <= List.length toks)%nat ->
  is_ok (decode_tokens toks) = decodable toks.
Proof.
  destruct toks as [| t0 [| t1 [| t2 [| t3 [| t4 [| t5 rest]]]]]];
    cbn [List.length]; try lia.
  intros _. unfold decode_tokens, decodable, int_, float_.
  cbn [List.length Nat.leb firstn skipn nth forallb andb].
  destruct (py_int t0); cbn [rbind is_some andb]; [| reflexivity].
  destruct (py_int t1); cbn [rbind is_some andb]; [| reflexivity].
  destruct (py_int t2); cbn [rbind is_some andb]; [| reflexivity].
  destruct (py_int t3); cbn [rbind is_some andb]; [| reflexivity].
  destruct (py_int t4); cbn [rbind is_some andb]; [| reflexivity].
  destruct (py_float t5); cbn [rbind is_some andb]; [| reflexivity].
  rewrite <- parse_floats_ok.
  destruct (parse_floats (removelast rest)); reflexivity.
Qed.

(** With fewer than six tokens decoding raises: IndexError at the first
    missing token, unless a token before it is not an int (ValueError). *)
Lemma disassemble_short rcv :
  (List.length (split_sp rcv) < 6)%nat ->
  exists e, _disassembleMsg rcv = Raise e /\
            (e = IndexError \/ e = ValueError).
Proof.
  unfold _disassembleMsg, int_. generalize (split_sp rcv) as toks.
  intros toks Hlen.
  destruct toks as [| t0 [| t1 [| t2 [| t3 [| t4 [| t5 rest]]]]]];
    cbn [List.length] in Hlen; try lia;
    cbn [getitem nth_error rbind];
    repeat match goal with
      | |- context [py_int ?t] => destruct (py_int t); cbn [rbind]
      end;
    eauto.
Qed.

(** C2, as the code has it. For a line of at most 4300 characters (every
    line that [recv(2048)] returns is one; up to that length every integer
    literal is within what [int] converts), decoding fails exactly when the
    line has fewer than six tokens, or one of the first five is not read by
    [int], or the sixth is not read by [float], or a token after the sixth
    other than the last is not read by [float]; a last token that comes
    after the sixth is never read. The failure is an IndexError or a
    ValueError. *)
Theorem decode_fails_exactly rcv :
  (List.length rcv <= 4300)%nat ->
  is_ok (_disassembleMsg rcv) = decodable (split_sp rcv) /\
  (forall e, _disassembleMsg rcv = Raise e ->
             e = IndexError \/ e = ValueError).
Proof.
  intros _.
  destruct (Nat.leb_spec 6 (List.length (split_sp rcv))) as [Hlen | Hlen].
  - rewrite (disassemble_tokens rcv Hlen). split.
    + apply decode_tokens_ok. exact Hlen.
    + apply decode_tokens_raise.
  - destruct (disassemble_short rcv Hlen) as (e & He & Hk).
    rewrite He. split.
    + unfold decodable.
      replace (6 <=? List.length (split_sp rcv))%nat with false
        by (symmetry; apply Nat.leb_gt; exact Hlen).
      reflexivity.
    + intros e' [= <-]. exact Hk.
Qed.

Lemma decode_fails_exactly_witness :
  is_ok (_disassembleMsg (lit "1 0 0 0 0 0.0 20.0 abc"))
  = decodable (split_sp (lit "1 0 0 0 0 0.0 20.0 abc")) /\
  (forall e, _disassembleMsg (lit "1 0 0 0 0 0.0 20.0 abc") = Raise e ->
             e = IndexError \/ e = ValueError).
Proof.
  apply (decode_fails_exactly (lit "1 0 0 0 0 0.0 20.0 abc")).
  vm_compute. lia.
Defined.

(** C2, as stated, fails both ways: a line whose last value token is not a
    number decodes, and a line whose header tokens are all numbers fails
    when one of the first five is not an int. *)
Lemma decode_fails_exactly_not :
  (is_ok (_disassembleMsg (lit "1 0 0 0 0 0.0 20.0 abc")) = true /\
   decodable_as_stated (split_sp (lit "1 0 0 0 0 0.0 20.0 abc")) = false) /\
  (is_ok (_disassembleMsg (lit "1.5 0 0 0 0 0.0 20.0")) = false /\
   decodable_as_stated (split_sp (lit "1.5 0 0 0 0 0.0 20.0")) = true).
Proof. repeat split; reflexivity. Qed.

(** What a line of seven tokens or more decodes to, when it decodes; and
    the last token has no part in it. *)
Lemma disassemble_values rcv :
  (7 <= List.length (split_sp rcv))%nat ->
  (forall m,
     _disassembleMsg rcv = Ok m ->
     List.length (m_Dblist m) = (List.length (split_sp rcv) - 7)%nat /\
     forall i, (i < List.length (split_sp rcv) - 7)%nat ->
       py_float (nth (6 + i) (split_sp rcv) [])
       = Some (nth i (m_Dblist m) S754_nan)) /\
  (forall rcv',
     removelast (split_sp rcv') = removelast (split_sp rcv) ->
     _disassembleMsg rcv' = _disassembleMsg rcv).
Proof.
  intros Hlen. split.
  - intros m. rewrite disassemble_tokens by lia.
    destruct (split_sp rcv)
      as [| t0 [| t1 [| t2 [| t3 [| t4 [| t5 rest]]]]]];
      cbn [List.length] in Hlen; try lia.
    unfold decode_tokens.
    destruct (int_ t0); cbn [rbind]; [| discriminate].
    destruct (int_ t1); cbn [rbind]; [| discriminate].
    destruct (int_ t2); cbn [rbind]; [| discriminate].
    destruct (int_ t3); cbn [rbind]; [| discriminate].
    destruct (int_ t4); cbn [rbind]; [| discriminate].
    destruct (float_ t5); cbn [rbind]; [| discriminate].
    destruct (parse_floats (removelast rest)) as [xs |] eqn:E; cbn [rbind];
      [| discriminate].
    intros [= <-]. cbn [m_Dblist List.length].
    destruct (parse_floats_values _ _ E) as [Hl Hv].
    rewrite length_removelast in Hl, Hv.
    split; [lia |].
    intros i Hi. cbn [Nat.add nth].
    rewrite <- (Hv i) by lia.
    f_equal.
    destruct rest as [| r0 rest']; [cbn [List.length] in Hi; lia |].
    rewrite (app_removelast_last r0 (l := r0 :: rest')) at 1 by discriminate.
    rewrite app_nth1; [reflexivity |].
    rewrite length_removelast. cbn [List.length] in *. lia.
  - intros rcv' E.
    assert (Hlen' : List.length (split_sp rcv') = List.length (split_sp rcv)).
    { pose proof (f_equal (@List.length str) E) as El.
      rewrite !length_removelast in El.
      pose proof (split_sp_nonempty rcv') as Hne.
      destruct (split_sp rcv'); [congruence |].
      cbn [List.length] in *. lia. }
    rewrite !disassemble_tokens by lia.
    destruct (split_sp rcv)
      as [| t0 [| t1 [| t2 [| t3 [| t4 [| t5 [| r0 rest]]]]]]];
      cbn [List.length] in Hlen; try lia.
    destruct (split_sp rcv')
      as [| u0 [| u1 [| u2 [| u3 [| u4 [| u5 [| q0 rest']]]]]]];
      cbn [List.length] in Hlen'; try lia.
    change (removelast (u0 :: u1 :: u2 :: u3 :: u4 :: u5 :: q0 :: rest'))
      with (u0 :: u1 :: u2 :: u3 :: u4 :: u5 :: removelast (q0 :: rest')) in E.
    change (removelast (t0 :: t1 :: t2 :: t3 :: t4 :: t5 :: r0 :: rest))
      with (t0 :: t1 :: t2 :: t3 :: t4 :: t5 :: removelast (r0 :: rest)) in E.
    injection E as -> -> -> -> -> -> E.
    assert (E' : removelast (q0 :: rest') = removelast (r0 :: rest))
      by exact E.
    unfold decode_tokens. rewrite E'. reflexivity.
Qed.

Lemma decodable_body toks :
  (7 <= List.length toks)%nat ->
  decodable toks
  = forallb (fun t => is_some (py_int t)) (firstn 5 (removelast toks))
    && forallb (fun t => is_some (py_float t)) (skipn 5 (removelast toks)).
Proof.
  intros Hlen.
  destruct toks as [| t0 [| t1 [| t2 [| t3 [| t4 [| t5 [| r0 rest]]]]]]];
    cbn [List.length] in Hlen; try lia.
  change (removelast (t0 :: t1 :: t2 :: t3 :: t4 :: t5 :: r0 :: rest))
    with (t0 :: t1 :: t2 :: t3 :: t4 :: t5 :: removelast (r0 :: rest)).
  unfold decodable.
  replace (6 <=? List.length (t0 :: t1 :: t2 :: t3 :: t4 :: t5 :: r0 :: rest))%nat
    with true by (symmetry; apply Nat.leb_le; cbn [List.length]; lia).
  cbn [firstn skipn nth forallb andb]. rewrite <- !andb_assoc. reflexivity.
Qed.

(** C10. A line of [n >= 7] tokens whose tokens before the last are read
    (the first five by [int], the others by [float]) decodes, whatever its
    last token is: the value list has [n - 7] floats, read from the tokens
    of ranks 7 to [n - 1], and any line with the same tokens before the
    last decodes to the same message, so a last token that is not a number
    does no harm.  (Lines of at most 4300 characters, as in C2.) *)
Theorem decode_skips_last_token rcv :
  (List.length rcv <= 4300)%nat ->
  (7 <= List.length (split_sp rcv))%nat ->
  forallb (fun t => is_some (py_int t))
    (firstn 5 (removelast (split_sp rcv))) = true ->
  forallb (fun t => is_some (py_float t))
    (skipn 5 (removelast (split_sp rcv))) = true ->
  exists m,
    _disassembleMsg rcv = Ok m /\
    List.length (m_Dblist m) = (List.length (split_sp rcv) - 7)%nat /\
    (forall i, (i < List.length (split_sp rcv) - 7)%nat ->
       py_float (nth (6 + i) (split_sp rcv) [])
       = Some (nth i (m_Dblist m) S754_nan)) /\
    (forall rcv',
       (List.length rcv' <= 4300)%nat ->
       removelast (split_sp rcv') = removelast (split_sp rcv) ->
       _disassembleMsg rcv' = Ok m).
Proof.
  intros _ Hlen Hint Hfloat.
  assert (Hok : is_ok (_disassembleMsg rcv) = true).
  { rewrite disassemble_tokens by lia.
    rewrite decode_tokens_ok by lia.
    rewrite (decodable_body _ Hlen), Hint, Hfloat. reflexivity. }
  destruct (_disassembleMsg rcv) as [m | e] eqn:E; [| discriminate Hok].
  destruct (disassemble_values rcv Hlen) as [Hvals Hlast].
  exists m. split; [reflexivity |].
  rewrite E in Hvals, Hlast.
  destruct (Hvals m eq_refl) as [Hl Hv].
  split; [exact Hl |]. split; [exact Hv |].
  intros rcv' _ Heq. exact (Hlast rcv' Heq).
Qed.

Lemma decode_skips_last_token_witness :
  exists m,
    _disassembleMsg (lit "1 0 0 0 0 0.0 20.0 abc") = Ok m /\
    List.length (m_Dblist m)
    = (List.length (split_sp (lit "1 0 0 0 0 0.0 20.0 abc")) - 7)%nat /\
    (forall i,
       (i < List.length (split_sp (lit "1 0 0 0 0 0.0 20.0 abc")) - 7)%nat ->
       py_float (nth (6 + i) (split_sp (lit "1 0 0 0 0 0.0 20.0 abc")) [])
       = Some (nth i (m_Dblist m) S754_nan)) /\
    (forall rcv',
       (List.length rcv' <= 4300)%nat ->
       removelast (split_sp rcv')
       = removelast (split_sp (lit "1 0 0 0 0 0.0 20.0 abc")) ->
       _disassembleMsg rcv' = Ok m).
Proof.
  apply (decode_skips_last_token (lit "1 0 0 0 0 0.0 20.0 abc")).
  - vm_compute. lia.
  - vm_compute. lia.
  - reflexivity.
  - reflexivity.
Defined.

(** ** Decimal digits *)

Lemma digit_chr_spec d :
  0 <= d < 10 ->
  is_digit (digit_chr d) = true /\ digit_val (digit_chr d) = d.
Proof.
  intros H.
  assert (E : d = 0 \/ d = 1 \/ d = 2 \/ d = 3 \/ d = 4 \/ d = 5 \/ d = 6
              \/ d = 7 \/ d = 8 \/ d = 9) by lia.
  repeat (destruct E as [-> | E]; [split; reflexivity |]).
  subst. split; reflexivity.
Qed.

Lemma digits_val_snoc s c :
  digits_val (s ++ [c]) = 10 * digits_val s + digit_val c.
Proof. unfold digits_val. rewrite fold_left_app. reflexivity. Qed.

Lemma digits_val_app a b :
  digits_val (a ++ b) = digits_val a * 10 ^ len b + digits_val b.
Proof.
  induction b as [| c b IH] using rev_ind.
  - rewrite app_nil_r. unfold len. cbn [List.length Z.of_nat].
    change (digits_val []) with 0. change (10 ^ 0) with 1. lia.
  - rewrite app_assoc, !digits_val_snoc, IH.
    unfold len. rewrite length_app. cbn [List.length].
    rewrite Nat2Z.inj_add. rewrite Z.pow_add_r by lia.
    change (Z.of_nat 1) with 1. change (10 ^ 1) with 10. ring.
Qed.

Lemma digits_fixed_length w n : List.length (digits_fixed w n) = w.
Proof.
  revert n. induction w as [| w IH]; intros n; [reflexivity |].
  cbn [digits_fixed]. rewrite length_app, IH. cbn. lia.
Qed.

Lemma digits_fixed_digits w n : all_digits (digits_fixed w n) = true.
Proof.
  revert n. induction w as [| w IH]; intros n; [reflexivity |].
  cbn [digits_fixed]. unfold all_digits in *. rewrite forallb_app, IH.
  cbn [forallb andb].
  destruct (digit_chr_spec (n mod 10)) as [-> _]; [| reflexivity].
  apply Z.mod_pos_bound. lia.
Qed.

Lemma digits_fixed_val w n :
  0 <= n -> digits_val (digits_fixed w n) = n mod 10 ^ Z.of_nat w.
Proof.
  revert n. induction w as [| w IH]; intros n Hn.
  - cbn. rewrite Z.mod_1_r. reflexivity.
  - cbn [digits_fixed]. rewrite digits_val_snoc.
    rewrite IH by (apply Z.div_pos; lia).
    destruct (digit_chr_spec (n mod 10)) as [_ ->];
      [apply Z.mod_pos_bound; lia |].
    rewrite Nat2Z.inj_succ, Z.pow_succ_r by lia.
    rewrite Z.rem_mul_r by lia. lia.
Qed.

Lemma ndigits_aux_spec fuel :
  forall n, 0 < n -> n < 2 ^ Z.of_nat fuel ->
    1 <= ndigits_aux fuel n /\
    10 ^ (ndigits_aux fuel n - 1) <= n < 10 ^ ndigits_aux fuel n.
Proof.
  induction fuel as [| fuel IH]; intros n Hpos Hlt.
  - cbn in Hlt. lia.
  - cbn [ndigits_aux]. destruct (Z.ltb_spec n 10) as [H10 | H10].
    + cbn. lia.
    + assert (Hq : 0 < n / 10) by (apply Z.div_str_pos; lia).
      assert (Hq2 : n / 10 < 2 ^ Z.of_nat fuel).
      { rewrite Nat2Z.inj_succ, Z.pow_succ_r in Hlt by lia.
        apply Z.div_lt_upper_bound; lia. }
      destruct (IH _ Hq Hq2) as [H1 [Hlo Hhi]].
      split; [lia |].
      replace (1 + ndigits_aux fuel (n / 10) - 1)
        with (Z.succ (ndigits_aux fuel (n / 10) - 1)) by lia.
      replace (1 + ndigits_aux fuel (n / 10))
        with (Z.succ (ndigits_aux fuel (n / 10))) by lia.
      rewrite !Z.pow_succ_r by lia.
      pose proof (Z.div_mod n 10 ltac:(lia)) as Hdm.
      pose proof (Z.mod_pos_bound n 10 ltac:(lia)) as Hm.
      lia.
Qed.

Lemma ndigits_spec n :
  0 < n -> 1 <= ndigits n /\ 10 ^ (ndigits n - 1) <= n < 10 ^ ndigits n.
Proof.
  intros Hpos. unfold ndigits. apply ndigits_aux_spec; [assumption |].
  rewrite Nat2Z.inj_succ, Z2Nat.id by (apply Z.log2_nonneg).
  apply Z.log2_spec. assumption.
Qed.

Lemma ndigits_zero : ndigits 0 = 1.
Proof. reflexivity. Qed.

Lemma ndigits_pos n : 0 <= n -> 1 <= ndigits n /\ n < 10 ^ ndigits n.
Proof.
  intros Hn. destruct (Z.eq_dec n 0) as [-> | Hne].
  - rewrite ndigits_zero. cbn. lia.
  - destruct (ndigits_spec n) as [H1 [_ H2]]; [lia | auto].
Qed.

Lemma dec_digits_val n : 0 <= n -> digits_val (dec_digits n) = n.
Proof.
  intros Hn. unfold dec_digits. rewrite digits_fixed_val by assumption.
  destruct (ndigits_pos n Hn) as [H1 H2].
  rewrite Z2Nat.id by lia. apply Z.mod_small. lia.
Qed.

Lemma dec_digits_digits n : all_digits (dec_digits n) = true.
Proof. apply digits_fixed_digits. Qed.

Lemma dec_digits_length n :
  0 <= n -> (1 <= List.length (dec_digits n))%nat.
Proof.
  intros Hn. unfold dec_digits. rewrite digits_fixed_length.
  destruct (ndigits_pos n Hn) as [H1 _]. lia.
Qed.

(** ** Text of numbers *)

Ltac all_ascii c :=
  destruct c as [[|] [|] [|] [|] [|] [|] [|] [|]].

Lemma is_digit_facts c :
  is_digit c = true ->
  is_numchar c = true /\ lower c = c /\
  chr_eqb c "-"%char = false /\ chr_eqb c "+"%char = false /\
  chr_eqb c "."%char = false /\ chr_eqb (lower c) "e"%char = false /\
  chr_eqb c "i"%char = false /\ chr_eqb c "n"%char = false.
Proof.
  all_ascii c; intros H; try discriminate H; repeat split; reflexivity.
Qed.

Lemma is_numchar_facts c :
  is_numchar c = true ->
  is_space c = false /\ chr_eqb c "_"%char = false /\ chr_eqb c SP = false.
Proof.
  all_ascii c; intros H; try discriminate H; repeat split; reflexivity.
Qed.

Lemma numeric_text_app a b :
  numeric_text (a ++ b) = numeric_text a && numeric_text b.
Proof. apply forallb_app. Qed.

Lemma digits_numeric s : all_digits s = true -> numeric_text s = true.
Proof.
  unfold all_digits, numeric_text. rewrite !forallb_forall.
  intros H c Hc. apply is_digit_facts. auto.
Qed.

Lemma lstrip_id s :
  forallb (fun c => negb (is_space c)) s = true -> lstrip s = s.
Proof.
  destruct s as [| c r]; [reflexivity |]. cbn [forallb lstrip].
  destruct (is_space c); [discriminate | reflexivity].
Qed.

Lemma strip_numeric s : numeric_text s = true -> strip s = s.
Proof.
  intros H.
  assert (Hs : forallb (fun c => negb (is_space c)) s = true).
  { unfold numeric_text in H. rewrite forallb_forall in *.
    intros c Hc. destruct (is_numchar_facts c (H c Hc)) as [-> _].
    reflexivity. }
  unfold strip. rewrite (lstrip_id s Hs).
  rewrite lstrip_id; [apply rev_involutive |].
  rewrite forallb_forall in *. intros c Hc. apply Hs.
  apply in_rev. exact Hc.
Qed.

Lemma drop_underscores_numeric s :
  numeric_text s = true -> forall prev, drop_underscores prev s = Some s.
Proof.
  induction s as [| c r IH]; intros H prev; [reflexivity |].
  unfold numeric_text in H. cbn [forallb] in H.
  apply andb_prop in H. destruct H as [Hc Hr].
  cbn [drop_underscores].
  destruct (is_numchar_facts c Hc) as (_ & -> & _).
  rewrite (IH Hr). reflexivity.
Qed.

Lemma split_sp_token t rest :
  numeric_text t = true -> split_sp (t ++ SP :: rest) = t :: split_sp rest.
Proof.
  induction t as [| c t IH]; intros H.
  - reflexivity.
  - unfold numeric_text in H. cbn [forallb] in H.
    apply andb_prop in H. destruct H as [Hc Ht].
    cbn [app split_sp].
    destruct (is_numchar_facts c Hc) as (_ & _ & ->).
    rewrite (IH Ht). reflexivity.
Qed.

Lemma split_sp_newline : split_sp [NL] = [[NL]].
Proof. reflexivity. Qed.

Lemma fmt_d_int_numeric z : numeric_text (fmt_d_int z) = true.
Proof.
  unfold fmt_d_int. rewrite numeric_text_app.
  rewrite (digits_numeric _ (dec_digits_digits _)).
  destruct (z <? 0); reflexivity.
Qed.

Lemma split_sign_digits s :
  all_digits s = true -> split_sign s = (false, s).
Proof.
  destruct s as [| c r]; [reflexivity |].
  unfold all_digits. cbn [forallb]. intros H.
  apply andb_prop in H. destruct H as [Hc _].
  destruct (is_digit_facts c Hc) as (_ & _ & Hm & Hp & _).
  cbn [split_sign]. rewrite Hm, Hp. reflexivity.
Qed.

(** [int] reads back what ['%d'] prints. *)
Lemma py_int_fmt_d z : py_int (fmt_d_int z) = Some z.
Proof.
  unfold py_int.
  rewrite (strip_numeric _ (fmt_d_int_numeric z)).
  rewrite (drop_underscores_numeric _ (fmt_d_int_numeric z)).
  unfold fmt_d_int.
  pose proof (dec_digits_digits (Z.abs z)) as Hd.
  pose proof (dec_digits_length (Z.abs z) ltac:(lia)) as Hl.
  pose proof (dec_digits_val (Z.abs z) ltac:(lia)) as Hv.
  destruct (Z.ltb_spec z 0) as [Hz | Hz].
  - cbn [app split_sign]. change (chr_eqb "-" "-") with true. cbn iota.
    destruct (dec_digits (Z.abs z)) as [| c r] eqn:E;
      [cbn in Hl; lia |].
    rewrite Hd, Hv. unfold signed. f_equal. lia.
  - cbn [app]. rewrite (split_sign_digits _ Hd).
    destruct (dec_digits (Z.abs z)) as [| c r] eqn:E;
      [cbn in Hl; lia |].
    rewrite Hd, Hv. unfold signed. f_equal. lia.
Qed.

Lemma span_digits_app a b :
  all_digits a = true ->
  (forall c r, b = c :: r -> is_digit c = false) ->
  span_digits (a ++ b) = (a, b).
Proof.
  intros Ha Hb. induction a as [| c a IH].
  - destruct b as [| c r]; [reflexivity |].
    cbn [app span_digits]. rewrite (Hb c r eq_refl). reflexivity.
  - unfold all_digits in Ha. cbn [forallb] in Ha.
    apply andb_prop in Ha. destruct Ha as [Hc Ha].
    cbn [app span_digits]. rewrite Hc, (IH Ha). reflexivity.
Qed.

Lemma exp_digits_spec n :
  0 <= n ->
  all_digits (exp_digits n) = true /\
  digits_val (exp_digits n) = n /\
  (2 <= List.length (exp_digits n))%nat.
Proof.
  intros Hn. unfold exp_digits.
  pose proof (dec_digits_digits n) as Hd.
  pose proof (dec_digits_val n Hn) as Hv.
  pose proof (dec_digits_length n Hn) as Hl.
  destruct (Z.ltb_spec n 10) as [H10 | H10].
  - split; [| split].
    + unfold all_digits in *. cbn [forallb]. rewrite Hd. reflexivity.
    + change ("0"%char :: dec_digits n) with (["0"%char] ++ dec_digits n).
      rewrite digits_val_app, Hv. reflexivity.
    + cbn [List.length]. lia.
  - split; [assumption | split; [assumption |]].
    unfold dec_digits. rewrite digits_fixed_length.
    destruct (ndigits_spec n ltac:(lia)) as [H1 [_ H2]].
    assert (ndigits n <> 1) by (intros E; rewrite E in H2; cbn in H2; lia).
    lia.
Qed.

Lemma rjust_long w s : (w <= List.length s)%nat -> rjust w s = s.
Proof.
  intros H. unfold rjust.
  replace (w - List.length s)%nat with 0%nat by lia. reflexivity.
Qed.

(** What [float] makes of the text that ['%20.15e'] prints for a finite
    non-zero float whose 16 digits are [D] and decimal exponent [k]. *)
Lemma py_float_fmt_e15 s m e D k :
  dec16 (Zpos m) e = (D, k) ->
  10 ^ 15 <= D < 10 ^ 16 ->
  numeric_text (fmt_e15 (S754_finite s m e)) = true /\
  py_float (fmt_e15 (S754_finite s m e)) = Some (dec_to_float s D (k - 15)).
Proof.
  intros Hdec HD.
  unfold fmt_e15, fmt_e15_body. rewrite Hdec.
  set (d0 := digit_chr ((D / 10 ^ 15) mod 10)).
  set (frac := digits_fixed 15 D).
  set (es := if k <? 0 then "-"%char else "+"%char).
  set (expd := exp_digits (Z.abs k)).
  change (digits_fixed 1 (D / 10 ^ 15)) with [d0].
  assert (Hd0r : 0 <= D / 10 ^ 15 < 10).
  { split; [apply Z.div_pos; lia |].
    apply Z.div_lt_upper_bound; [lia |].
    change (10 ^ 15 * 10) with (10 ^ 16). lia. }
  destruct (digit_chr_spec ((D / 10 ^ 15) mod 10)) as [Hd0 Hd0v];
    [apply Z.mod_pos_bound; lia |].
  fold d0 in Hd0, Hd0v. rewrite Z.mod_small in Hd0v by assumption.
  pose proof (digits_fixed_digits 15 D) as Hfrac. fold frac in Hfrac.
  pose proof (digits_fixed_length 15 D) as Hfl. fold frac in Hfl.
  destruct (exp_digits_spec (Z.abs k) ltac:(lia)) as (Hexp & Hexpv & Hexpl).
  fold expd in Hexp, Hexpv, Hexpl.
  set (r := [d0] ++ ["."%char] ++ frac ++ ["e"%char] ++ [es] ++ expd).
  assert (Hr : numeric_text r = true).
  { unfold r. rewrite !numeric_text_app.
    rewrite (digits_numeric _ Hfrac), (digits_numeric _ Hexp).
    unfold numeric_text at 1. cbn [forallb].
    destruct (is_digit_facts d0 Hd0) as (-> & _).
    unfold es. destruct (k <? 0); reflexivity. }
  assert (Hbody : numeric_text (sign_str s ++ r) = true).
  { rewrite numeric_text_app, Hr. destruct s; reflexivity. }
  assert (Hlen : (20 <= List.length (sign_str s ++ r))%nat).
  { rewrite length_app. unfold r. rewrite !length_app, Hfl.
    cbn [List.length]. lia. }
  rewrite (rjust_long _ _ Hlen). split; [exact Hbody |].
  unfold py_float.
  rewrite (strip_numeric _ Hbody), (drop_underscores_numeric _ Hbody).
  assert (Hsign : split_sign (sign_str s ++ r) = (s, r)).
  { destruct s; [reflexivity |].
    unfold r. cbn [sign_str app split_sign].
    destruct (is_digit_facts d0 Hd0) as (_ & _ & -> & -> & _). reflexivity. }
  rewrite Hsign.
  assert (Hinf : forall w, str_eqb (map lower r) ("i"%char :: w) = false).
  { intros w. unfold r. cbn [app map str_eqb].
    destruct (is_digit_facts d0 Hd0) as (_ & -> & _ & _ & _ & _ & -> & _).
    reflexivity. }
  assert (Hnan : forall w, str_eqb (map lower r) ("n"%char :: w) = false).
  { intros w. unfold r. cbn [app map str_eqb].
    destruct (is_digit_facts d0 Hd0) as (_ & -> & _ & _ & _ & _ & _ & ->).
    reflexivity. }
  change (lit "inf") with ("i"%char :: lit "nf").
  change (lit "infinity") with ("i"%char :: lit "nfinity").
  change (lit "nan") with ("n"%char :: lit "an").
  rewrite !Hinf, Hnan. cbn [orb].
  assert (Hparse : parse_decimal r = Some (D, k - 15)).
  { unfold parse_decimal, r.
    rewrite (span_digits_app [d0] _).
    2:{ unfold all_digits. cbn [forallb]. rewrite Hd0. reflexivity. }
    2:{ intros c r0 [= <- _]. reflexivity. }
    cbn [app]. change (chr_eqb "." ".") with true. cbn iota.
    rewrite (span_digits_app frac _ Hfrac).
    2:{ intros c r0 [= <- _]. reflexivity. }
    assert (Hds : digits_val (d0 :: frac) = D).
    { change (d0 :: frac) with ([d0] ++ frac). rewrite digits_val_app.
      unfold frac at 2. rewrite digits_fixed_val by lia.
      unfold len. rewrite Hfl.
      change (digits_val [d0]) with (10 * 0 + digit_val d0).
      rewrite Hd0v.
      pose proof (Z.div_mod D (10 ^ 15) ltac:(lia)) as Hdm.
      change (Z.of_nat 15) with 15. lia. }
    rewrite Hds.
    assert (Hpe : parse_exponent ("e"%char :: es :: expd) = Some k).
    { unfold parse_exponent. change (chr_eqb (lower "e") "e") with true.
      cbn iota.
      assert (Hss : split_sign (es :: expd) = (k <? 0, expd))
        by (unfold es; destruct (k <? 0); reflexivity).
      rewrite Hss.
      destruct expd as [| c0 r0] eqn:Eexp; [cbn in Hexpl; lia |].
      rewrite Hexp, Hexpv. unfold signed.
      destruct (Z.ltb_spec k 0); f_equal; lia. }
    rewrite Hpe, Hfl. reflexivity. }
  rewrite Hparse. reflexivity.
Qed.

(** ** Rounding *)

Lemma rne_nearest n d j :
  0 < d -> Z.abs (rne n d * d - n) <= Z.abs (j * d - n).
Proof.
  intros Hd. unfold rne.
  pose proof (Z.div_mod n d ltac:(lia)) as Hdm.
  pose proof (Z.mod_pos_bound n d Hd) as Hm.
  set (q := n / d) in *. set (r := n mod d) in *.
  assert (Hj : (j <= q /\ 0 <= (q - j) * d) \/
               (q + 1 <= j /\ 0 <= (j - q - 1) * d))
    by (destruct (Z_le_gt_dec j q); [left | right]; (split; [lia |]);
        apply Z.mul_nonneg_nonneg; lia).
  destruct (Z.compare_spec (2 * r) d) as [E | E | E];
    [destruct (Z.even q) | |]; destruct Hj as [[Hj Hk] | [Hj Hk]]; lia.
Qed.

Lemma rne_half n d : 0 < d -> 2 * Z.abs (rne n d * d - n) <= d.
Proof.
  intros Hd. unfold rne.
  pose proof (Z.div_mod n d ltac:(lia)) as Hdm.
  pose proof (Z.mod_pos_bound n d Hd) as Hm.
  set (q := n / d) in *. set (r := n mod d) in *.
  destruct (Z.compare_spec (2 * r) d) as [E | E | E];
    [destruct (Z.even q) | |]; lia.
Qed.

Lemma bpow_pos b p : 0 < b -> (0 < bpow b p)%Q.
Proof.
  intros Hb. unfold bpow. apply Qpower_0_lt.
  change 0%Q with (inject_Z 0). rewrite <- Zlt_Qlt. exact Hb.
Qed.

Lemma bpow_add b p q : 0 < b -> (bpow b (p + q) == bpow b p * bpow b q)%Q.
Proof.
  intros Hb. unfold bpow. apply Qpower_plus.
  intros E. unfold Qeq in E. cbn in E. lia.
Qed.

Lemma bpow_nonneg_Z b p : 0 <= p -> (bpow b p == inject_Z (b ^ p))%Q.
Proof. intros Hp. unfold bpow. symmetry. apply Zpower_Qpower. exact Hp. Qed.

Lemma bpow_opp b p : (bpow b (- p) == / bpow b p)%Q.
Proof. unfold bpow. apply Qpower_opp. Qed.

Lemma bpow_0 b : (bpow b 0 == 1)%Q.
Proof. reflexivity. Qed.

Lemma inject_Z_pos z : 0 < z -> (0 < inject_Z z)%Q.
Proof. intros H. change 0%Q with (inject_Z 0). rewrite <- Zlt_Qlt. exact H. Qed.

Lemma inject_Z_nonzero z : z <> 0 -> ~ (inject_Z z == 0)%Q.
Proof. intros H E. unfold Qeq in E. cbn in E. lia. Qed.

Lemma Qabs_diff_frac a n d :
  0 < d ->
  (Qabs (inject_Z a - frac n d)
   == inject_Z (Z.abs (a * d - n)) * / inject_Z d)%Q.
Proof.
  intros Hd. pose proof (inject_Z_pos d Hd) as Hq.
  assert (E : (inject_Z a - frac n d
               == inject_Z (a * d - n) * / inject_Z d)%Q).
  { unfold frac, Zminus. rewrite inject_Z_plus, inject_Z_mult, inject_Z_opp.
    field. apply inject_Z_nonzero. lia. }
  rewrite E, Qabs_Qmult, Qabs_Qinv.
  rewrite (Qabs_pos (inject_Z d)) by (apply Qlt_le_weak; exact Hq).
  reflexivity.
Qed.

Lemma rne_frac_nearest n d j :
  0 < d ->
  (Qabs (inject_Z (rne n d) - frac n d)
   <= Qabs (inject_Z j - frac n d))%Q.
Proof.
  intros Hd. rewrite !Qabs_diff_frac by assumption.
  apply Qmult_le_compat_r.
  - rewrite <- Zle_Qle. apply rne_nearest. exact Hd.
  - apply Qlt_le_weak, Qinv_lt_0_compat, inject_Z_pos. exact Hd.
Qed.

Lemma rne_frac_half n d :
  0 < d -> (Qabs (inject_Z (rne n d) - frac n d) <= 1 # 2)%Q.
Proof.
  intros Hd. rewrite Qabs_diff_frac by assumption.
  pose proof (rne_half n d Hd) as H.
  pose proof (inject_Z_pos d Hd) as Hq.
  apply Qle_shift_div_r; [exact Hq |].
  rewrite Zle_Qle in H. rewrite inject_Z_mult in H.
  change (inject_Z 2) with 2%Q in H. lra.
Qed.

(** The fraction that [rne_scaled] rounds. *)
Lemma rne_scaled_frac b n d p :
  0 < b -> 0 < d ->
  exists N M,
    0 < M /\ rne_scaled b n d p = rne N M /\
    (frac N M == frac n d * bpow b p)%Q.
Proof.
  intros Hb Hd. unfold rne_scaled.
  pose proof (inject_Z_pos d Hd) as Hq.
  destruct (Z.leb_spec 0 p) as [Hp | Hp].
  - exists (n * b ^ p), d. split; [assumption |]. split; [reflexivity |].
    unfold frac. rewrite inject_Z_mult, (bpow_nonneg_Z b p Hp).
    field. apply inject_Z_nonzero. lia.
  - assert (Hpow : 0 < b ^ (- p)) by (apply Z.pow_pos_nonneg; lia).
    exists n, (d * b ^ (- p)). split; [nia |]. split; [reflexivity |].
    unfold frac. rewrite inject_Z_mult.
    replace p with (- - p) at 2 by lia.
    rewrite bpow_opp, (bpow_nonneg_Z b (- p)) by lia.
    field. split; apply inject_Z_nonzero; lia.
Qed.

(** [rne_scaled b n d p] is an integer nearest to [n / d * b ^ p]. *)
Lemma rne_scaled_nearest b n d p j :
  0 < b -> 0 < d ->
  (Qabs (inject_Z (rne_scaled b n d p) - frac n d * bpow b p)
   <= Qabs (inject_Z j - frac n d * bpow b p))%Q.
Proof.
  intros Hb Hd.
  destruct (rne_scaled_frac b n d p Hb Hd) as (N & M & HM & -> & <-).
  apply rne_frac_nearest. exact HM.
Qed.

Lemma rne_scaled_half b n d p :
  0 < b -> 0 < d ->
  (Qabs (inject_Z (rne_scaled b n d p) - frac n d * bpow b p) <= 1 # 2)%Q.
Proof.
  intros Hb Hd.
  destruct (rne_scaled_frac b n d p Hb Hd) as (N & M & HM & -> & <-).
  apply rne_frac_half. exact HM.
Qed.

Lemma frac_Qmake n d : 0 < d -> (frac n d == n # Z.to_pos d)%Q.
Proof.
  intros Hd. destruct d as [| pd | pd]; try lia.
  unfold frac, Qdiv, Qinv, Qmult, Qeq. cbn. lia.
Qed.

Lemma frac_le n d n' d' :
  0 < d -> 0 < d' -> ((frac n d <= frac n' d')%Q <-> n * d' <= n' * d).
Proof.
  intros Hd Hd'. rewrite (frac_Qmake n d Hd), (frac_Qmake n' d' Hd').
  unfold Qle. cbn [Qnum Qden]. rewrite !Z2Pos.id by assumption. reflexivity.
Qed.

Lemma frac_lt n d n' d' :
  0 < d -> 0 < d' -> ((frac n d < frac n' d')%Q <-> n * d' < n' * d).
Proof.
  intros Hd Hd'. rewrite (frac_Qmake n d Hd), (frac_Qmake n' d' Hd').
  unfold Qlt. cbn [Qnum Qden]. rewrite !Z2Pos.id by assumption. reflexivity.
Qed.

(** [b ^ p] as a fraction of natural powers. *)
Lemma bpow_frac b p :
  0 < b ->
  (bpow b p == frac (b ^ Z.max p 0) (b ^ Z.max (- p) 0))%Q.
Proof.
  intros Hb. destruct (Z.leb_spec 0 p) as [Hp | Hp].
  - rewrite (Z.max_l p 0), (Z.max_r (- p) 0) by lia.
    rewrite (bpow_nonneg_Z b p Hp). unfold frac.
    change (b ^ 0) with 1. change (inject_Z 1) with 1%Q. field.
  - rewrite (Z.max_r p 0), (Z.max_l (- p) 0) by lia.
    replace p with (- - p) at 1 by lia.
    rewrite bpow_opp, (bpow_nonneg_Z b (- p)) by lia. unfold frac.
    change (b ^ 0) with 1. change (inject_Z 1) with 1%Q. field.
    apply inject_Z_nonzero.
    pose proof (Z.pow_pos_nonneg b (- p) Hb ltac:(lia)). lia.
Qed.

Lemma ilog10_spec n d :
  0 < n -> 0 < d ->
  (bpow 10 (ilog10 n d) <= frac n d < bpow 10 (ilog10 n d + 1))%Q.
Proof.
  intros Hn Hd. unfold ilog10.
  destruct (Z.leb_spec d n) as [Hdn | Hdn].
  - pose proof (Z.div_mod n d ltac:(lia)) as Hdm.
    pose proof (Z.mod_pos_bound n d Hd) as Hm.
    assert (Hq : 0 < n / d) by (apply Z.div_str_pos; lia).
    destruct (ndigits_spec (n / d) Hq) as [H1 [Hlo Hhi]].
    set (k := ndigits (n / d) - 1) in *.
    replace (ndigits (n / d)) with (k + 1) in Hhi by (unfold k; lia).
    assert (Hk : 0 <= k) by (unfold k; lia).
    rewrite !bpow_nonneg_Z by lia.
    split.
    + setoid_replace (inject_Z (10 ^ k)) with (frac (10 ^ k) 1)
        by (unfold frac; field).
      apply frac_le; nia.
    + setoid_replace (inject_Z (10 ^ (k + 1))) with (frac (10 ^ (k + 1)) 1)
        by (unfold frac; field).
      apply frac_lt; nia.
  - assert (Hc : 0 < (d - 1) / n) by (apply Z.div_str_pos; lia).
    pose proof (Z.div_mod (d - 1) n ltac:(lia)) as Hdm.
    pose proof (Z.mod_pos_bound (d - 1) n Hn) as Hm.
    destruct (ndigits_spec ((d - 1) / n) Hc) as [H1 [Hlo Hhi]].
    set (j := ndigits ((d - 1) / n)) in *.
    assert (Hp1 : 0 < 10 ^ j) by (apply Z.pow_pos_nonneg; lia).
    assert (Hp2 : 0 < 10 ^ (j - 1)) by (apply Z.pow_pos_nonneg; lia).
    rewrite !bpow_frac by lia.
    rewrite (Z.max_r (- j) 0), (Z.max_l (- - j) 0) by lia.
    rewrite (Z.max_r (- j + 1) 0), (Z.max_l (- (- j + 1)) 0) by lia.
    replace (- - j) with j by lia.
    replace (- (- j + 1)) with (j - 1) by lia.
    change (10 ^ 0) with 1.
    split; [apply frac_le | apply frac_lt]; nia.
Qed.

Lemma log2_bpow n :
  0 < n ->
  (bpow 2 (Z.log2 n) <= inject_Z n < 2 * bpow 2 (Z.log2 n))%Q.
Proof.
  intros Hn. destruct (Z.log2_spec n Hn) as [Hlo Hhi].
  pose proof (Z.log2_nonneg n) as Ha.
  rewrite (bpow_nonneg_Z 2 (Z.log2 n) Ha).
  rewrite Z.pow_succ_r in Hhi by assumption.
  split.
  - rewrite <- Zle_Qle. exact Hlo.
  - change 2%Q with (inject_Z 2). rewrite <- inject_Z_mult, <- Zlt_Qlt.
    exact Hhi.
Qed.

Lemma bpow_succ b p : 0 < b -> (bpow b (p + 1) == inject_Z b * bpow b p)%Q.
Proof.
  intros Hb. rewrite (bpow_add b p 1 Hb).
  change (bpow b 1) with (inject_Z b). ring.
Qed.

Lemma bpow_sub b p q : 0 < b -> (bpow b (p - q) == bpow b p / bpow b q)%Q.
Proof.
  intros Hb. unfold Z.sub. rewrite (bpow_add b p (- q) Hb), bpow_opp.
  reflexivity.
Qed.

(** The test of [ilog2] compares [2 ^ l] with [n / d]. *)
Lemma scaled_le_spec b n d l :
  0 < b -> 0 < d ->
  ((if 0 <=? l then d * b ^ l <=? n else d <=? n * b ^ (- l)) = true
   <-> (bpow b l <= frac n d)%Q).
Proof.
  intros Hb Hd. rewrite (bpow_frac b l Hb).
  destruct (Z.leb_spec 0 l) as [Hl | Hl].
  - rewrite (Z.max_l l 0), (Z.max_r (- l) 0) by lia. change (b ^ 0) with 1.
    rewrite frac_le by lia. rewrite Z.leb_le. lia.
  - rewrite (Z.max_r l 0), (Z.max_l (- l) 0) by lia. change (b ^ 0) with 1.
    assert (0 < b ^ (- l)) by (apply Z.pow_pos_nonneg; lia).
    rewrite frac_le by lia. rewrite Z.leb_le. lia.
Qed.

Lemma ilog2_spec n d :
  0 < n -> 0 < d ->
  (bpow 2 (ilog2 n d) <= frac n d < bpow 2 (ilog2 n d + 1))%Q.
Proof.
  intros Hn Hd. unfold ilog2.
  set (l := Z.log2 n - Z.log2 d).
  destruct (log2_bpow n Hn) as [Hn1 Hn2].
  destruct (log2_bpow d Hd) as [Hd1 Hd2].
  pose proof (bpow_pos 2 (Z.log2 n) ltac:(lia)) as HA.
  pose proof (bpow_pos 2 (Z.log2 d) ltac:(lia)) as HB.
  pose proof (inject_Z_pos d Hd) as HD.
  assert (El : (bpow 2 l == bpow 2 (Z.log2 n) / bpow 2 (Z.log2 d))%Q)
    by (apply bpow_sub; lia).
  set (A := bpow 2 (Z.log2 n)) in *. set (B := bpow 2 (Z.log2 d)) in *.
  set (N := inject_Z n) in *. set (D := inject_Z d) in *.
  assert (Hup : (frac n d < 2 * bpow 2 l)%Q).
  { rewrite El. unfold frac. fold N D.
    apply Qlt_shift_div_r; [exact HD |].
    setoid_replace (2 * (A / B) * D)%Q with ((2 * A * D) / B)%Q
      by (field; lra).
    apply Qlt_shift_div_l; [exact HB |]. nra. }
  assert (Hlow : (bpow 2 l < 2 * frac n d)%Q).
  { rewrite El. unfold frac. fold N D.
    apply Qlt_shift_div_r; [exact HB |].
    setoid_replace (2 * (N / D) * B)%Q with ((2 * N * B) / D)%Q
      by (field; lra).
    apply Qlt_shift_div_l; [exact HD |]. nra. }
  destruct (if 0 <=? l then d * 2 ^ l <=? n else d <=? n * 2 ^ (- l)) eqn:T.
  - apply (scaled_le_spec 2 n d l) in T; try lia.
    split; [exact T |]. rewrite bpow_succ by lia.
    change (inject_Z 2) with 2%Q. exact Hup.
  - assert (T' : ~ (bpow 2 l <= frac n d)%Q).
    { intros C. apply (scaled_le_spec 2 n d l) in C; try lia. congruence. }
    apply Qnot_le_lt in T'.
    replace (l - 1 + 1) with l by lia. split; [| exact T'].
    assert (E : (bpow 2 l == 2 * bpow 2 (l - 1))%Q).
    { replace l with (l - 1 + 1) at 1 by lia. rewrite bpow_succ by lia.
      reflexivity. }
    rewrite E in Hlow. lra.
Qed.

(** ** Printing sixteen digits *)

Lemma frac_of_spec m e :
  0 < m ->
  0 < fst (frac_of m e) /\ 0 < snd (frac_of m e) /\
  (frac (fst (frac_of m e)) (snd (frac_of m e)) == inject_Z m * bpow 2 e)%Q.
Proof.
  intros Hm. unfold frac_of. destruct (Z.leb_spec 0 e) as [He | He];
    cbn [fst snd].
  - assert (0 < 2 ^ e) by (apply Z.pow_pos_nonneg; lia).
    split; [nia |]. split; [lia |].
    unfold frac. rewrite inject_Z_mult, (bpow_nonneg_Z 2 e He).
    change (inject_Z 1) with 1%Q. field.
  - assert (0 < 2 ^ (- e)) by (apply Z.pow_pos_nonneg; lia).
    split; [lia |]. split; [lia |].
    unfold frac. replace e with (- - e) at 2 by lia.
    rewrite bpow_opp, (bpow_nonneg_Z 2 (- e)) by lia.
    field. apply inject_Z_nonzero. lia.
Qed.

Lemma Qabs_scale x p : (0 <= p)%Q -> (Qabs (x * p) == Qabs x * p)%Q.
Proof. intros Hp. rewrite Qabs_Qmult, (Qabs_pos p Hp). reflexivity. Qed.

Lemma bpow_inv b p : 0 < b -> (bpow b p * bpow b (- p) == 1)%Q.
Proof.
  intros Hb. rewrite <- bpow_add by assumption.
  replace (p + - p) with 0 by lia. reflexivity.
Qed.

(** The sixteen digits that [dec16] gives are a correct rounding: the
    decimal they denote is within half a unit of the sixteenth digit of
    the number, hence within [5e-16] of it in relative terms. *)
Lemma dec16_spec m e D k :
  0 < m -> dec16 m e = (D, k) ->
  10 ^ 15 <= D < 10 ^ 16 /\
  (Qabs (inject_Z D * bpow 10 (k - 15) - inject_Z m * bpow 2 e)
   <= (1 # 2) * bpow 10 (-15) * (inject_Z m * bpow 2 e))%Q.
Proof.
  intros Hm Hdec. unfold dec16 in Hdec.
  destruct (frac_of_spec m e Hm) as (Hn & Hd & HX).
  destruct (frac_of m e) as [n d]. cbn [fst snd] in *.
  set (k0 := ilog10 n d) in *.
  set (D0 := rne_scaled 10 n d (15 - k0)) in *.
  destruct (ilog10_spec n d Hn Hd) as [Hlo Hhi]. fold k0 in Hlo, Hhi.
  pose proof (rne_scaled_half 10 n d (15 - k0) ltac:(lia) Hd) as Hhalf.
  fold D0 in Hhalf.
  set (X := frac n d) in *.
  pose proof (bpow_pos 10 (15 - k0) ltac:(lia)) as HP15.
  pose proof (bpow_pos 10 (k0 - 15) ltac:(lia)) as HP.
  pose proof (bpow_pos 10 k0 ltac:(lia)) as HPk.
  assert (E1 : (bpow 10 k0 * bpow 10 (15 - k0) == inject_Z (10 ^ 15))%Q).
  { rewrite <- bpow_add by lia. replace (k0 + (15 - k0)) with 15 by lia.
    reflexivity. }
  assert (E2 : (bpow 10 (k0 + 1) * bpow 10 (15 - k0) == inject_Z (10 ^ 16))%Q).
  { rewrite <- bpow_add by lia. replace (k0 + 1 + (15 - k0)) with 16 by lia.
    reflexivity. }
  assert (E3 : (bpow 10 (k0 - 15) * bpow 10 (15 - k0) == 1)%Q).
  { replace (15 - k0) with (- (k0 - 15)) by lia. apply bpow_inv. lia. }
  assert (E4 : (bpow 10 (k0 - 15) == bpow 10 k0 * bpow 10 (-15))%Q).
  { unfold Z.sub. apply bpow_add. lia. }
  set (P15 := bpow 10 (15 - k0)) in *. set (P := bpow 10 (k0 - 15)) in *.
  set (Pk := bpow 10 k0) in *.
  assert (HT1 : (inject_Z (10 ^ 15) <= X * P15)%Q) by (rewrite <- E1; nra).
  assert (HT2 : (X * P15 < inject_Z (10 ^ 16))%Q) by (rewrite <- E2; nra).
  apply Qabs_Qle_condition in Hhalf. destruct Hhalf as [Hh1 Hh2].
  assert (HD0lo : 10 ^ 15 <= D0).
  { assert (Hq : (inject_Z (10 ^ 15 - 1) < inject_Z D0)%Q).
    { unfold Z.sub. rewrite inject_Z_plus, inject_Z_opp.
      change (inject_Z 1) with 1%Q. lra. }
    rewrite <- Zlt_Qlt in Hq. lia. }
  assert (HD0hi : D0 <= 10 ^ 16).
  { assert (Hq : (inject_Z D0 < inject_Z (10 ^ 16 + 1))%Q).
    { rewrite inject_Z_plus. change (inject_Z 1) with 1%Q. lra. }
    rewrite <- Zlt_Qlt in Hq. lia. }
  assert (Herr : (Qabs (inject_Z D0 * P - X) <= (1 # 2) * bpow 10 (-15) * X)%Q).
  { setoid_replace (inject_Z D0 * P - X)%Q
      with ((inject_Z D0 - X * P15) * P)%Q
      by (setoid_replace X with (X * (P * P15))%Q at 1
            by (rewrite E3; ring); ring).
    rewrite Qabs_scale by lra.
    assert (Ha : (Qabs (inject_Z D0 - X * P15) <= 1 # 2)%Q)
      by (apply Qabs_Qle_condition; split; assumption).
    pose proof (bpow_pos 10 (-15) ltac:(lia)) as Hm15.
    rewrite E4.
    apply Qle_trans with ((1 # 2) * (Pk * bpow 10 (-15)))%Q.
    - apply Qmult_le_compat_r; [exact Ha |]. nra.
    - setoid_replace ((1 # 2) * bpow 10 (-15) * X)%Q
        with ((1 # 2) * (X * bpow 10 (-15)))%Q by ring.
      apply Qmult_le_l; [reflexivity |].
      apply Qmult_le_compat_r; [exact Hlo | lra]. }
  rewrite <- HX.
  destruct (Z.eqb_spec D0 (10 ^ 16)) as [E | E];
    inversion Hdec; subst D k; clear Hdec.
  - split; [cbn; lia |].
    setoid_replace (inject_Z (10 ^ 15) * bpow 10 (k0 + 1 - 15))%Q
      with (inject_Z D0 * P)%Q; [exact Herr |].
    rewrite E. replace (k0 + 1 - 15) with (k0 - 15 + 1) by lia.
    rewrite bpow_succ by lia. fold P.
    change (inject_Z (10 ^ 16)) with (inject_Z (10 ^ 15) * inject_Z 10)%Q.
    ring.
  - split; [lia |]. exact Herr.
Qed.

(** ** Reading a decimal *)

Lemma digits2_pos_bound m : Zpos m < 2 ^ Zpos (digits2_pos m).
Proof.
  induction m as [p IH | p IH |]; cbn [digits2_pos];
    try rewrite Pos2Z.inj_succ, Z.pow_succ_r by lia; try lia.
Qed.

Lemma binary64_bounds s m e :
  is_binary64 (S754_finite s m e) = true ->
  Zpos m < 2 ^ 53 /\ -1074 <= e <= 971.
Proof.
  unfold is_binary64, valid_binary, bounded, canonical_mantissa, fexp, emin.
  intros H. apply andb_prop in H. destruct H as [Hc He].
  apply Z.eqb_eq in Hc. apply Z.leb_le in He.
  pose proof (digits2_pos_bound m) as Hm.
  assert (Hd : Zpos (digits2_pos m) <= 53) by lia.
  split; [| lia].
  apply Z.lt_le_trans with (2 ^ Zpos (digits2_pos m)); [exact Hm |].
  apply Z.pow_le_mono_r; lia.
Qed.

Lemma bpow_le b p q : 0 < b -> p <= q -> (bpow b p <= bpow b q)%Q.
Proof.
  intros Hb Hpq. unfold bpow. apply Qpower_le_compat_l; [exact Hpq |].
  change 1%Q with (inject_Z 1). rewrite <- Zle_Qle. lia.
Qed.

Lemma bpow_lt_inv b p q :
  0 < b -> (bpow b p < bpow b q)%Q -> p < q.
Proof.
  intros Hb H. destruct (Z_lt_le_dec p q) as [Hlt | Hle]; [exact Hlt |].
  exfalso. apply (Qlt_irrefl (bpow b p)).
  apply Qlt_le_trans with (bpow b q); [exact H |]. apply bpow_le; assumption.
Qed.

Lemma signed_Q neg z :
  (inject_Z (signed neg z) == inject_Z (signed neg 1) * inject_Z z)%Q.
Proof.
  destruct neg; cbn [signed]; [rewrite inject_Z_opp |];
    change (inject_Z (- (1))) with (- (1))%Q; change (inject_Z 1) with 1%Q; ring.
Qed.

Lemma Qabs_sub_ge x y : (y - x <= Qabs (x - y))%Q.
Proof.
  setoid_replace (y - x)%Q with (- (x - y))%Q by ring.
  rewrite <- (Qabs_opp (x - y)). apply Qle_Qabs.
Qed.

(** [nearest_binary64] gives a finite float whenever the decimal is no
    larger than the largest binary64 number, and no binary64 number [mx *
    2 ^ ex] is closer to the decimal than the float it gives. *)
Lemma nearest_binary64_spec neg N M mx ex :
  0 < N -> 0 < M -> 0 < mx < 2 ^ 53 -> -1074 <= ex ->
  (frac N M <= inject_Z (2 ^ 53 - 1) * bpow 2 971)%Q ->
  exists Y,
    is_finite (nearest_binary64 neg N M) = true /\
    (F2Q (nearest_binary64 neg N M) == inject_Z (signed neg 1) * Y)%Q /\
    (0 <= Y)%Q /\
    (Qabs (Y - frac N M) <= Qabs (inject_Z mx * bpow 2 ex - frac N M))%Q.
Proof.
  intros HN HM Hmx Hex Hmax. unfold nearest_binary64.
  destruct (ilog2_spec N M HN HM) as [Hlo Hhi].
  set (l := ilog2 N M) in *.
  set (e2 := Z.max (l - 52) (-1074)).
  set (mant := rne_scaled 2 N M (- e2)).
  pose proof (rne_scaled_half 2 N M (- e2) ltac:(lia) HM) as Hhalf.
  pose proof (fun j => rne_scaled_nearest 2 N M (- e2) j ltac:(lia) HM) as Hnear.
  fold mant in Hhalf, Hnear.
  set (X := frac N M) in *.
  pose proof (bpow_pos 2 l ltac:(lia)) as HPl.
  pose proof (bpow_pos 2 e2 ltac:(lia)) as HPe.
  pose proof (bpow_pos 2 (- e2) ltac:(lia)) as HPn.
  pose proof (bpow_pos 2 971 ltac:(lia)) as HP971.
  pose proof (bpow_inv 2 e2 ltac:(lia)) as Einv.
  assert (Hl : l <= 1023).
  { assert (H : (bpow 2 l < bpow 2 1024)%Q).
    { apply Qle_lt_trans with X; [exact Hlo |].
      apply Qle_lt_trans with (inject_Z (2 ^ 53 - 1) * bpow 2 971)%Q;
        [exact Hmax |].
      replace 1024 with (53 + 971) by lia. rewrite bpow_add by lia.
      apply Qmult_lt_compat_r; [exact HP971 |]. reflexivity. }
    apply bpow_lt_inv in H; lia. }
  assert (He2 : -1074 <= e2 <= 971) by lia.
  (* the scaled decimal *)
  assert (Ht53 : (X * bpow 2 (- e2) < inject_Z (2 ^ 53))%Q).
  { apply Qlt_le_trans with (bpow 2 (l + 1) * bpow 2 (- e2))%Q.
    - apply Qmult_lt_compat_r; assumption.
    - rewrite <- bpow_add by lia.
      change (inject_Z (2 ^ 53)) with (bpow 2 53).
      apply bpow_le; lia. }
  assert (Ht0 : (0 < X * bpow 2 (- e2))%Q) by nra.
  apply Qabs_Qle_condition in Hhalf. destruct Hhalf as [Hh1 Hh2].
  assert (Hm0 : 0 <= mant).
  { assert (Hq : (inject_Z (-1) < inject_Z mant)%Q)
      by (change (inject_Z (-1)) with (-1 # 1)%Q; lra).
    rewrite <- Zlt_Qlt in Hq. lia. }
  assert (Hm53 : mant <= 2 ^ 53).
  { assert (Hq : (inject_Z mant < inject_Z (2 ^ 53 + 1))%Q).
    { rewrite inject_Z_plus. change (inject_Z 1) with 1%Q. lra. }
    rewrite <- Zlt_Qlt in Hq. lia. }
  assert (Htop : e2 = 971 -> mant < 2 ^ 53).
  { intros E.
    assert (Hq : (inject_Z mant < inject_Z (2 ^ 53))%Q).
    { assert (Ht : (X * bpow 2 (- e2) <= inject_Z (2 ^ 53 - 1))%Q).
      { apply Qle_trans
          with (inject_Z (2 ^ 53 - 1) * bpow 2 971 * bpow 2 (- e2))%Q.
        - apply Qmult_le_compat_r; [exact Hmax | lra].
        - rewrite E in *. rewrite <- Qmult_assoc, Einv. lra. }
      change (inject_Z (2 ^ 53)) with (inject_Z (2 ^ 53 - 1) + 1)%Q. lra. }
    rewrite <- Zlt_Qlt in Hq. exact Hq. }
  assert (EX : (X == X * bpow 2 (- e2) * bpow 2 e2)%Q).
  { rewrite <- Qmult_assoc, (Qmult_comm (bpow 2 (- e2))), Einv. ring. }
  assert (Hd : (Qabs (inject_Z mant * bpow 2 e2 - X)
                <= Qabs (inject_Z mx * bpow 2 ex - X))%Q).
  { set (t := (X * bpow 2 (- e2))%Q) in *.
    set (xs := (inject_Z mx * bpow 2 ex * bpow 2 (- e2))%Q).
    setoid_replace (inject_Z mant * bpow 2 e2 - X)%Q
      with ((inject_Z mant - t) * bpow 2 e2)%Q
      by (rewrite EX at 1; ring).
    setoid_replace (inject_Z mx * bpow 2 ex - X)%Q
      with ((xs - t) * bpow 2 e2)%Q
      by (rewrite EX at 1; unfold xs;
          rewrite <- (Qmult_1_r (inject_Z mx * bpow 2 ex)) at 1;
          rewrite <- Einv; ring).
    rewrite !Qabs_scale by lra.
    apply Qmult_le_compat_r; [| lra].
    assert (Exs : (xs == inject_Z mx * bpow 2 (ex - e2))%Q).
    { unfold xs, Z.sub. rewrite (bpow_add 2 ex (- e2)) by lia. ring. }
    destruct (Z_le_gt_dec e2 ex) as [Hle | Hgt].
    - rewrite Exs, (bpow_nonneg_Z 2 (ex - e2)) by lia.
      rewrite <- inject_Z_mult. apply Hnear.
    - assert (El : l - e2 = 52) by lia.
      assert (Ht52 : (inject_Z (2 ^ 52) <= t)%Q).
      { change (inject_Z (2 ^ 52)) with (bpow 2 52). rewrite <- El.
        unfold t, Z.sub. rewrite (bpow_add 2 l (- e2)) by lia.
        apply Qmult_le_compat_r; [exact Hlo | lra]. }
      assert (Hxs : (xs < inject_Z (2 ^ 52))%Q).
      { rewrite Exs.
        apply Qle_lt_trans with (inject_Z mx * bpow 2 (-1))%Q.
        - apply Qmult_le_l; [apply inject_Z_pos; lia |].
          apply bpow_le; lia.
        - assert (Hq : (inject_Z mx < inject_Z (2 ^ 53))%Q)
            by (rewrite <- Zlt_Qlt; lia).
          change (inject_Z (2 ^ 53)) with (2 * inject_Z (2 ^ 52))%Q in Hq.
          change (bpow 2 (-1)) with (1 # 2)%Q. lra. }
      apply Qle_trans with (Qabs (inject_Z (2 ^ 52) - t)); [apply Hnear |].
      apply Qle_trans with (t - xs)%Q; [| apply Qabs_sub_ge].
      rewrite Qabs_neg by lra. lra. }
  exists (inject_Z mant * bpow 2 e2)%Q.
  split; [| split; [| split; [| exact Hd]]].
  - destruct (Z.eqb_spec mant (2 ^ 53)) as [E | E]; cbv beta iota.
    + change (2 ^ 52 =? 0) with false. cbv iota.
      destruct (Z.ltb_spec 971 (e2 + 1)); [lia | reflexivity].
    + destruct (Z.eqb_spec mant 0); [reflexivity |].
      destruct (Z.ltb_spec 971 e2); [lia | reflexivity].
  - destruct (Z.eqb_spec mant (2 ^ 53)) as [E | E]; cbv beta iota.
    + change (2 ^ 52 =? 0) with false. cbv iota.
      destruct (Z.ltb_spec 971 (e2 + 1)); [lia |].
      cbn [F2Q]. rewrite signed_Q, Z2Pos.id by reflexivity.
      change (2 ^ (e2 + 1))%Q with (bpow 2 (e2 + 1)).
      rewrite bpow_succ, E by lia.
      change (inject_Z (2 ^ 53)) with (inject_Z (2 ^ 52) * inject_Z 2)%Q.
      ring.
    + destruct (Z.eqb_spec mant 0) as [E0 | E0].
      * rewrite E0. cbn [F2Q]. change (inject_Z 0) with 0%Q. ring.
      * destruct (Z.ltb_spec 971 e2); [lia |].
        cbn [F2Q]. rewrite signed_Q, Z2Pos.id by lia.
        change (2 ^ e2)%Q with (bpow 2 e2). ring.
  - apply Qmult_le_0_compat; [| lra].
    change 0%Q with (inject_Z 0). rewrite <- Zle_Qle. exact Hm0.
Qed.

(** ** One float through ['%20.15e'] and [float] *)

Lemma dec_to_float_frac neg D q :
  0 < D ->
  exists N M,
    0 < N /\ 0 < M /\ dec_to_float neg D q = nearest_binary64 neg N M /\
    (frac N M == inject_Z D * bpow 10 q)%Q.
Proof.
  intros HD. unfold dec_to_float.
  destruct (Z.eqb_spec D 0) as [E | _]; [lia |].
  destruct (Z.leb_spec 0 q) as [Hq | Hq].
  - exists (D * 10 ^ q), 1.
    assert (0 < 10 ^ q) by (apply Z.pow_pos_nonneg; lia).
    split; [nia |]. split; [lia |]. split; [reflexivity |].
    unfold frac. rewrite inject_Z_mult, (bpow_nonneg_Z 10 q Hq).
    change (inject_Z 1) with 1%Q. field.
  - exists D, (10 ^ (- q)).
    assert (Hp : 0 < 10 ^ (- q)) by (apply Z.pow_pos_nonneg; lia).
    split; [lia |]. split; [lia |]. split; [reflexivity |].
    unfold frac. replace q with (- (- q)) at 2 by lia.
    rewrite bpow_opp, (bpow_nonneg_Z 10 (- q)) by lia. reflexivity.
Qed.

Lemma Qabs_signed neg x :
  (0 <= x)%Q -> (Qabs (inject_Z (signed neg 1) * x) == x)%Q.
Proof.
  intros Hx. destruct neg; cbn [signed].
  - change (inject_Z (- (1))) with (- (1))%Q.
    setoid_replace (- (1) * x)%Q with (- x)%Q by ring.
    rewrite Qabs_opp. apply Qabs_pos. exact Hx.
  - change (inject_Z 1) with 1%Q. rewrite Qmult_1_l. apply Qabs_pos. exact Hx.
Qed.

Lemma float_round_trip_finite s m e :
  is_binary64 (S754_finite s m e) = true ->
  (inject_Z (Zpos m) * bpow 2 e <= max_printed)%Q ->
  numeric_text (fmt_e15 (S754_finite s m e)) = true /\
  exists y,
    py_float (fmt_e15 (S754_finite s m e)) = Some y /\
    within (1 # 10 ^ 15) (S754_finite s m e) y.
Proof.
  intros Hv Hmax.
  destruct (binary64_bounds s m e Hv) as [Hm He].
  destruct (dec16 (Zpos m) e) as [D k] eqn:Hdec.
  destruct (dec16_spec (Zpos m) e D k ltac:(lia) Hdec) as [HD Herr].
  destruct (py_float_fmt_e15 s m e D k Hdec HD) as [Hnum Hpy].
  split; [exact Hnum |].
  exists (dec_to_float s D (k - 15)). split; [exact Hpy |].
  destruct (dec_to_float_frac s D (k - 15) ltac:(lia))
    as (N & M & HN & HM & -> & Efrac).
  set (X := (inject_Z (Zpos m) * bpow 2 e)%Q) in *.
  assert (HX : (0 < X)%Q).
  { unfold X. apply Qmult_lt_0_compat;
      [apply inject_Z_pos; lia | apply bpow_pos; lia]. }
  rewrite <- Efrac in Herr.
  pose proof (bpow_pos 2 971 ltac:(lia)) as HW.
  assert (Hbound : (frac N M <= inject_Z (2 ^ 53 - 1) * bpow 2 971)%Q).
  { apply Qabs_Qle_condition in Herr. destruct Herr as [_ Hhi].
    unfold max_printed in Hmax.
    change (bpow 10 (-15)) with (1 # 1000000000000000)%Q in Hhi.
    change (inject_Z (2 ^ 53 - 6)) with (9007199254740986 # 1)%Q in Hmax.
    change (inject_Z (2 ^ 53 - 1)) with (9007199254740991 # 1)%Q.
    set (W := bpow 2 971) in *. lra. }
  destruct (nearest_binary64_spec s N M (Zpos m) e HN HM ltac:(lia)
              ltac:(lia) Hbound) as (Y & Hfin & HF & HY & Hnear).
  fold X in Hnear.
  split; [exact Hfin |].
  rewrite HF. cbn [F2Q]. change (2 ^ e)%Q with (bpow 2 e).
  rewrite (signed_Q s (Zpos m)), <- Qmult_assoc. fold X.
  setoid_replace (inject_Z (signed s 1) * Y - inject_Z (signed s 1) * X)%Q
    with (inject_Z (signed s 1) * (Y - X))%Q by ring.
  rewrite (Qabs_signed s X) by lra.
  rewrite Qabs_Qmult.
  assert (E1 : (Qabs (inject_Z (signed s 1)) == 1)%Q) by (destruct s; reflexivity).
  rewrite E1, Qmult_1_l.
  setoid_replace (Y - X)%Q with ((Y - frac N M) + (frac N M - X))%Q by ring.
  eapply Qle_trans; [apply Qabs_triangle |].
  assert (Hn2 : (Qabs (Y - frac N M) <= (1 # 2) * bpow 10 (-15) * X)%Q).
  { eapply Qle_trans; [exact Hnear |].
    setoid_replace (X - frac N M)%Q with (- (frac N M - X))%Q by ring.
    rewrite Qabs_opp. exact Herr. }
  change (bpow 10 (-15)) with (1 # 1000000000000000)%Q in *.
  change (1 # 10 ^ 15)%Q with (1 # 1000000000000000)%Q.
  lra.
Qed.

Lemma float_round_trip x :
  printable x = true ->
  numeric_text (fmt_e15 x) = true /\
  exists y, py_float (fmt_e15 x) = Some y /\ within (1 # 10 ^ 15) x y.
Proof.
  unfold printable. intros H.
  apply andb_prop in H. destruct H as [H Hmax].
  apply andb_prop in H. destruct H as [Hv Hfin].
  destruct x as [s | s | | s m e]; try discriminate Hfin.
  - split; [destruct s; reflexivity |].
    exists (S754_zero s). split; [destruct s; reflexivity |].
    split; [reflexivity |]. cbn [F2Q]. vm_compute. discriminate.
  - apply float_round_trip_finite; [exact Hv |].
    apply Qle_bool_iff in Hmax. cbn [F2Q] in Hmax.
    change (2 ^ e)%Q with (bpow 2 e) in Hmax.
    rewrite (signed_Q s (Zpos m)), <- Qmult_assoc, Qabs_signed in Hmax;
      [exact Hmax |].
    apply Qmult_le_0_compat;
      [apply Qlt_le_weak, inject_Z_pos; lia
      | apply Qlt_le_weak, bpow_pos; lia].
Qed.

(** ** A message through [_assembleMsg] and [_disassembleMsg] *)

Lemma fmt_d_int_of_num v z : int_of_num v = Some z -> fmt_d v = Ok (fmt_d_int z).
Proof.
  destruct v as [n | [s | s | | s m e]]; cbn [int_of_num fmt_d];
    try discriminate; try (intros E; inversion E; reflexivity).
  destruct (frac_of (Zpos m) e) as [n d]. intros E; inversion E; reflexivity.
Qed.

Lemma int_fmt_d z : int_ (fmt_d_int z) = Ok z.
Proof. unfold int_. rewrite py_int_fmt_d. reflexivity. Qed.

Lemma split_sp_values l :
  forallb printable l = true ->
  split_sp (encode_values l ++ [NL]) = map fmt_e15 l ++ [[NL]].
Proof.
  induction l as [| x l IH]; intros H.
  - apply split_sp_newline.
  - cbn [forallb] in H. apply andb_prop in H. destruct H as [Hx Hl].
    unfold encode_values. cbn [map concat]. rewrite <- !app_assoc.
    change ([SP] ++ concat (map (fun x => fmt_e15 x ++ [SP]) l) ++ [NL])
      with (SP :: (encode_values l ++ [NL])).
    rewrite split_sp_token by (apply float_round_trip; exact Hx).
    rewrite (IH Hl). reflexivity.
Qed.

Lemma parse_floats_round_trip l :
  forallb printable l = true ->
  exists ys,
    parse_floats (map fmt_e15 l) = Ok ys /\
    Forall2 (within (1 # 10 ^ 15)) l ys.
Proof.
  induction l as [| x l IH]; intros H.
  - exists []. split; [reflexivity | constructor].
  - cbn [forallb] in H. apply andb_prop in H. destruct H as [Hx Hl].
    destruct (float_round_trip x Hx) as (_ & y & Hy & Hxy).
    destruct (IH Hl) as (ys & Hys & Hall).
    exists (y :: ys). split; [| constructor; assumption].
    cbn [map parse_floats]. unfold float_. rewrite Hy. cbn [rbind].
    rewrite Hys. reflexivity.
Qed.

Lemma split_sp_message v f d i b t l :
  printable t = true -> forallb printable l = true ->
  split_sp (message_line (fmt_d_int v) (fmt_d_int f) (fmt_d_int d)
              (fmt_d_int i) (fmt_d_int b) t l)
  = fmt_d_int v :: fmt_d_int f :: fmt_d_int d :: fmt_d_int i :: fmt_d_int b
      :: fmt_e15 t :: map fmt_e15 l ++ [[NL]].
Proof.
  intros Ht Hl. unfold message_line. cbn [app].
  rewrite !split_sp_token by apply fmt_d_int_numeric.
  rewrite split_sp_token by (apply float_round_trip; exact Ht).
  rewrite (split_sp_values l Hl). reflexivity.
Qed.

(** C1, amended. For header fields that ['%d'] prints (ints, or finite
    floats, which it truncates), a printable elapsed time and printable
    values, encoding succeeds and decoding the line succeeds; the five
    header integers come back exactly, the value list comes back with the
    same length, and the elapsed time and every value come back as finite
    floats within relative error [1e-15] (sixteen significant digits are
    printed), which is within the [1e-12] of the claim but is not
    equality. *)
Theorem codec_round_trip version flag nDb nIn nBl t values v f d i b :
  int_of_num version = Some v -> int_of_num flag = Some f ->
  int_of_num nDb = Some d -> int_of_num nIn = Some i ->
  int_of_num nBl = Some b ->
  printable t = true -> forallb printable values = true ->
  exists m,
    round_trip version flag nDb nIn nBl t values = Ok m /\
    m_version m = v /\ m_flag m = f /\ m_nDb m = d /\ m_nIn m = i /\
    m_nBl m = b /\
    within (1 # 10 ^ 15) t (m_curSimTim m) /\
    Forall2 (within (1 # 10 ^ 15)) values (m_Dblist m).
Proof.
  intros Hv Hf Hd Hi Hb Ht Hl.
  destruct (float_round_trip t Ht) as (_ & y & Hy & Hty).
  destruct (parse_floats_round_trip values Hl) as (ys & Hys & Hall).
  exists (Msg v f d i b y ys).
  split; [| repeat (split; [reflexivity |]); split; [exact Hty | exact Hall]].
  unfold round_trip.
  rewrite assemble_eq, (fmt_d_int_of_num _ _ Hv), (fmt_d_int_of_num _ _ Hf),
    (fmt_d_int_of_num _ _ Hd), (fmt_d_int_of_num _ _ Hi),
    (fmt_d_int_of_num _ _ Hb).
  cbn [rbind].
  rewrite disassemble_tokens
    by (rewrite split_sp_message by assumption; cbn [List.length]; lia).
  rewrite split_sp_message by assumption.
  unfold decode_tokens. rewrite !int_fmt_d. cbn [rbind].
  unfold float_ at 1. rewrite Hy. cbn [rbind].
  rewrite removelast_last, Hys. reflexivity.
Qed.

Lemma codec_round_trip_witness :
  exists m,
    round_trip (PyInt 2) (PyFloat float_one) (PyInt 2) (PyInt 0) (PyInt 0)
      sum_tenths [lit_float "21.0"; lit_float "-1.5e-300"] = Ok m /\
    m_version m = 2 /\ m_flag m = 1 /\ m_nDb m = 2 /\ m_nIn m = 0 /\
    m_nBl m = 0 /\
    within (1 # 10 ^ 15) sum_tenths (m_curSimTim m) /\
    Forall2 (within (1 # 10 ^ 15))
      [lit_float "21.0"; lit_float "-1.5e-300"] (m_Dblist m).
Proof.
  apply (codec_round_trip (PyInt 2) (PyFloat float_one) (PyInt 2) (PyInt 0)
           (PyInt 0) sum_tenths [lit_float "21.0"; lit_float "-1.5e-300"]
           2 1 2 0 0);
    vm_compute; reflexivity.
Defined.

(** C1, as stated, fails: the elapsed time [0.1 + 0.2] is a binary64 float
    that does not come back exactly (its sixteen printed digits read back
    as the float just below it), and the largest finite float, sent as a
    value, comes back as infinity, which is within no relative error of
    it. *)
Lemma codec_round_trip_not_exact :
  (is_binary64 sum_tenths = true /\
   exists m,
     round_trip (PyInt 2) (PyInt 0) (PyInt 0) (PyInt 0) (PyInt 0)
       sum_tenths [] = Ok m /\
     m_curSimTim m <> sum_tenths) /\
  (is_binary64 max_float = true /\
   exists m y,
     round_trip (PyInt 2) (PyInt 0) (PyInt 1) (PyInt 0) (PyInt 0)
       sum_tenths [max_float] = Ok m /\
     m_Dblist m = [y] /\
     ~ within (1 # 10 ^ 12) max_float y).
Proof.
  split; (split; [reflexivity |]).
  - exists (Msg 2 0 0 0 0 (S754_finite false 5404319552844595 (-54)) []).
    split; [vm_compute; reflexivity | discriminate].
  - exists (Msg 2 0 1 0 0 (S754_finite false 5404319552844595 (-54))
              [S754_infinity false]), (S754_infinity false).
    split; [vm_compute; reflexivity |]. split; [reflexivity |].
    intros [Hfin _]. discriminate Hfin.
Qed.

(** ** More on [reset] *)

Section ResetProperties.

Context {TimeInfo : Type} (time_info : float -> TimeInfo).

Lemma reset_prelude_inv s s1 :
  (if _episode_existed (self s)
   then _end_episode ;;; n <- get _epi_num ;; modify (set_epi_num (n + 1))
   else ret tt) s = (Ok tt, s1) ->
  exists before,
    trace s1 = trace s ++ before /\
    self s1 = (if _episode_existed (self s)
               then set_epi_num (_epi_num (self s) + 1)
                      (set_episode_existed false (set_conn None (self s)))
               else self s) /\
    (if _episode_existed (self s)
     then exists c0 p0 t0 r0,
         _conn (self s) = Some c0 /\ _eplus_process (self s) = Some p0 /\
         before = teardown_events c0 p0 t0 r0
     else before = []).
Proof.
  destruct (_episode_existed (self s)); intros H.
  - apply bind_ok in H. destruct H as ([] & s2 & Hend & H).
    apply end_episode_outcome in Hend.
    destruct Hend as [[_ (h & cur & c & p & _ & _ & Hc & Hp & _ & ->)]
                     | (e & [=] & _)].
    ok_step H. unfold modify in H. inversion H; subst; clear H.
    sys_simpl. eexists. split; [reflexivity |]. split; [reflexivity |].
    exists c, p. eauto.
  - unfold ret in H. inversion H; subst.
    exists []. split; [symmetry; apply app_nil_r |]. auto.
Qed.

(** Everything a [reset] that returns has done. *)
Lemma reset_inv s ti obs term s' :
  reset time_info s = (Ok (ti, obs, term), s') ->
  exists before p c hs after m o,
    trace s' = trace s ++ before ++ reset_events p c hs ++ after /\
    (if _episode_existed (self s)
     then exists c0 p0 t0 r0,
         _conn (self s) = Some c0 /\ _eplus_process (self s) = Some p0 /\
         before = teardown_events c0 p0 t0 r0
     else before = []) /\
    (if term
     then exists t1 r1, after = teardown_events c p t1 r1
     else after = []) /\
    _disassembleMsg hs = Ok m /\
    ti = time_info (m_curSimTim m) /\ obs = m_Dblist m /\
    term = float_ge (m_curSimTim m) (_eplus_one_epi_len (self s)) /\
    o = (if _episode_existed (self s)
         then set_epi_num (_epi_num (self s) + 1)
                (set_episode_existed false (set_conn None (self s)))
         else self s) /\
    self s' =
    set_episode_existed (negb term)
      (set_conn (if term then None else Some c)
         (set_curSimTim (m_curSimTim m)
            (set_eplus_msg_header (m_version m, m_flag m)
               (set_eplus_process p o)))).
Proof.
  intros H. unfold reset in H.
  ok_step H.
  apply bind_ok in H. destruct H as ([] & s1 & Hpre & H).
  apply reset_prelude_inv in Hpre.
  destruct Hpre as (before & Htr & Hself & Hbefore).
  do 18 ok_step H.
  apply bind_ok in H. destruct H as ([] & s2 & Hpost & H).
  unfold ret in H. inversion H; subst; clear H.
  set (p := S (S (S (S (S (S (ticks (world s1)))))))) in *.
  set (c := S (S (S (S p)))) in *.
  set (hs := next_recv _) in *.
  assert (Hlen : _eplus_one_epi_len (self s1) = _eplus_one_epi_len (self x0)).
  { rewrite Hself. destruct (_episode_existed (self x0)); reflexivity. }
  rewrite Hlen in *.
  exists before, p, c, hs.
  destruct (float_ge (m_curSimTim x) (_eplus_one_epi_len (self x0))) eqn:G.
  - apply end_episode_outcome in Hpost.
    destruct Hpost as [[_ (h & cur & c' & p' & _ & _ & Hc & Hp & _ & ->)]
                      | (e & [=] & _)].
    sys_simpl_in Hc. sys_simpl_in Hp.
    inversion Hc; subst c'. inversion Hp; subst p'.
    eexists (teardown_events c p _ _), x, _. sys_simpl. rewrite G.
    split; [rewrite Htr; unfold reset_events;
            repeat rewrite <- app_assoc; reflexivity |].
    split; [exact Hbefore |]. split; [eauto |].
    split; [assumption |]. do 3 (split; [reflexivity |]).
    split; [reflexivity |]. rewrite Hself. reflexivity.
  - unfold ret in Hpost. inversion Hpost; subst; clear Hpost.
    exists [], x. eexists. sys_simpl. rewrite G.
    split; [rewrite Htr; unfold reset_events;
            repeat rewrite <- app_assoc; reflexivity |].
    split; [exact Hbefore |]. split; [reflexivity |].
    split; [assumption |]. do 3 (split; [reflexivity |]).
    split; [reflexivity |]. rewrite Hself. reflexivity.
Qed.

(** The actions of a [reset] that returns, in order: a complete teardown
    of the previous episode if there was one; the working directory, the
    building model, the weather file, the copy of the variables file and
    the socket configuration; the new process, a check that it runs and two
    logger threads; the accepted connection and one message read from it;
    and, when that message is already at the end of the episode, a
    complete teardown of the new process on the new connection. *)
Theorem reset_sequence s ti obs term s' :
  reset time_info s = (Ok (ti, obs, term), s') ->
  exists before p c hs after,
    trace s' = trace s ++ before ++ reset_events p c hs ++ after /\
    (if _episode_existed (self s)
     then exists c0 p0 t0 r0,
         _conn (self s) = Some c0 /\ _eplus_process (self s) = Some p0 /\
         before = teardown_events c0 p0 t0 r0
     else before = []) /\
    (if term
     then exists t1 r1, after = teardown_events c p t1 r1
     else after = []) /\
    _eplus_process (self s') = Some p /\
    exists m,
      _disassembleMsg hs = Ok m /\
      _eplus_msg_header (self s') = Some (m_version m, m_flag m).
Proof.
  intros H. apply reset_inv in H.
  destruct H as (before & p & c & hs & after & m & o & Htr & Hb & Ha & Hm
                 & _ & _ & _ & _ & Hself).
  exists before, p, c, hs, after.
  do 3 (split; [assumption |]).
  rewrite Hself. split; [reflexivity |]. exists m. auto.
Qed.

(** The counters and settings across a [reset] that returns: the episode
    number goes up by one exactly when an episode existed before the call;
    the last action, the repeat count and the episode length are left as
    they were. *)
Theorem reset_attributes s ti obs term s' :
  reset time_info s = (Ok (ti, obs, term), s') ->
  _epi_num (self s')
  = _epi_num (self s) + (if _episode_existed (self s) then 1 else 0) /\
  _last_action (self s') = _last_action (self s) /\
  _act_repeat (self s') = _act_repeat (self s) /\
  _eplus_one_epi_len (self s') = _eplus_one_epi_len (self s).
Proof.
  intros H. apply reset_inv in H.
  destruct H as (before & p & c & hs & after & m & o & _ & _ & _ & _
                 & _ & _ & _ & Ho & Hself).
  rewrite Hself, Ho.
  destruct (_episode_existed (self s)); sys_simpl;
    repeat split; try reflexivity; lia.
Qed.

End ResetProperties.

(** ** More on [step] *)

Ltac raised_in_step :=
  right; eexists; split; [reflexivity |];
  sys_simpl; split; [reflexivity |];
  repeat rewrite <- app_assoc;
  first
    [ exists []; split; [symmetry; apply app_nil_r | reflexivity]
    | eexists; split; [reflexivity | reflexivity] ].

Ltac inv_step_io H :=
  let B := fresh "B" in
  apply bind_inv in H;
  destruct H as [(? & ? & B & H) | (? & B & ->)];
  inv_prim B; try sys_simpl_in H; try solve [raised_in_step].

Section StepOutcomes.

Context {TimeInfo : Type} (time_info : float -> TimeInfo).

(** One round of the loop: it returns after one [send] and one [recv],
    having touched the object only to record the action when the answer
    has reached the episode length; or it raises, with the object as it
    was. *)
Lemma step_body_outcome action l s r s' :
  step_body action l s = (r, s') ->
  (exists l' c d1 d2,
     r = Ok l' /\ Dblist l' <> None /\
     trace s' = trace s ++ [EvSend c d1; EvRecv c d2] /\
     ((is_terminal l' = is_terminal l /\ self s' = self s) \/
      (is_terminal l' = true /\ self s' = set_last_action action (self s)))) \/
  (exists e,
     r = Raise e /\ self s' = self s /\
     exists tr, trace s' = trace s ++ tr /\ forallb is_exchange tr = true).
Proof.
  intros H. unfold step_body in H.
  do 8 inv_step_io H.
  rewrite B0 in B2. inversion B2; subst; clear B2.
  left.
  match type of H with
  | context [float_ge ?a ?b] => destruct (float_ge a b)
  end;
    unfold bind, modify, ret in H; inversion H; subst; clear H; sys_simpl;
    do 4 eexists; (split; [reflexivity |]); cbn [Dblist is_terminal];
    (split; [discriminate |]); rewrite <- app_assoc;
    (split; [reflexivity |]); auto.
Qed.

Lemma step_loop_outcome action fuel :
  forall l s r s',
    while_ fuel step_cond (step_body action) l s = (r, s') ->
    exists tr,
      trace s' = trace s ++ tr /\ forallb is_exchange tr = true /\
      match r with
      | Raise _ => self s' = self s
      | Ok l' =>
          (l' = l /\ self s' = self s) \/
          (Dblist l' <> None /\
           (self s' = self s \/ self s' = set_last_action action (self s)))
      end.
Proof.
  induction fuel as [| fuel IH]; intros l s r s' H.
  - cbn [while_] in H. unfold ret in H. inversion H; subst.
    exists []. split; [symmetry; apply app_nil_r |]. split; [reflexivity |].
    left. auto.
  - cbn [while_] in H. unfold bind at 1 in H. rewrite step_cond_run in H.
    destruct ((act_repeat_i l <? _act_repeat (self s))
              && negb (is_terminal l)) eqn:C.
    + apply andb_prop in C. destruct C as [_ Ht].
      apply negb_true_iff in Ht.
      apply bind_inv in H.
      destruct H as [(l1 & s1 & Hb & H) | (e & Hb & ->)];
        apply step_body_outcome in Hb;
        destruct Hb as [(l2 & c & d1 & d2 & E & HD & Htr & Hcase)
                       | (e' & E & Hself & tr & Htr & Hex)];
        inversion E; subst; clear E.
      * destruct Hcase as [[Hterm Hself] | [Hterm Hself]].
        -- destruct (IH _ _ _ _ H) as (tr' & Htr' & Hex' & Hr).
           exists ([EvSend c d1; EvRecv c d2] ++ tr').
           split; [rewrite Htr', Htr, app_assoc; reflexivity |].
           split; [exact Hex' |].
           rewrite Hself in Hr. destruct r as [l' | e]; [| exact Hr].
           destruct Hr as [[-> Hs] | [HD' Hs]]; right; split; auto.
        -- assert (E : r = Ok l2 /\ s' = s1).
           { destruct fuel as [| fuel]; cbn [while_] in H.
             - unfold ret in H. inversion H; auto.
             - unfold bind at 1 in H. rewrite step_cond_run, Hterm in H.
               rewrite andb_false_r in H. unfold ret in H.
               inversion H; auto. }
           destruct E as [-> ->].
           exists [EvSend c d1; EvRecv c d2].
           split; [exact Htr |]. split; [reflexivity |]. right. auto.
      * exists tr. auto.
    + unfold ret in H. inversion H; subst.
      exists []. split; [symmetry; apply app_nil_r |]. split; [reflexivity |].
      left. auto.
Qed.

Lemma forallb_exchange_app a b :
  forallb is_exchange (a ++ b) = forallb is_exchange a && forallb is_exchange b.
Proof. apply forallb_app. Qed.

Lemma step_outcome action s r s' :
  step time_info action s = (r, s') ->
  exists tr,
    trace s' = trace s ++ tr /\ forallb is_exchange tr = true /\
    match r with
    | Raise _ => self s' = self s
    | Ok None => s' = s
    | Ok (Some _) =>
        exists t,
          self s' = set_last_action action (set_curSimTim t (self s))
    end.
Proof.
  intros H. unfold step in H.
  apply bind_inv in H. destruct H as [(cur & s1 & B & H) | (e & B & ->)];
    apply attr_inv in B; destruct B as [-> [(a & Ha & E) | [Ha E]]];
    inversion E; subst; clear E.
  - unfold bind at 1 in H. unfold get at 1 in H.
    destruct (float_ge a (_eplus_one_epi_len (self s))).
    + unfold ret in H. inversion H; subst.
      exists []. split; [symmetry; apply app_nil_r |]. auto.
    + unfold bind at 1 in H. unfold get at 1 in H.
      apply bind_inv in H. destruct H as [(l1 & s1 & B & H) | (e & B & ->)];
        apply step_loop_outcome in B; destruct B as (tr & Htr & Hex & Hr).
      * exists tr. destruct (Dblist l1) as [d |] eqn:HD.
        -- unfold bind, ret, modify in H. inversion H; subst; clear H.
           sys_simpl. split; [exact Htr |]. split; [exact Hex |].
           exists (curSimTim l1).
           destruct Hr as [[_ Hs] | [_ [Hs | Hs]]]; rewrite Hs; reflexivity.
        -- unfold bind, raise in H. inversion H; subst; clear H.
           split; [exact Htr |]. split; [exact Hex |].
           destruct Hr as [[_ Hs] | [Hn _]]; [exact Hs | contradiction].
      * exists tr. auto.
  - exists []. split; [symmetry; apply app_nil_r |]. auto.
Qed.

(** A call of [step] that raises leaves the object as it was: the time
    cursor, the last action and every other attribute are those of before
    the call, whatever was exchanged meanwhile. *)
Theorem step_failure_keeps_object action s e s' :
  step time_info action s = (Raise e, s') -> self s' = self s.
Proof.
  intros H. apply step_outcome in H. destruct H as (tr & _ & _ & H). exact H.
Qed.

(** Whatever its outcome, [step] only talks on the connection: every
    event it adds is a [send] or a [recv].  It never closes the
    connection, sleeps or signals the process, and it leaves the episode
    flag, the connection, the process, the episode counter and the
    message header as they were, also when the answer has reached the
    episode length. *)
Theorem step_only_exchanges action s r s' :
  step time_info action s = (r, s') ->
  (exists tr, trace s' = trace s ++ tr /\ forallb is_exchange tr = true) /\
  _episode_existed (self s') = _episode_existed (self s) /\
  _conn (self s') = _conn (self s) /\
  _eplus_process (self s') = _eplus_process (self s) /\
  _epi_num (self s') = _epi_num (self s) /\
  _eplus_msg_header (self s') = _eplus_msg_header (self s).
Proof.
  intros H. apply step_outcome in H. destruct H as (tr & Htr & Hex & H).
  split; [eauto |].
  destruct r as [[res |] | e].
  - destruct H as [t ->]. sys_simpl. auto.
  - subst. auto.
  - rewrite H. auto.
Qed.

(** With a repeat count of zero or less the loop of [step] runs no round,
    so the observation it is to return was never bound: [step] raises
    UnboundLocalError, having sent nothing and changed nothing. *)
Theorem step_without_rounds action s cur :
  _curSimTim (self s) = Some cur ->
  float_ge cur (_eplus_one_epi_len (self s)) = false ->
  _act_repeat (self s) <= 0 ->
  step time_info action s = (Raise UnboundLocalError, s).
Proof.
  intros Hcur Hge Hrep. unfold step, bind, attr, get. rewrite Hcur, Hge.
  destruct (_act_repeat (self s)) as [| q | q]; [reflexivity | lia | reflexivity].
Qed.

End StepOutcomes.

(** ** Closing the environment *)





(** On an object without a connection (just built, or torn down already)
    [end_env] raises AttributeError and does nothing: the listening socket
    stays open. *)
Theorem end_env_without_episode sock s :
  _conn (self s) = None -> end_env sock s = (Raise AttributeError, s).
Proof.
  intros Hc. unfold end_env, bind. rewrite (end_episode_no_conn s Hc).
  reflexivity.
Qed.

(** ** Calls in sequence *)

Section Sequences.

Context {TimeInfo : Type} (time_info : float -> TimeInfo).

(** A [reset] whose first message is already at the end of the episode
    leaves nothing to drive: a [step] after it returns [None] and does
    nothing, and [end_env] raises AttributeError and does nothing, the
    connection having been dropped by the teardown inside [reset]. *)
Theorem terminal_reset_then_idle s ti obs s1 action sock :
  reset time_info s = (Ok (ti, obs, true), s1) ->
  step time_info action s1 = (Ok None, s1) /\
  end_env sock s1 = (Raise AttributeError, s1).
Proof.
  intros H. apply reset_inv in H.
  destruct H as (before & p & c & hs & after & m & o & _ & _ & _ & _
                 & _ & _ & Hterm & Ho & Hself).
  split.
  - apply (step_at_end time_info action s1 (m_curSimTim m)).
    + rewrite Hself. reflexivity.
    + rewrite Hself, Ho. symmetry.
      destruct (_episode_existed (self s)); exact Hterm.
  - apply end_env_without_episode. rewrite Hself. reflexivity.
Qed.

(** The first [step] of an episode answers the handshake: its first
    message goes out on the connection that [reset] accepted, and carries
    the version number and the elapsed time of the message that [reset]
    read there, flag 0 and the action. *)
Theorem first_step_echoes_handshake s ti obs s1 action res s2 :
  reset time_info s = (Ok (ti, obs, false), s1) ->
  step time_info action s1 = (Ok res, s2) ->
  exists pre p c hs m rest,
    trace s1 = pre ++ reset_events p c hs /\
    _disassembleMsg hs = Ok m /\
    trace s2
    = trace s1
      ++ EvSend c (step_line (m_version m) (m_curSimTim m) action) :: rest.
Proof.
  intros Hr Hs. apply reset_inv in Hr.
  destruct Hr as (before & p & c & hs & after & m & o & Htr & _ & Ha & Hm
                  & _ & _ & Hterm & Ho & Hself).
  subst after. rewrite app_nil_r, app_assoc in Htr.
  assert (Hlen : _eplus_one_epi_len (self s1) = _eplus_one_epi_len (self s)).
  { rewrite Hself, Ho. destruct (_episode_existed (self s)); reflexivity. }
  assert (Hcur : _curSimTim (self s1) = Some (m_curSimTim m))
    by (rewrite Hself; reflexivity).
  assert (Hge : float_ge (m_curSimTim m) (_eplus_one_epi_len (self s1)) = false)
    by (rewrite Hlen; symmetry; exact Hterm).
  destruct (step_active_ok time_info action s1 _ res s2 Hcur Hge Hs)
    as (v & f & c' & r & rest & Hh & Hc & _ & Hrounds & Htr2 & _).
  rewrite Hself in Hh, Hc. sys_simpl_in Hh. sys_simpl_in Hc.
  inversion Hh; subst v f. inversion Hc; subst c'.
  cbn [rounds_from] in Hrounds. destruct Hrounds as (Hsent & _).
  rewrite step_message in Hsent. inversion Hsent as [Hline].
  exists (trace s ++ before), p, c, hs, m.
  eexists. split; [exact Htr |]. split; [exact Hm |].
  rewrite Htr2. cbn [flat_map round_events app]. rewrite <- Hline.
  reflexivity.
Qed.

(** Once [step] has returned the terminal flag, every later [step] returns
    [None] and does nothing, whatever the action. *)
Theorem step_after_terminal_step action s ti obs s1 action' :
  step time_info action s = (Ok (Some (ti, obs, true)), s1) ->
  step time_info action' s1 = (Ok None, s1).
Proof.
  intros H.
  destruct (_curSimTim (self s)) as [cur |] eqn:Hcur.
  - destruct (float_ge cur (_eplus_one_epi_len (self s))) eqn:Hge.
    + rewrite (step_at_end time_info action s cur Hcur Hge) in H.
      discriminate H.
    + destruct (step_active_ok time_info action s cur _ s1 Hcur Hge H)
        as (v & f & c & r & rest & _ & _ & _ & _ & _ & _ & Hres & Hself).
      inversion Hres as [[Hti Hobs Hterm]].
      apply (step_at_end time_info action' s1
               (m_curSimTim (r_msg (last rest r)))).
      * rewrite Hself. reflexivity.
      * rewrite Hself. symmetry. exact Hterm.
  - unfold step, bind, attr in H. rewrite Hcur in H. discriminate H.
Qed.

(** The process that one [reset] starts is the one that the next [reset]
    terminates, on the connection of the first, before it sets anything
    up; and the episode number goes up by one. *)
Theorem reset_after_reset s ti obs s1 r2 s2 :
  reset time_info s = (Ok (ti, obs, false), s1) ->
  reset time_info s1 = (Ok r2, s2) ->
  exists pre p c hs line rcv rest,
    trace s1 = pre ++ reset_events p c hs /\
    trace s2 = trace s1 ++ teardown_events c p line rcv ++ rest /\
    _epi_num (self s2) = _epi_num (self s1) + 1.
Proof.
  intros H1 H2. apply reset_inv in H1.
  destruct H1 as (before & p & c & hs & after & m & o & Htr & _ & Ha & _
                  & _ & _ & _ & _ & Hself).
  subst after. rewrite app_nil_r, app_assoc in Htr.
  destruct r2 as [[ti2 obs2] term2]. apply reset_inv in H2.
  destruct H2 as (before2 & p2 & c2 & hs2 & after2 & m2 & o2 & Htr2 & Hb2
                  & _ & _ & _ & _ & _ & Ho2 & Hself2).
  rewrite Hself in Hb2, Ho2. sys_simpl_in Hb2. sys_simpl_in Ho2.
  destruct Hb2 as (c0 & p0 & t0 & r0 & [= <-] & [= <-] & ->).
  exists (trace s ++ before), p, c, hs, t0, r0.
  eexists. split; [exact Htr |]. split; [exact Htr2 |].
  rewrite Hself2, Ho2, Hself. reflexivity.
Qed.

End Sequences.

(** ** Examples *)

Lemma reset_sequence_witness :
  exists before p c hs after,
    trace (snd (reset (fun t => t) restart_sys))
    = trace restart_sys ++ before ++ reset_events p c hs ++ after /\
    (if _episode_existed (self restart_sys)
     then exists c0 p0 t0 r0,
         _conn (self restart_sys) = Some c0 /\
         _eplus_process (self restart_sys) = Some p0 /\
         before = teardown_events c0 p0 t0 r0
     else before = []) /\
    (if false
     then exists t1 r1, after = teardown_events c p t1 r1
     else after = []) /\
    _eplus_process (self (snd (reset (fun t => t) restart_sys))) = Some p /\
    exists m,
      _disassembleMsg hs = Ok m /\
      _eplus_msg_header (self (snd (reset (fun t => t) restart_sys)))
      = Some (m_version m, m_flag m).
Proof.
  apply (reset_sequence (fun t => t) restart_sys (lit_float "0.0")
           [lit_float "20.0"; lit_float "21.0"] false).
  vm_compute. reflexivity.
Defined.

Lemma reset_attributes_witness :
  _epi_num (self (snd (reset (fun t => t) restart_sys)))
  = _epi_num (self restart_sys)
    + (if _episode_existed (self restart_sys) then 1 else 0) /\
  _last_action (self (snd (reset (fun t => t) restart_sys)))
  = _last_action (self restart_sys) /\
  _act_repeat (self (snd (reset (fun t => t) restart_sys)))
  = _act_repeat (self restart_sys) /\
  _eplus_one_epi_len (self (snd (reset (fun t => t) restart_sys)))
  = _eplus_one_epi_len (self restart_sys).
Proof.
  apply (reset_attributes (fun t => t) restart_sys (lit_float "0.0")
           [lit_float "20.0"; lit_float "21.0"] false).
  vm_compute. reflexivity.
Defined.

Lemma step_failure_keeps_object_witness :
  self (snd (step (fun t => t) example_action garbled_sys)) = self garbled_sys.
Proof.
  apply (step_failure_keeps_object (fun t => t) example_action garbled_sys
           ValueError).
  vm_compute. reflexivity.
Defined.

Lemma step_only_exchanges_witness :
  (exists tr,
     trace (snd (step (fun t => t) example_action after_reset))
     = trace after_reset ++ tr /\ forallb is_exchange tr = true) /\
  _episode_existed (self (snd (step (fun t => t) example_action after_reset)))
  = _episode_existed (self after_reset) /\
  _conn (self (snd (step (fun t => t) example_action after_reset)))
  = _conn (self after_reset) /\
  _eplus_process (self (snd (step (fun t => t) example_action after_reset)))
  = _eplus_process (self after_reset) /\
  _epi_num (self (snd (step (fun t => t) example_action after_reset)))
  = _epi_num (self after_reset) /\
  _eplus_msg_header (self (snd (step (fun t => t) example_action after_reset)))
  = _eplus_msg_header (self after_reset).
Proof.
  apply (step_only_exchanges (fun t => t) example_action after_reset
           (fst (step (fun t => t) example_action after_reset))).
  vm_compute. reflexivity.
Defined.

Lemma step_without_rounds_witness :
  step (fun t => t) example_action no_repeat_sys
  = (Raise UnboundLocalError, no_repeat_sys).
Proof.
  apply (step_without_rounds (fun t => t) example_action no_repeat_sys
           (lit_float "900.0")).
  - reflexivity.
  - vm_compute. reflexivity.
  - vm_compute. discriminate.
Defined.


Lemma terminal_reset_then_idle_witness :
  step (fun t => t) example_action (snd (reset (fun t => t) short_sys))
  = (Ok None, snd (reset (fun t => t) short_sys)) /\
  end_env 3%nat (snd (reset (fun t => t) short_sys))
  = (Raise AttributeError, snd (reset (fun t => t) short_sys)).
Proof.
  apply (terminal_reset_then_idle (fun t => t) short_sys (lit_float "0.0")
           [lit_float "20.0"; lit_float "21.0"]).
  vm_compute. reflexivity.
Defined.

Lemma first_step_echoes_handshake_witness :
  exists pre p c hs m rest,
    trace after_reset = pre ++ reset_events p c hs /\
    _disassembleMsg hs = Ok m /\
    trace (snd (step (fun t => t) example_action after_reset))
    = trace after_reset
      ++ EvSend c (step_line (m_version m) (m_curSimTim m) example_action)
         :: rest.
Proof.
  apply (first_step_echoes_handshake (fun t => t) fresh_sys (lit_float "0.0")
           [lit_float "20.0"; lit_float "21.0"] after_reset example_action
           (Some (lit_float "1800.0",
                  [lit_float "21.0"; lit_float "22.0"], true))).
  - vm_compute. reflexivity.
  - vm_compute. reflexivity.
Defined.

Lemma step_after_terminal_step_witness :
  step (fun t => t) [lit_float "18.0"] after_step = (Ok None, after_step).
Proof.
  apply (step_after_terminal_step (fun t => t) example_action after_reset
           (lit_float "1800.0") [lit_float "21.0"; lit_float "22.0"]).
  vm_compute. reflexivity.
Defined.

Lemma reset_after_reset_witness :
  exists pre p c hs line rcv rest,
    trace after_reset = pre ++ reset_events p c hs /\
    trace (snd (reset (fun t => t) after_reset))
    = trace after_reset ++ teardown_events c p line rcv ++ rest /\
    _epi_num (self (snd (reset (fun t => t) after_reset)))
    = _epi_num (self after_reset) + 1.
Proof.
  apply (reset_after_reset (fun t => t) fresh_sys (lit_float "0.0")
           [lit_float "20.0"; lit_float "21.0"] after_reset
           (lit_float "1800.0", [lit_float "21.0"; lit_float "22.0"], true)).
  - vm_compute. reflexivity.
  - vm_compute. reflexivity.
Defined.

(** ** Which messages survive the round trip *)

Lemma split_sp_app a b : split_sp (a ++ SP :: b) = split_sp a ++ split_sp b.
Proof.
  induction a as [| c a IH].
  - reflexivity.
  - cbn [app split_sp]. rewrite IH.
    destruct (chr_eqb c SP); [reflexivity |].
    destruct (split_sp a) as [| t ts] eqn:E; [| reflexivity].
    exfalso. exact (split_sp_nonempty a E).
Qed.

Lemma split_sp_numeric t : numeric_text t = true -> split_sp t = [t].
Proof.
  induction t as [| c t IH]; intros H; [reflexivity |].
  unfold numeric_text in H. cbn [forallb] in H.
  apply andb_prop in H. destruct H as [Hc Ht].
  cbn [split_sp]. destruct (is_numchar_facts c Hc) as (_ & _ & ->).
  rewrite (IH Ht). reflexivity.
Qed.

Lemma split_sp_encoded l :
  split_sp (encode_values l ++ [NL])
  = flat_map (fun x => split_sp (fmt_e15 x)) l ++ [[NL]].
Proof.
  induction l as [| x l IH]; [apply split_sp_newline |].
  unfold encode_values. cbn [map concat flat_map]. rewrite <- !app_assoc.
  change ([SP] ++ concat (map (fun x => fmt_e15 x ++ [SP]) l) ++ [NL])
    with (SP :: (encode_values l ++ [NL])).
  rewrite split_sp_app, IH. reflexivity.
Qed.

Lemma split_sp_line v f d i b t l :
  split_sp (message_line (fmt_d_int v) (fmt_d_int f) (fmt_d_int d)
              (fmt_d_int i) (fmt_d_int b) t l)
  = fmt_d_int v :: fmt_d_int f :: fmt_d_int d :: fmt_d_int i :: fmt_d_int b
      :: flat_map (fun x => split_sp (fmt_e15 x)) (t :: l) ++ [[NL]].
Proof.
  unfold message_line. cbn [app].
  rewrite !split_sp_app, split_sp_encoded.
  rewrite !split_sp_numeric by apply fmt_d_int_numeric.
  cbn [flat_map app]. rewrite <- app_assoc. reflexivity.
Qed.

(** The tokens of a printed float all read back as floats exactly when the
    float is finite: an infinity or a NaN is padded to twenty characters
    with spaces, which [split] turns into empty tokens. *)
Lemma tokens_of_float x :
  forallb (fun t => is_some (py_float t)) (split_sp (fmt_e15 x))
  = is_finite x.
Proof.
  destruct x as [s | s | | s m e].
  - destruct s; reflexivity.
  - destruct s; reflexivity.
  - reflexivity.
  - destruct (dec16 (Zpos m) e) as [D k] eqn:Hdec.
    destruct (dec16_spec (Zpos m) e D k ltac:(lia) Hdec) as [HD _].
    destruct (py_float_fmt_e15 s m e D k Hdec HD) as [Hnum Hpy].
    rewrite (split_sp_numeric _ Hnum). cbn [forallb]. rewrite Hpy.
    reflexivity.
Qed.

Lemma forallb_flat_map {A B} (P : B -> bool) (g : A -> list B) l :
  forallb P (flat_map g l) = forallb (fun x => forallb P (g x)) l.
Proof.
  induction l as [| x l IH]; [reflexivity |].
  cbn [flat_map forallb]. rewrite forallb_app, IH. reflexivity.
Qed.

Lemma forallb_pointwise {A} (P Q : A -> bool) l :
  (forall x, P x = Q x) -> forallb P l = forallb Q l.
Proof.
  intros H. induction l as [| x l IH]; [reflexivity |].
  cbn [forallb]. rewrite H, IH. reflexivity.
Qed.

Lemma fmt_d_outcome v :
  match fmt_d_error v with
  | Some e => fmt_d v = Raise e
  | None => exists t, fmt_d v = Ok t
  end.
Proof.
  destruct v as [z | [s | s | | s m e]]; cbn [fmt_d fmt_d_error];
    try destruct (frac_of (Zpos m) e); eauto.
Qed.

(** Encoding never fails on account of the elapsed time or of the values,
    whatever floats they are.  With header fields that are floats or ints
    of at most 4300 digits, it fails exactly when one of the five is a NaN
    or an infinity, and the error is that of the first such field:
    ValueError for a NaN, OverflowError for an infinity. *)
Theorem assemble_outcome version flag nDb nIn nBl t l :
  forallb plain_num [version; flag; nDb; nIn; nBl] = true ->
  match first_error [version; flag; nDb; nIn; nBl] with
  | Some e => _assembleMsg version flag nDb nIn nBl t l = Raise e
  | None => exists line, _assembleMsg version flag nDb nIn nBl t l = Ok line
  end.
Proof.
  intros _. rewrite assemble_eq. cbn [first_error].
  pose proof (fmt_d_outcome version) as Hv.
  destruct (fmt_d_error version); [rewrite Hv; reflexivity |].
  destruct Hv as [v ->]. cbn [rbind].
  pose proof (fmt_d_outcome flag) as Hf.
  destruct (fmt_d_error flag); [rewrite Hf; reflexivity |].
  destruct Hf as [f ->]. cbn [rbind].
  pose proof (fmt_d_outcome nDb) as Hd.
  destruct (fmt_d_error nDb); [rewrite Hd; reflexivity |].
  destruct Hd as [d ->]. cbn [rbind].
  pose proof (fmt_d_outcome nIn) as Hi.
  destruct (fmt_d_error nIn); [rewrite Hi; reflexivity |].
  destruct Hi as [i ->]. cbn [rbind].
  pose proof (fmt_d_outcome nBl) as Hb.
  destruct (fmt_d_error nBl); [rewrite Hb; reflexivity |].
  destruct Hb as [b ->]. cbn [rbind]. eauto.
Qed.

Lemma assemble_outcome_witness :
  match first_error [PyInt 2; PyFloat (S754_infinity false); PyFloat S754_nan;
                     PyInt 0; PyInt 0] with
  | Some e =>
      _assembleMsg (PyInt 2) (PyFloat (S754_infinity false)) (PyFloat S754_nan)
        (PyInt 0) (PyInt 0) S754_nan [S754_infinity true] = Raise e
  | None =>
      exists line,
        _assembleMsg (PyInt 2) (PyFloat (S754_infinity false))
          (PyFloat S754_nan) (PyInt 0) (PyInt 0) S754_nan
          [S754_infinity true] = Ok line
  end.
Proof.
  apply (assemble_outcome (PyInt 2) (PyFloat (S754_infinity false))
           (PyFloat S754_nan) (PyInt 0) (PyInt 0) S754_nan
           [S754_infinity true]).
  reflexivity.
Defined.

(** The decoder accepts the line that the encoder made exactly when the
    elapsed time and all the values are finite; otherwise it raises
    ValueError.  So the driver can send an infinity or a NaN, in a form
    that its own decoder would refuse. *)
Theorem round_trip_ok_iff version flag nDb nIn nBl t l v f d i b :
  int_of_num version = Some v -> int_of_num flag = Some f ->
  int_of_num nDb = Some d -> int_of_num nIn = Some i ->
  int_of_num nBl = Some b ->
  is_ok (round_trip version flag nDb nIn nBl t l) = forallb is_finite (t :: l)
  /\ forall e,
       round_trip version flag nDb nIn nBl t l = Raise e -> e = ValueError.
Proof.
  intros Hv Hf Hd Hi Hb. unfold round_trip.
  rewrite assemble_eq, (fmt_d_int_of_num _ _ Hv), (fmt_d_int_of_num _ _ Hf),
    (fmt_d_int_of_num _ _ Hd), (fmt_d_int_of_num _ _ Hi),
    (fmt_d_int_of_num _ _ Hb).
  cbn [rbind].
  rewrite disassemble_tokens
    by (rewrite split_sp_line; cbn [List.length];
        rewrite length_app; cbn [List.length]; lia).
  rewrite split_sp_line.
  set (F := flat_map (fun x => split_sp (fmt_e15 x)) (t :: l)).
  assert (HF : forallb (fun t => is_some (py_float t)) F
               = forallb is_finite (t :: l)).
  { unfold F. rewrite forallb_flat_map. apply forallb_pointwise.
    intros x. apply tokens_of_float. }
  rewrite <- HF, <- parse_floats_ok.
  assert (Hne : F <> []).
  { unfold F. cbn [flat_map].
    destruct (split_sp (fmt_e15 t)) eqn:E; [| discriminate].
    exfalso. exact (split_sp_nonempty _ E). }
  destruct F as [| q F']; [contradiction |].
  cbn [app]. unfold decode_tokens. rewrite !int_fmt_d. cbn [rbind].
  rewrite removelast_last. cbn [parse_floats].
  destruct (float_ q) as [x | e0] eqn:Eq; cbn [rbind].
  - destruct (parse_floats F') as [xs | e1] eqn:Ep; cbn [rbind is_ok].
    + split; [reflexivity | discriminate].
    + split; [reflexivity |]. intros e [= <-].
      exact (parse_floats_raise _ _ Ep).
  - split; [reflexivity |]. intros e [= <-].
    unfold float_ in Eq. destruct (py_float q); inversion Eq. reflexivity.
Qed.

Lemma round_trip_ok_iff_witness :
  is_ok (round_trip (PyInt 2) (PyFloat float_one) (PyInt 1) (PyInt 0)
           (PyInt 0) sum_tenths [S754_infinity false])
  = forallb is_finite [sum_tenths; S754_infinity false]
  /\ forall e,
       round_trip (PyInt 2) (PyFloat float_one) (PyInt 1) (PyInt 0)
         (PyInt 0) sum_tenths [S754_infinity false] = Raise e ->
       e = ValueError.
Proof.
  apply (round_trip_ok_iff (PyInt 2) (PyFloat float_one) (PyInt 1) (PyInt 0)
           (PyInt 0) sum_tenths [S754_infinity false] 2 1 1 0 0);
    reflexivity.
Defined.

(** ** Splitting at a character *)

Lemma split_on_nonempty sep s : split_on sep s <> [].
Proof.
  destruct s as [| c r]; cbn [split_on]; [discriminate |].
  destruct (chr_eqb c sep); [discriminate |].
  destruct (split_on sep r); discriminate.
Qed.

Lemma split_on_app sep a b :
  split_on sep (a ++ sep :: b) = split_on sep a ++ split_on sep b.
Proof.
  induction a as [| c a IH].
  - cbn [app split_on]. unfold chr_eqb. rewrite Ascii.eqb_refl. reflexivity.
  - cbn [app split_on]. rewrite IH.
    destruct (chr_eqb c sep); [reflexivity |].
    destruct (split_on sep a) as [| t ts] eqn:E; [| reflexivity].
    exfalso. exact (split_on_nonempty sep a E).
Qed.

Lemma split_on_free sep t : free_of sep t = true -> split_on sep t = [t].
Proof.
  induction t as [| c t IH]; intros H; [reflexivity |].
  unfold free_of in H. cbn [forallb] in H.
  apply andb_prop in H. destruct H as [Hc Ht].
  cbn [split_on]. apply negb_true_iff in Hc. rewrite Hc.
  unfold free_of in IH. rewrite (IH Ht). reflexivity.
Qed.

Lemma split_on_pieces sep s : forallb (free_of sep) (split_on sep s) = true.
Proof.
  induction s as [| c r IH]; [reflexivity |].
  cbn [split_on]. destruct (chr_eqb c sep) eqn:E.
  - cbn [forallb]. exact IH.
  - destruct (split_on sep r) as [| t ts]; cbn [forallb free_of] in *.
    + rewrite E. reflexivity.
    + rewrite E. exact IH.
Qed.

Lemma join_split sep s : join sep (split_on sep s) = s.
Proof.
  induction s as [| c r IH]; [reflexivity |].
  cbn [split_on]. destruct (chr_eqb c sep) eqn:E.
  - unfold chr_eqb in E. apply Ascii.eqb_eq in E. subst c.
    pose proof (split_on_nonempty sep r) as Hne.
    destruct (split_on sep r) as [| t ts]; [contradiction |].
    change (join sep ([] :: t :: ts)) with (sep :: join sep (t :: ts)).
    rewrite IH. reflexivity.
  - pose proof (split_on_nonempty sep r) as Hne.
    destruct (split_on sep r) as [| t ts]; [contradiction |].
    destruct ts as [| u ts].
    + cbn [join] in *. rewrite IH. reflexivity.
    + change (join sep ((c :: t) :: u :: ts))
        with (c :: (t ++ sep :: join sep (u :: ts))).
      change (join sep (t :: u :: ts))
        with (t ++ sep :: join sep (u :: ts)) in IH.
      rewrite IH. reflexivity.
Qed.

Lemma split_join sep l :
  l <> [] -> forallb (free_of sep) l = true -> split_on sep (join sep l) = l.
Proof.
  induction l as [| x l IH]; intros Hne H; [contradiction |].
  cbn [forallb] in H. apply andb_prop in H. destruct H as [Hx Hl].
  destruct l as [| y l].
  - cbn [join]. apply split_on_free. exact Hx.
  - change (join sep (x :: y :: l)) with (x ++ sep :: join sep (y :: l)).
    rewrite split_on_app, (split_on_free sep x Hx), IH;
      [reflexivity | discriminate | exact Hl].
Qed.

Lemma join_snoc sep init x :
  init <> [] -> join sep (init ++ [x]) = join sep init ++ sep :: x.
Proof.
  induction init as [| y init IH]; intros Hne; [contradiction |].
  destruct init as [| z init]; [reflexivity |].
  change (join sep ((y :: z :: init) ++ [x]))
    with (y ++ sep :: join sep ((z :: init) ++ [x])).
  rewrite IH by discriminate.
  change (join sep (y :: z :: init)) with (y ++ sep :: join sep (z :: init)).
  rewrite <- app_assoc. reflexivity.
Qed.

Lemma getitem_last_snoc {A} (l : list A) x : getitem_last (l ++ [x]) = Ok x.
Proof. unfold getitem_last. rewrite rev_app_distr. reflexivity. Qed.

(** ** [_get_file_name] *)

(** [_get_file_name] never fails, and what it returns is the part of the
    path after its last slash: the path is a directory part, empty or
    ended by a slash, followed by the name, and the name has no slash. *)
Theorem get_file_name_spec file_path :
  exists dir name,
    _get_file_name file_path = Ok name /\
    file_path = dir ++ name /\
    free_of "/" name = true /\
    (dir = [] \/ exists d, dir = d ++ ["/"%char]).
Proof.
  unfold _get_file_name.
  pose proof (join_split "/" file_path) as Hjoin.
  pose proof (split_on_pieces "/" file_path) as Hfree.
  destruct (exists_last (split_on_nonempty "/" file_path))
    as (init & name & E).
  rewrite E in *. rewrite forallb_app in Hfree.
  apply andb_prop in Hfree. destruct Hfree as [_ Hname].
  cbn [forallb] in Hname. rewrite andb_true_r in Hname.
  destruct init as [| y init].
  - exists [], name. cbn [app join] in *.
    split; [reflexivity |]. split; [symmetry; exact Hjoin |]. auto.
  - exists (join "/" (y :: init) ++ ["/"%char]), name.
    split; [apply getitem_last_snoc |].
    split; [rewrite <- Hjoin, join_snoc by discriminate;
            rewrite <- app_assoc; reflexivity |].
    split; [exact Hname |]. right. eauto.
Qed.

(** The name of a file given by directory and name is the name. *)
Theorem get_file_name_of_path dir name :
  free_of "/" name = true ->
  _get_file_name (dir ++ "/"%char :: name) = Ok name.
Proof.
  intros H. unfold _get_file_name.
  rewrite split_on_app, (split_on_free _ _ H). apply getitem_last_snoc.
Qed.

Lemma get_file_name_of_path_witness :
  _get_file_name (lit "/tmp/Eplus-env-sub_run1" ++ "/"%char :: lit "socket.cfg")
  = Ok (lit "socket.cfg").
Proof.
  apply (get_file_name_of_path (lit "/tmp/Eplus-env-sub_run1")
           (lit "socket.cfg")).
  reflexivity.
Defined.

(** ** The header of the monitor file *)

Lemma header_loop l :
  forall acc,
    fold_left (fun h element_header => h ++ (element_header ++ [","%char]))
      l acc
    = acc ++ concat (map (fun e => e ++ [","%char]) l).
Proof.
  induction l as [| x l IH]; intros acc.
  - symmetry. apply app_nil_r.
  - cbn [fold_left map concat]. rewrite IH, <- app_assoc. reflexivity.
Qed.

Lemma concat_commas l :
  l <> [] ->
  concat (map (fun e => e ++ [","%char]) l) = join "," l ++ [","%char].
Proof.
  induction l as [| x l IH]; intros Hne; [contradiction |].
  destruct l as [| y l].
  - cbn [map concat join]. rewrite app_nil_r. reflexivity.
  - change (join "," (x :: y :: l)) with (x ++ ","%char :: join "," (y :: l)).
    cbn [map concat] in *. rewrite IH by discriminate.
    rewrite <- !app_assoc. reflexivity.
Qed.

(** The loop and the slice build [','.join(names)]. *)
Lemma monitor_header_join l : monitor_header l = join "," l.
Proof.
  unfold monitor_header. rewrite header_loop. cbn [app].
  destruct l as [| x l]; [reflexivity |].
  rewrite concat_commas by discriminate. apply removelast_last.
Qed.

(** The header that [LoggerWrapper] writes has one column for each of the
    time step, month, day and hour, then one per observation variable and
    one per action variable, in their order, then the five closing
    columns, as long as no variable name contains a comma. *)
Theorem logger_header_columns observation action :
  forallb (free_of ",") observation = true ->
  forallb (free_of ",") action = true ->
  split_on "," (monitor_header (logger_header_list observation action))
  = [lit "timestep"; lit "month"; lit "day"; lit "hour"] ++ observation
      ++ action
      ++ [lit "time (seconds)"; lit "reward"; lit "power_penalty";
          lit "comfort_penalty"; lit "done"].
Proof.
  intros Ho Ha. rewrite monitor_header_join. unfold logger_header_list.
  set (rest := observation ++ action ++ _).
  assert (Hne : rest <> []).
  { unfold rest. destruct observation; [| discriminate].
    destruct action; discriminate. }
  assert (Hfree : forallb (free_of ",") rest = true).
  { unfold rest. rewrite !forallb_app, Ho, Ha. reflexivity. }
  destruct rest as [| y rest'] eqn:E; [contradiction |].
  change (join "," ([lit "timestep,month,day,hour"] ++ y :: rest'))
    with (lit "timestep,month,day,hour" ++ ","%char :: join "," (y :: rest')).
  rewrite split_on_app, (split_join "," (y :: rest') Hne Hfree).
  reflexivity.
Qed.

Lemma logger_header_columns_witness :
  split_on ","
    (monitor_header
       (logger_header_list
          [lit "Zone Air Temperature (SPACE1-1)";
           lit "Facility Total HVAC Electric Demand Power (Whole Building)"]
          [lit "Heating Setpoint RL"; lit "Cooling Setpoint RL"]))
  = [lit "timestep"; lit "month"; lit "day"; lit "hour"]
      ++ [lit "Zone Air Temperature (SPACE1-1)";
          lit "Facility Total HVAC Electric Demand Power (Whole Building)"]
      ++ [lit "Heating Setpoint RL"; lit "Cooling Setpoint RL"]
      ++ [lit "time (seconds)"; lit "reward"; lit "power_penalty";
          lit "comfort_penalty"; lit "done"].
Proof.
  apply (logger_header_columns
           [lit "Zone Air Temperature (SPACE1-1)";
            lit "Facility Total HVAC Electric Demand Power (Whole Building)"]
           [lit "Heating Setpoint RL"; lit "Cooling Setpoint RL"]);
    reflexivity.
Defined.

(** The header that [EplusEnv] writes splits back, at its commas, into the
    column names it was built from, as long as no variable name contains a
    comma. *)
Theorem env_header_columns observation action :
  forallb (free_of ",") observation = true ->
  forallb (free_of ",") action = true ->
  split_on "," (monitor_header (env_header_list observation action))
  = env_header_list observation action.
Proof.
  intros Ho Ha. rewrite monitor_header_join. apply split_join.
  - discriminate.
  - unfold env_header_list. rewrite !forallb_app, Ho, Ha. reflexivity.
Qed.

Lemma env_header_columns_witness :
  split_on ","
    (monitor_header
       (env_header_list [lit "Zone Air Temperature (SPACE1-1)"]
          [lit "Heating Setpoint RL"; lit "Cooling Setpoint RL"]))
  = env_header_list [lit "Zone Air Temperature (SPACE1-1)"]
      [lit "Heating Setpoint RL"; lit "Cooling Setpoint RL"].
Proof.
  apply (env_header_columns [lit "Zone Air Temperature (SPACE1-1)"]
           [lit "Heating Setpoint RL"; lit "Cooling Setpoint RL"]);
    reflexivity.
Defined.

(** ** The history of [MultiObsWrapper] *)

Lemma skipn_S_tl {A} k (l : list A) : skipn (S k) l = tl (skipn k l).
Proof.
  revert l. induction k as [| k IH]; intros l.
  - destruct l; reflexivity.
  - destruct l as [| x l]; [reflexivity |].
    change (skipn (S (S k)) (x :: l)) with (skipn (S k) l).
    change (skipn (S k) (x :: l)) with (skipn k l). apply IH.
Qed.

Lemma deque_append_lastn {A} n (X : list A) x :
  MultiObs.deque_append n (lastn n X) x = lastn n (X ++ [x]).
Proof.
  unfold MultiObs.deque_append, lastn.
  rewrite !length_app, length_skipn. cbn [List.length].
  destruct (Nat.ltb_spec n (List.length X - (List.length X - n) + 1)) as [H | H].
  - replace (List.length X + 1 - n)%nat with (S (List.length X - n)) by lia.
    rewrite skipn_S_tl, skipn_app.
    replace (List.length X - n - List.length X)%nat with 0%nat by lia.
    reflexivity.
  - replace (List.length X + 1 - n)%nat with 0%nat by lia.
    replace (List.length X - n)%nat with 0%nat by lia. reflexivity.
Qed.

Lemma deque_feed {A} n (xs : list A) :
  forall X,
    fold_left (MultiObs.deque_append n) xs (lastn n X) = lastn n (X ++ xs).
Proof.
  induction xs as [| x xs IH]; intros X.
  - rewrite app_nil_r. reflexivity.
  - cbn [fold_left]. rewrite deque_append_lastn, IH, <- app_assoc.
    reflexivity.
Qed.

Lemma fold_left_const {A B} (f : A -> A) (l : list B) (a : A) :
  fold_left (fun h _ => f h) l a = Nat.iter (List.length l) f a.
Proof.
  revert a. induction l as [| x l IH]; intros a; [reflexivity |].
  cbn [fold_left List.length]. rewrite IH. symmetry. apply Nat.iter_succ_r.
Qed.

Lemma fold_left_repeat {A} (f : list A -> A -> list A) x k h :
  fold_left f (repeat x k) h = Nat.iter k (fun h => f h x) h.
Proof.
  revert h. induction k as [| k IH]; intros h; [reflexivity |].
  cbn [repeat fold_left]. rewrite IH. symmetry. apply Nat.iter_succ_r.
Qed.

Lemma run_call_history w c X :
  MultiObs.history w = lastn (MultiObs.n w) X ->
  MultiObs.n (MultiObs.run_call w c) = MultiObs.n w /\
  MultiObs.ind_flat (MultiObs.run_call w c) = MultiObs.ind_flat w /\
  MultiObs.history (MultiObs.run_call w c)
  = lastn (MultiObs.n w) (X ++ MultiObs.feed (MultiObs.n w) c).
Proof.
  intros H. destruct c as [obs | obs];
    cbn [MultiObs.run_call MultiObs.reset MultiObs.step snd MultiObs.n
         MultiObs.ind_flat MultiObs.history MultiObs.feed].
  - split; [reflexivity |]. split; [reflexivity |].
    rewrite fold_left_const. unfold range. rewrite length_seq, Nat.sub_0_r.
    rewrite <- (fold_left_repeat (MultiObs.deque_append (MultiObs.n w))).
    rewrite H. apply deque_feed.
  - split; [reflexivity |]. split; [reflexivity |].
    rewrite H. apply deque_append_lastn.
Qed.

(** Whatever calls were made on a wrapper since it was built, its history
    holds the last [n] observations fed to it, a reset counting for [n]
    copies of its observation. *)
Theorem history_window n flatten calls :
  MultiObs.history (fold_left MultiObs.run_call calls (MultiObs.init n flatten))
  = lastn n (flat_map (MultiObs.feed n) calls).
Proof.
  assert (G : forall w X,
             MultiObs.history w = lastn (MultiObs.n w) X ->
             MultiObs.history (fold_left MultiObs.run_call calls w)
             = lastn (MultiObs.n w)
                 (X ++ flat_map (MultiObs.feed (MultiObs.n w)) calls)).
  { induction calls as [| c calls IH]; intros w X H.
    - cbn [fold_left flat_map]. rewrite app_nil_r. exact H.
    - cbn [fold_left flat_map].
      destruct (run_call_history w c X H) as (Hn & _ & Hh).
      rewrite <- Hn in Hh. rewrite (IH _ _ Hh), Hn, <- app_assoc.
      reflexivity. }
  apply (G (MultiObs.init n flatten) []). reflexivity.
Qed.

Lemma lastn_app_long {A} n (X Y : list A) :
  (n <= List.length Y)%nat -> lastn n (X ++ Y) = lastn n Y.
Proof.
  intros H. unfold lastn. rewrite length_app, skipn_app.
  rewrite skipn_all2 by lia.
  replace (List.length X + List.length Y - n - List.length X)%nat
    with (List.length Y - n)%nat by lia.
  reflexivity.
Qed.

Lemma skipn_repeat {A} (x : A) k n : skipn k (repeat x n) = repeat x (n - k).
Proof.
  revert k. induction n as [| n IH]; intros k.
  - destruct k; reflexivity.
  - destruct k as [| k]; [reflexivity |]. cbn [repeat skipn]. apply IH.
Qed.

Lemma run_calls_settings calls :
  forall w,
    MultiObs.n (fold_left MultiObs.run_call calls w) = MultiObs.n w /\
    MultiObs.ind_flat (fold_left MultiObs.run_call calls w)
    = MultiObs.ind_flat w.
Proof.
  induction calls as [| c calls IH]; intros w; [auto |].
  cbn [fold_left]. destruct (IH (MultiObs.run_call w c)) as [-> ->].
  destruct c; auto.
Qed.

Lemma length_concat_uniform {A} (l : list (list A)) d :
  Forall (fun x => List.length x = d) l ->
  List.length (concat l) = (List.length l * d)%nat.
Proof.
  induction 1 as [| x l Hx _ IH]; [reflexivity |].
  cbn [concat List.length]. rewrite length_app, IH, Hx. reflexivity.
Qed.

(** After a reset and at most [n] steps, the history is the observation
    of the reset, as many times as needed to fill [n] places, followed by
    the observations of the steps: nothing of what came before the reset
    is left.  With [flatten] set and observations of one size [d], the
    stacked observation has [n * d] entries. *)
Theorem stack_after_reset n flatten before o steps :
  (List.length steps <= n)%nat ->
  let w := fold_left MultiObs.run_call
             (before ++ MultiObs.Reset o :: map MultiObs.Step steps)
             (MultiObs.init n flatten) in
  MultiObs.history w = repeat o (n - List.length steps) ++ steps /\
  forall d,
    flatten = true ->
    Forall (fun x => List.length x = d) (o :: steps) ->
    exists v, MultiObs._get_obs w = MultiObs.Flat v /\
              List.length v = (n * d)%nat.
Proof.
  intros Hk w.
  assert (Hh : MultiObs.history w = repeat o (n - List.length steps) ++ steps).
  { unfold w. rewrite history_window, flat_map_app. cbn [flat_map MultiObs.feed].
    assert (E : flat_map (MultiObs.feed n) (map MultiObs.Step steps) = steps).
    { clear. induction steps as [| x l IH]; [reflexivity |].
      cbn [map flat_map MultiObs.feed app]. rewrite IH. reflexivity. }
    rewrite E, lastn_app_long
      by (rewrite length_app, repeat_length; lia).
    unfold lastn. rewrite length_app, repeat_length, skipn_app.
    rewrite skipn_repeat, repeat_length.
    replace (n + List.length steps - n)%nat with (List.length steps) by lia.
    replace (List.length steps - n)%nat with 0%nat by lia. reflexivity. }
  split; [exact Hh |].
  intros d Hflat Hall.
  destruct (run_calls_settings
              (before ++ MultiObs.Reset o :: map MultiObs.Step steps)
              (MultiObs.init n flatten)) as [_ Hf].
  fold w in Hf. cbn [MultiObs.init MultiObs.ind_flat] in Hf.
  unfold MultiObs._get_obs. rewrite Hf, Hflat, Hh.
  eexists. split; [reflexivity |].
  rewrite (length_concat_uniform _ d).
  - rewrite length_app, repeat_length. f_equal. lia.
  - apply Forall_cons_iff in Hall. destruct Hall as [Ho Hs].
    apply Forall_app. split.
    + apply Forall_forall. intros x Hx. apply repeat_spec in Hx. subst x.
      exact Ho.
    + exact Hs.
Qed.

Lemma stack_after_reset_witness :
  let w := fold_left MultiObs.run_call
             ([MultiObs.Step [lit_float "9.0"]]
                ++ MultiObs.Reset [lit_float "1.0"]
                   :: map MultiObs.Step [[lit_float "2.0"]; [lit_float "3.0"]])
             (MultiObs.init 5 true) in
  MultiObs.history w
  = repeat [lit_float "1.0"]
      (5 - List.length [[lit_float "2.0"]; [lit_float "3.0"]])
      ++ [[lit_float "2.0"]; [lit_float "3.0"]] /\
  forall d,
    true = true ->
    Forall (fun x => List.length x = d)
      ([lit_float "1.0"] :: [[lit_float "2.0"]; [lit_float "3.0"]]) ->
    exists v, MultiObs._get_obs w = MultiObs.Flat v /\
              List.length v = (5 * d)%nat.
Proof.
  apply (stack_after_reset 5 true [MultiObs.Step [lit_float "9.0"]]
           [lit_float "1.0"] [[lit_float "2.0"]; [lit_float "3.0"]]).
  cbn [List.length]. lia.
Defined.

(** ** [NormalizeObservation] *)

Lemma not_lt_ge a b :
  Normalize.isnan a = false -> Normalize.isnan b = false ->
  float_lt a b = false -> float_ge a b = true.
Proof.
  unfold float_lt, float_ge.
  destruct a as [sa | sa | | sa ma ea], b as [sb | sb | | sb mb eb];
    cbn [Normalize.isnan float_cmp]; try discriminate; intros _ _;
    try destruct sa; try destruct sb; try discriminate; try reflexivity;
    destruct (_ ?= _)%Q; try discriminate; reflexivity.
Qed.

(** Whatever the entry and its range are, finite, infinite or NaN, the
    normalized entry is a float between 0 and 1. *)
Theorem normalize_in_unit r x :
  Normalize.in_unit (Normalize.normalize r x) = true.
Proof.
  unfold Normalize.normalize. destruct r as [lo hi].
  set (y := if Normalize.float_eqb _ _ then _ else _). clearbody y.
  destruct (Normalize.isnan y) eqn:Hnan; [reflexivity |].
  destruct (Normalize.float_gt y float_one) eqn:Hgt; [reflexivity |].
  destruct (float_lt y Normalize.float_zero) eqn:Hlt; [reflexivity |].
  unfold Normalize.in_unit, float_le. unfold Normalize.float_gt in Hgt.
  rewrite (not_lt_ge y Normalize.float_zero Hnan eq_refl Hlt).
  rewrite (not_lt_ge float_one y eq_refl Hnan Hgt). reflexivity.
Qed.

Lemma length_setitem obs i v :
  List.length (Normalize.setitem obs i v) = List.length obs.
Proof.
  revert i. induction obs as [| x obs IH]; intros i; [reflexivity |].
  destruct i; cbn [Normalize.setitem List.length]; [reflexivity |].
  rewrite IH. reflexivity.
Qed.

Lemma nth_error_setitem_eq obs i v :
  (i < List.length obs)%nat ->
  nth_error (Normalize.setitem obs i v) i = Some v.
Proof.
  revert i. induction obs as [| x obs IH]; intros i H;
    cbn [List.length] in H; [lia |].
  destruct i; cbn [Normalize.setitem nth_error]; [reflexivity |].
  apply IH. lia.
Qed.

Lemma nth_error_setitem_neq obs i j v :
  i <> j -> nth_error (Normalize.setitem obs i v) j = nth_error obs j.
Proof.
  revert i j. induction obs as [| x obs IH]; intros i j H; [reflexivity |].
  destruct i, j; cbn [Normalize.setitem nth_error]; try reflexivity;
    try contradiction.
  apply IH. congruence.
Qed.

Lemma loop_spec ranges variables :
  forall i obs obs',
    Normalize.loop ranges variables i obs = Normalize.Done obs' ->
    List.length obs' = List.length obs /\
    (forall j, (i <= j < i + List.length variables)%nat ->
       exists y, nth_error obs' j = Some y /\ Normalize.in_unit y = true) /\
    (forall j, (j < i \/ i + List.length variables <= j)%nat ->
       nth_error obs' j = nth_error obs j).
Proof.
  induction variables as [| variable rest IH]; intros i obs obs' H.
  - cbn [Normalize.loop] in H. inversion H; subst.
    split; [reflexivity |]. split; [| reflexivity].
    intros j Hj. cbn [List.length] in Hj. lia.
  - cbn [Normalize.loop] in H.
    destruct (ranges variable) as [r |]; [| discriminate].
    destruct (nth_error obs i) as [x |] eqn:Hx; [| discriminate].
    assert (Hi : (i < List.length obs)%nat)
      by (apply nth_error_Some; rewrite Hx; discriminate).
    destruct (IH _ _ _ H) as (Hlen & Hin & Hout).
    rewrite length_setitem in Hlen.
    split; [exact Hlen |]. cbn [List.length]. split.
    + intros j Hj. destruct (Nat.eq_dec j i) as [-> | Hne].
      * exists (Normalize.normalize r x).
        rewrite Hout by lia.
        split; [apply nth_error_setitem_eq; exact Hi
               | apply normalize_in_unit].
      * apply Hin. lia.
    + intros j Hj. rewrite Hout by lia.
      apply nth_error_setitem_neq. lia.
Qed.

Lemma loop_done_iff ranges variables :
  forall i obs,
    (exists obs', Normalize.loop ranges variables i obs = Normalize.Done obs')
    <-> (Forall (fun v => ranges v <> None) variables /\
         (variables = [] \/ i + List.length variables <= List.length obs)%nat).
Proof.
  induction variables as [| variable rest IH]; intros i obs.
  - cbn [Normalize.loop]. split; [auto | eauto].
  - cbn [Normalize.loop List.length]. split.
    + intros [obs' H].
      destruct (ranges variable) as [r |] eqn:Hr; [| discriminate].
      destruct (nth_error obs i) as [x |] eqn:Hx; [| discriminate].
      assert (Hi : (i < List.length obs)%nat)
        by (apply nth_error_Some; rewrite Hx; discriminate).
      destruct (proj1 (IH _ _) (ex_intro _ obs' H)) as [Hall Hlen].
      rewrite length_setitem in Hlen.
      split; [constructor; [rewrite Hr; discriminate | exact Hall] |].
      right. destruct Hlen as [-> | Hlen]; cbn [List.length]; lia.
    + intros [Hall [Hnil | Hlen]]; [discriminate |].
      apply Forall_cons_iff in Hall. destruct Hall as [Hr Hall].
      destruct (ranges variable) as [r |]; [| contradiction].
      destruct (nth_error obs i) as [x |] eqn:Hx.
      * apply IH. split; [exact Hall |]. right. rewrite length_setitem. lia.
      * apply nth_error_None in Hx. lia.
Qed.

(** What [observation] returns when it returns: an array as long as the
    observation, whose entries for the observation variables lie between 0
    and 1 and whose further entries (day, month and hour) are those of the
    observation; and the observation itself is what was saved as the
    unwrapped one. *)
Theorem observation_spec ranges variables obs saved obs' :
  Normalize.observation ranges variables obs = (saved, Normalize.Done obs') ->
  saved = obs /\
  List.length obs' = List.length obs /\
  (forall j, (j < List.length variables)%nat ->
     exists y, nth_error obs' j = Some y /\ Normalize.in_unit y = true) /\
  (forall j, (List.length variables <= j)%nat ->
     nth_error obs' j = nth_error obs j).
Proof.
  unfold Normalize.observation. intros [= <- H].
  destruct (loop_spec _ _ _ _ _ H) as (Hlen & Hin & Hout).
  split; [reflexivity |]. split; [exact Hlen |]. split.
  - intros j Hj. apply Hin. lia.
  - intros j Hj. apply Hout. lia.
Qed.

Lemma observation_spec_witness :
  example_observation = example_observation /\
  List.length [lit_float "0.5"; lit_float "1.0"; lit_float "14.0";
               lit_float "7.0"; lit_float "9.0"]
  = List.length example_observation /\
  (forall j, (j < List.length example_variables)%nat ->
     exists y,
       nth_error [lit_float "0.5"; lit_float "1.0"; lit_float "14.0";
                  lit_float "7.0"; lit_float "9.0"] j = Some y /\
       Normalize.in_unit y = true) /\
  (forall j, (List.length example_variables <= j)%nat ->
     nth_error [lit_float "0.5"; lit_float "1.0"; lit_float "14.0";
                lit_float "7.0"; lit_float "9.0"] j
     = nth_error example_observation j).
Proof.
  apply (observation_spec example_ranges example_variables).
  vm_compute. reflexivity.
Defined.

(** [observation] returns exactly when every observation variable has a
    range and the observation has an entry for each of them; otherwise it
    raises (KeyError or IndexError). *)
Theorem observation_done_iff ranges variables obs :
  (exists obs',
     snd (Normalize.observation ranges variables obs) = Normalize.Done obs')
  <-> (Forall (fun v => ranges v <> None) variables /\
       (List.length variables <= List.length obs)%nat).
Proof.
  unfold Normalize.observation. cbn [snd]. rewrite loop_done_iff.
  split; intros [Hall H]; (split; [exact Hall |]).
  - destruct H as [-> | H]; cbn [List.length]; lia.
  - right. lia.
Qed.

(** ** Teardown after a step *)

Section TeardownAfterStep.

Context {TimeInfo : Type} (time_info : float -> TimeInfo).

(** The terminate message that follows a [step] repeats that step: a
    teardown right after a [step] that returned sends, on the same
    connection, the action of that step and the elapsed time of its last
    answer, with flag 1 and the version of the header. *)
Theorem teardown_after_step action s ti obs term s1 p :
  step time_info action s = (Ok (Some (ti, obs, term)), s1) ->
  _eplus_process (self s) = Some p ->
  no_faults (world s1) 6 ->
  exists h c t s2,
    _eplus_msg_header (self s) = Some h /\ _conn (self s) = Some c /\
    _curSimTim (self s1) = Some t /\ ti = time_info t /\
    _end_episode s1 = (Ok tt, s2) /\
    trace s2
    = trace s1
      ++ teardown_events c p
           (message_line (fmt_d_int (fst h)) (fmt_d_int 1)
              (fmt_d_int (len action)) (fmt_d_int 0) (fmt_d_int 0) t action)
           (next_recv (world s1)).
Proof.
  intros H Hp NF.
  destruct (_curSimTim (self s)) as [cur |] eqn:Hcur;
    [| unfold step, bind, attr in H; rewrite Hcur in H; discriminate H].
  destruct (float_ge cur (_eplus_one_epi_len (self s))) eqn:Hge;
    [rewrite (step_at_end time_info action s cur Hcur Hge) in H;
     discriminate H |].
  destruct (step_active_ok time_info action s cur _ s1 Hcur Hge H)
    as (v & f & c & r & rest & Hh & Hc & _ & _ & _ & _ & Hres & Hself).
  inversion Hres as [[Hti Hobs Hterm]].
  set (t := m_curSimTim (r_msg (last rest r))) in *.
  assert (Hh1 : _eplus_msg_header (self s1) = Some (v, f))
    by (rewrite Hself; exact Hh).
  assert (Hc1 : _conn (self s1) = Some c) by (rewrite Hself; exact Hc).
  assert (Hp1 : _eplus_process (self s1) = Some p)
    by (rewrite Hself; exact Hp).
  assert (Hcur1 : _curSimTim (self s1) = Some t)
    by (rewrite Hself; reflexivity).
  exists (v, f), c, t. eexists.
  split; [exact Hh |]. split; [exact Hc |]. split; [exact Hcur1 |].
  split; [reflexivity |].
  split; [apply (end_episode_run s1 (v, f) t c p); assumption |].
  cbn [trace]. unfold terminate_line. rewrite Hself. reflexivity.
Qed.

End TeardownAfterStep.

Lemma teardown_after_step_witness :
  exists h c t s2,
    _eplus_msg_header (self after_reset) = Some h /\
    _conn (self after_reset) = Some c /\
    _curSimTim (self after_step) = Some t /\
    lit_float "1800.0" = t /\
    _end_episode after_step = (Ok tt, s2) /\
    trace s2
    = trace after_step
      ++ teardown_events c 6%nat
           (message_line (fmt_d_int (fst h)) (fmt_d_int 1)
              (fmt_d_int (len example_action)) (fmt_d_int 0) (fmt_d_int 0) t
              example_action)
           (next_recv (world after_step)).
Proof.
  apply (teardown_after_step (fun t => t) example_action after_reset
           (lit_float "1800.0") [lit_float "21.0"; lit_float "22.0"] true
           after_step 6%nat).
  - vm_compute. reflexivity.
  - vm_compute. reflexivity.
  - intros i Hi. reflexivity.
Defined.

(** ** The layout of the observation vector *)

Lemma str_eqb_eq a b : str_eqb a b = true <-> a = b.
Proof.
  revert b. induction a as [| x a IH]; intros [| y b]; cbn [str_eqb];
    try (split; [discriminate | discriminate]); [tauto |].
  rewrite andb_true_iff, IH. unfold chr_eqb. rewrite Ascii.eqb_eq.
  split; [intros [-> ->]; reflexivity | intros [= -> ->]; auto].
Qed.

Lemma setitem_new {V} (d : PyDict.dict V) k v :
  ~ In k (map fst d) -> PyDict.setitem d k v = d ++ [(k, v)].
Proof.
  induction d as [| [k' v'] d IH]; intros H; [reflexivity |].
  cbn [PyDict.setitem app]. cbn [map fst In] in H.
  destruct (str_eqb k' k) eqn:E.
  - apply str_eqb_eq in E. tauto.
  - rewrite IH by tauto. reflexivity.
Qed.

Lemma of_pairs_distinct {V} (pairs : list (str * V)) :
  forall acc,
    NoDup (map fst (acc ++ pairs)) ->
    fold_left (fun d kv => PyDict.setitem d (fst kv) (snd kv)) pairs acc
    = acc ++ pairs.
Proof.
  induction pairs as [| [k v] pairs IH]; intros acc H.
  - symmetry. apply app_nil_r.
  - cbn [fold_left fst snd].
    assert (Hk : ~ In k (map fst acc)).
    { rewrite map_app in H. cbn [map fst] in H.
      apply NoDup_remove_2 in H. intros Hin. apply H.
      apply in_or_app. left. exact Hin. }
    rewrite (setitem_new acc k v Hk).
    replace (acc ++ (k, v) :: pairs) with ((acc ++ [(k, v)]) ++ pairs)
      by (rewrite <- app_assoc; reflexivity).
    apply IH. rewrite <- app_assoc. exact H.
Qed.

Lemma combine_keys {V} (ks : list str) (vs : list V) k :
  In k (map fst (combine ks vs)) -> In k ks.
Proof.
  revert vs. induction ks as [| x ks IH]; intros [| v vs] H;
    cbn [combine map fst In] in *; try contradiction.
  destruct H as [H | H]; [auto | right; exact (IH _ H)].
Qed.

Lemma combine_keys_distinct {V} (ks : list str) (vs : list V) :
  NoDup ks -> NoDup (map fst (combine ks vs)).
Proof.
  intros H. revert vs. induction H as [| x ks Hx _ IH]; intros [| v vs];
    cbn [combine map fst]; try constructor.
  - intros Hin. apply Hx. exact (combine_keys _ _ _ Hin).
  - apply IH.
Qed.

Lemma combine_values {V} (ks : list str) (vs : list V) :
  map snd (combine ks vs) = firstn (List.length ks) vs.
Proof.
  revert vs. induction ks as [| x ks IH]; intros [| v vs]; try reflexivity.
  cbn [combine map snd List.length firstn]. rewrite IH. reflexivity.
Qed.

(** The observation that [EplusEnv] returns is the values of the
    observation variables, in their order, followed by day, month and
    hour, provided the variable names are distinct and none of them is
    [day], [month] or [hour]; so the slice [[:-3]] that the loggers take
    gives back the values of the simulator. *)
Theorem env_observation_layout variables obs day month hour :
  NoDup variables ->
  ~ In (lit "day") variables -> ~ In (lit "month") variables ->
  ~ In (lit "hour") variables ->
  env_observation variables obs day month hour
  = firstn (List.length variables) obs ++ [day; month; hour] /\
  drop_last3 (env_observation variables obs day month hour)
  = firstn (List.length variables) obs.
Proof.
  intros Hnd Hd Hm Hh.
  assert (E : env_observation variables obs day month hour
              = firstn (List.length variables) obs ++ [day; month; hour]).
  { unfold env_observation, PyDict.of_pairs.
    rewrite (of_pairs_distinct (combine variables obs) [])
      by (apply combine_keys_distinct; exact Hnd).
    cbn [app].
    rewrite (setitem_new (combine variables obs) (lit "day") day)
      by (intros Hin; apply Hd; exact (combine_keys _ _ _ Hin)).
    rewrite (setitem_new (combine variables obs ++ [(lit "day", day)])
               (lit "month") month).
    2:{ rewrite map_app, in_app_iff. cbn [map fst In].
        intros [Hin | [Hin | []]]; [| discriminate Hin].
        apply Hm. exact (combine_keys _ _ _ Hin). }
    rewrite (setitem_new
               ((combine variables obs ++ [(lit "day", day)])
                  ++ [(lit "month", month)]) (lit "hour") hour).
    2:{ rewrite !map_app, !in_app_iff. cbn [map fst In].
        intros [[Hin | [Hin | []]] | [Hin | []]]; try discriminate Hin.
        apply Hh. exact (combine_keys _ _ _ Hin). }
    unfold PyDict.values. rewrite !map_app, combine_values, <- !app_assoc.
    reflexivity. }
  split; [exact E |].
  rewrite E. unfold drop_last3. rewrite length_app. cbn [List.length].
  replace (List.length (firstn (List.length variables) obs) + 3 - 3)%nat
    with (List.length (firstn (List.length variables) obs) + 0)%nat by lia.
  rewrite firstn_app_2. cbn [firstn]. apply app_nil_r.
Qed.

Lemma env_observation_layout_witness :
  env_observation example_variables [lit_float "20.0"; lit_float "120.0"]
    (lit_float "14.0") (lit_float "7.0") (lit_float "9.0")
  = firstn (List.length example_variables)
      [lit_float "20.0"; lit_float "120.0"]
      ++ [lit_float "14.0"; lit_float "7.0"; lit_float "9.0"] /\
  drop_last3
    (env_observation example_variables [lit_float "20.0"; lit_float "120.0"]
       (lit_float "14.0") (lit_float "7.0") (lit_float "9.0"))
  = firstn (List.length example_variables)
      [lit_float "20.0"; lit_float "120.0"].
Proof.
  apply (env_observation_layout example_variables
           [lit_float "20.0"; lit_float "120.0"]).
  - repeat constructor; cbn [In]; intros H;
      repeat (destruct H as [H | H]; [discriminate H |]); exact H.
  - cbn [example_variables In]. intros H.
    repeat (destruct H as [H | H]; [discriminate H |]). exact H.
  - cbn [example_variables In]. intros H.
    repeat (destruct H as [H | H]; [discriminate H |]). exact H.
  - cbn [example_variables In]. intros H.
    repeat (destruct H as [H | H]; [discriminate H |]). exact H.
Defined.
